(** * The request/notification pipeline of the storefront scripts

    A shallow embedding of [static/js/utils.js] (the [Utils] object:
    [showNotification], [getCsrfToken], [ajax], [updateCartBadge],
    [addToCart]) and of the toast and cart-counter helpers of
    [static/js/frontend.js] ([showToast], [createToastContainer],
    [updateCartCounter]).

    The page is an explicit state: the part of the DOM these functions read
    and write, the pending [setTimeout] callbacks and a logical clock in
    milliseconds.  A promise chain is a state transformer that yields a
    settled outcome; the network is an input. *)

From Stdlib Require Import ZArith Ascii String List Bool Lia Sorted.
From stdpp Require Import base option list gmap strings pretty.

Set Warnings "-register-all".
Local Open Scope string_scope.

(** ** JavaScript strings *)

Module JsString.

(** One double-quote character, for the attribute values of the templates. *)
Definition dq : string := String (ascii_of_nat 34) EmptyString.

(** [s.startsWith(p)]. *)
Definition startsWith (p s : string) : bool := String.prefix p s.

(** [s.split(sep)] for a non-empty separator: [skip] counts the characters
    of a separator occurrence that are still to be passed over. *)
Fixpoint split_from (sep : string) (skip : nat) (s : string) : list string :=
  match s with
  | EmptyString => [EmptyString]
  | String c s' =>
      match skip with
      | S k => split_from sep k s'
      | O =>
          if String.prefix sep s
          then EmptyString :: split_from sep (String.length sep - 1) s'
          else match split_from sep 0 s' with
               | piece :: pieces => String c piece :: pieces
               | [] => [String c EmptyString]
               end
      end
  end.

Definition split (sep s : string) : list string := split_from sep 0 s.

(** [c.toUpperCase()] on one character: the letters a-z; every other byte
    (digits, punctuation, the bytes of a non-ASCII character) is kept. *)
Definition upper_ascii (c : ascii) : ascii :=
  let n := nat_of_ascii c in
  if (97 <=? n)%nat && (n <=? 122)%nat then ascii_of_nat (n - 32) else c.

Fixpoint toUpperCase (s : string) : string :=
  match s with
  | EmptyString => EmptyString
  | String c s' => String (upper_ascii c) (toUpperCase s')
  end.

End JsString.

(** ** JavaScript values

    What [JSON.parse] can return, and [undefined].  Numbers are the integers
    (a count, an identifier); fractional numbers are outside the model.  A
    number of the language is a double: it holds the integers up to 2^53
    either way one by one, and those are the numbers that [JNum] stands for;
    beyond them the language rounds, and from 10^21 writes an exponent, which
    the model does not follow ([safe_integer] below). *)

Inductive JSValue : Type :=
| JUndefined
| JNull
| JBool (b : bool)
| JNum (n : Z)
| JStr (s : string)
| JArr (items : list JSValue)
| JObj (fields : list (string * JSValue)).

(** Truthiness, as [if (v)], [v || w] and [v ? a : b] test it. *)
Definition js_truthy (v : JSValue) : bool :=
  match v with
  | JUndefined | JNull => false
  | JBool b => b
  | JNum n => negb (n =? 0)%Z
  | JStr s => negb (String.eqb s EmptyString)
  | JArr _ | JObj _ => true
  end.

(** [v || w]. *)
Definition js_or (v w : JSValue) : JSValue := if js_truthy v then v else w.

(** The own property [k] of a parsed object: of two members with one name
    [JSON.parse] keeps the later. *)
Fixpoint own_property (k : string) (fields : list (string * JSValue)) : option JSValue :=
  match fields with
  | [] => None
  | (k', v) :: rest =>
      match own_property k rest with
      | Some later => Some later
      | None => if String.eqb k k' then Some v else None
      end
  end.

(** [null] or [undefined]: reading a property of such a value throws. *)
Definition js_nullish (v : JSValue) : bool :=
  match v with
  | JUndefined | JNull => true
  | _ => false
  end.

(** [v.k] for the keys the scripts read ([success], [cart_count], [error]) on
    a value that is not nullish: a primitive or an array has no such
    property. *)
Definition js_prop (k : string) (v : JSValue) : JSValue :=
  match v with
  | JObj fields => default JUndefined (own_property k fields)
  | _ => JUndefined
  end.

(** [String(v)], the coercion of a template literal's [${v}]: an array joins
    its items with commas, [null] and [undefined] items as empty strings; a
    parsed object prints as [[object Object]]; a number is written as the
    integer it is, as the language writes the integers up to 2^53. *)
Fixpoint js_to_string (v : JSValue) : string :=
  match v with
  | JUndefined => "undefined"
  | JNull => "null"
  | JBool true => "true"
  | JBool false => "false"
  | JNum n => pretty n
  | JStr s => s
  | JArr items =>
      (fix join (l : list JSValue) : string :=
         match l with
         | [] => EmptyString
         | x :: rest =>
             let item := match x with
                         | JUndefined | JNull => EmptyString
                         | _ => js_to_string x
                         end in
             match rest with
             | [] => item
             | _ :: _ => item ++ "," ++ join rest
             end
         end) items
  | JObj _ => "[object Object]"
  end.

(** ** The page

    The nodes the pipeline creates carry a number; the close button of a node
    and the callbacks scheduled for it refer to the node by that number. *)

(** The [div] that [Utils.showNotification] builds. *)
Record Notification : Type := {
  n_className : string;
  n_innerHTML : string
}.

(** The [div] that [showToast] builds, with the [delay] option that line 209
    gives to the Bootstrap component created on it. *)
Record Toast : Type := {
  t_className : string;
  t_role : string;
  t_cssText : string;
  t_innerHTML : string;
  t_delay : nat
}.

(** The first [.cart-badge] element: its text and [style.display]. *)
Record Badge : Type := {
  b_textContent : string;
  b_display : string
}.

(** The first [.cart-counter] element: its text and [style.transform]. *)
Record Counter : Type := {
  c_textContent : string;
  c_transform : string
}.

(** The closures handed to [setTimeout], one constructor per closure. *)
Inductive Callback : Type :=
| AutoClose (id : nat)     (* utils.js 25-29: remove the notification if it has a parent *)
| ScaleBack.               (* frontend.js 181-183: reset the counter's transform *)

Record Page : Type := mkPage {
  cookie : string;                              (* document.cookie *)
  csrf_field : option string;                   (* value of [name=csrfmiddlewaretoken], if any *)
  notifications : list (nat * Notification);    (* notification children of document.body *)
  toast_container : option (list (nat * Toast));(* #toast-container and its children *)
  cart_badge : option Badge;
  cart_counter : option Counter;
  timers : list (nat * Callback);               (* pending timeouts: expiry time, callback *)
  now : nat;                                    (* milliseconds *)
  next_id : nat;                                (* number of the next created node *)
  remove_calls : list nat                       (* the calls of [remove()] on a notification, oldest first *)
}.

Definition set_notifications (f : list (nat * Notification) -> list (nat * Notification))
    (p : Page) : Page :=
  mkPage (cookie p) (csrf_field p) (f (notifications p)) (toast_container p) (cart_badge p)
    (cart_counter p) (timers p) (now p) (next_id p) (remove_calls p).

Definition set_toast_container (c : option (list (nat * Toast))) (p : Page) : Page :=
  mkPage (cookie p) (csrf_field p) (notifications p) c (cart_badge p)
    (cart_counter p) (timers p) (now p) (next_id p) (remove_calls p).

Definition set_cart_badge (b : option Badge) (p : Page) : Page :=
  mkPage (cookie p) (csrf_field p) (notifications p) (toast_container p) b
    (cart_counter p) (timers p) (now p) (next_id p) (remove_calls p).

Definition set_cart_counter (c : option Counter) (p : Page) : Page :=
  mkPage (cookie p) (csrf_field p) (notifications p) (toast_container p) (cart_badge p)
    c (timers p) (now p) (next_id p) (remove_calls p).

Definition set_timers (ts : list (nat * Callback)) (p : Page) : Page :=
  mkPage (cookie p) (csrf_field p) (notifications p) (toast_container p) (cart_badge p)
    (cart_counter p) ts (now p) (next_id p) (remove_calls p).

Definition set_now (t : nat) (p : Page) : Page :=
  mkPage (cookie p) (csrf_field p) (notifications p) (toast_container p) (cart_badge p)
    (cart_counter p) (timers p) t (next_id p) (remove_calls p).

Definition set_next_id (n : nat) (p : Page) : Page :=
  mkPage (cookie p) (csrf_field p) (notifications p) (toast_container p) (cart_badge p)
    (cart_counter p) (timers p) (now p) n (remove_calls p).

Definition log_remove (id : nat) (p : Page) : Page :=
  mkPage (cookie p) (csrf_field p) (notifications p) (toast_container p) (cart_badge p)
    (cart_counter p) (timers p) (now p) (next_id p) (remove_calls p ++ [id])%list.

(** A page as it is loaded: no notification yet, no timer, time zero. *)
Definition loaded (cookie : string) (csrf_field : option string)
    (badge : option Badge) (counter : option Counter) : Page :=
  mkPage cookie csrf_field [] None badge counter [] 0 0 [].

(** The toasts in the page: the children of the container, if it exists. *)
Definition toasts (p : Page) : list (nat * Toast) := default [] (toast_container p).

(** [node.parentElement] is not null. *)
Definition notification_attached (id : nat) (p : Page) : bool :=
  existsb (Nat.eqb id) (map fst (notifications p)).

Definition toast_attached (id : nat) (p : Page) : bool :=
  existsb (Nat.eqb id) (map fst (toasts p)).

Definition without {A : Type} (id : nat) (l : list (nat * A)) : list (nat * A) :=
  List.filter (fun e => negb (Nat.eqb id (fst e))) l.

(** [notification.remove()]: detaches the node; on a node without a parent
    the call does nothing. *)
Definition remove_notification (id : nat) (p : Page) : Page :=
  log_remove id (set_notifications (without id) p).

(** [toast.remove()]: detaches the toast; on a toast that is not in the
    container the call does nothing. *)
Definition remove_toast (id : nat) (p : Page) : Page :=
  set_toast_container (without id <$> toast_container p) p.

(** [setTimeout(cb, delay)]: the queue is kept in order of expiry, a later
    registration after the earlier ones of the same expiry. *)
Fixpoint enqueue (e : nat * Callback) (ts : list (nat * Callback)) : list (nat * Callback) :=
  match ts with
  | [] => [e]
  | t :: rest => if (fst t <=? fst e)%nat then t :: enqueue e rest else e :: t :: rest
  end.

Definition setTimeout (cb : Callback) (delay : nat) (p : Page) : Page :=
  set_timers (enqueue (now p + delay, cb) (timers p)) p.

(** ** Notifications (utils.js) *)

Import JsString.

Definition nl : string := String (ascii_of_nat 10) EmptyString.

Fixpoint spaces (n : nat) : string :=
  match n with
  | O => EmptyString
  | S k => String " " (spaces k)
  end.

(** The template literal of [showNotification], lines 15-20: the message is
    interpolated as it is. *)
Definition notification_html (message : string) : string :=
  nl ++ spaces 12 ++ "<div class=" ++ dq ++ "notification-content" ++ dq ++ ">" ++
  nl ++ spaces 16 ++ "<span class=" ++ dq ++ "notification-message" ++ dq ++ ">" ++
    message ++ "</span>" ++
  nl ++ spaces 16 ++ "<button class=" ++ dq ++ "notification-close" ++ dq ++
    " onclick=" ++ dq ++ "this.parentElement.parentElement.remove()" ++ dq ++
    ">&times;</button>" ++
  nl ++ spaces 12 ++ "</div>" ++
  nl ++ spaces 8.

(** The node of lines 13-20: a [div] with its class and its markup. *)
Definition notification_node (message type : string) : Notification :=
  {| n_className := "notification " ++ type; n_innerHTML := notification_html message |}.

(** [Utils.showNotification(message, type)]: the node is appended to the
    body and a 5000 ms timeout is set for [AutoClose]. *)
Definition showNotification (message type : string) (p : Page) : Page :=
  let id := next_id p in
  let notification := notification_node message type in
  let p := set_next_id (S id) p in
  let p := set_notifications (fun children => (children ++ [(id, notification)])%list) p in
  setTimeout (AutoClose id) 5000 p.

(** The timeout's closure, lines 25-29. *)
Definition auto_close (id : nat) (p : Page) : Page :=
  if notification_attached id p then remove_notification id p else p.

(** ** Toasts (frontend.js)

    [bootstrap.Toast] is the page's third-party component; its code is not
    part of the scripts.  [showToast] creates it on the node with a [delay] of
    3000 ms, calls [show()] and listens for [hidden.bs.toast].  When that
    event is dispatched is the component's business: it runs its own timer
    and transitions, waits while the pointer or the focus is on the toast, and
    answers the [data-bs-dismiss] button.  The scripts set no timer for a
    toast, and in the model the event comes from the environment
    ([ToastHidden] below). *)

Definition toast_html (emoji message : string) : string :=
  nl ++ spaces 8 ++ "<div class=" ++ dq ++ "d-flex" ++ dq ++ ">" ++
  nl ++ spaces 12 ++ "<div class=" ++ dq ++ "toast-body d-flex align-items-center" ++ dq ++ ">" ++
  nl ++ spaces 16 ++ "<span class=" ++ dq ++ "me-2" ++ dq ++ ">" ++ emoji ++ "</span>" ++
  nl ++ spaces 16 ++ message ++
  nl ++ spaces 12 ++ "</div>" ++
  nl ++ spaces 12 ++ "<button type=" ++ dq ++ "button" ++ dq ++
    " class=" ++ dq ++ "btn-close btn-close-white me-2 m-auto" ++ dq ++
    " data-bs-dismiss=" ++ dq ++ "toast" ++ dq ++ "></button>" ++
  nl ++ spaces 8 ++ "</div>" ++
  nl ++ spaces 4.

(** [createToastContainer()]. *)
Definition createToastContainer (p : Page) : Page := set_toast_container (Some []) p.

Definition toast_colour (type : string) : string :=
  if String.eqb type "success" then "success"
  else if String.eqb type "error" then "danger" else "info".

Definition toast_emoji (type : string) : string :=
  if String.eqb type "success" then "✅"
  else if String.eqb type "error" then "❌" else "ℹ️".

(** The node of lines 191-206, and the [delay] given to [bootstrap.Toast] on
    line 209. *)
Definition toast_node (message type : string) : Toast :=
  {| t_className := "toast align-items-center text-white bg-" ++ toast_colour type ++ " border-0";
     t_role := "alert";
     t_cssText := "min-width: 250px;";
     t_innerHTML := toast_html (toast_emoji type) message;
     t_delay := 3000 |}.

(** [showToast(message, type)]: the node goes into the container, the
    component is created on it and shown, and the listener is registered. *)
Definition showToast (message type : string) (p : Page) : Page :=
  let p := match toast_container p with
           | Some _ => p
           | None => createToastContainer p
           end in
  let id := next_id p in
  let toast := toast_node message type in
  let p := set_next_id (S id) p in
  set_toast_container (Some (toasts p ++ [(id, toast)])%list) p.

(** The listener of lines 213-215, run when the component dispatches
    [hidden.bs.toast] on toast [id]. *)
Definition toast_hidden (id : nat) (p : Page) : Page := remove_toast id p.

(** ** The cart counter (frontend.js) *)

(** The white space of the language ([WhiteSpace] and [LineTerminator], what
    [trim], [parseInt] and the class [\s] take) in a string that holds the
    bytes of UTF-8 text.  In one byte: the tab, the line feed, the vertical
    tab, the form feed, the carriage return and the space. *)
Definition is_space (c : ascii) : bool :=
  let n := nat_of_ascii c in
  ((9 <=? n)%nat && (n <=? 13)%nat) || (n =? 32)%nat.

(** The number of bytes of the white-space character a string starts with,
    0 when it starts with none.  In two and three bytes: U+00A0 (C2 A0),
    U+1680 (E1 9A 80), U+2000 to U+200A, U+2028, U+2029 and U+202F (E2 80
    ..), U+205F (E2 81 9F), U+3000 (E3 80 80) and U+FEFF (EF BB BF). *)
Definition space_width (s : string) : nat :=
  match s with
  | EmptyString => 0
  | String c1 s1 =>
      let b1 := nat_of_ascii c1 in
      if is_space c1 then 1
      else if (b1 =? 194)%nat then
        match s1 with
        | String c2 _ => if (nat_of_ascii c2 =? 160)%nat then 2 else 0
        | EmptyString => 0
        end
      else if (b1 =? 225)%nat || (b1 =? 226)%nat || (b1 =? 227)%nat || (b1 =? 239)%nat then
        match s1 with
        | String c2 (String c3 _) =>
            let b2 := nat_of_ascii c2 in
            let b3 := nat_of_ascii c3 in
            if ((b1 =? 225) && (b2 =? 154) && (b3 =? 128))%nat
               || ((b1 =? 226) && (b2 =? 128)
                   && (((128 <=? b3) && (b3 <=? 138)) || (b3 =? 168) || (b3 =? 169)
                       || (b3 =? 175)))%nat
               || ((b1 =? 226) && (b2 =? 129) && (b3 =? 159))%nat
               || ((b1 =? 227) && (b2 =? 128) && (b3 =? 128))%nat
               || ((b1 =? 239) && (b2 =? 187) && (b3 =? 191))%nat
            then 3 else 0
        | _ => 0
        end
      else 0
  end.

Fixpoint drop_bytes (n : nat) (s : string) : string :=
  match n, s with
  | S k, String _ s' => drop_bytes k s'
  | _, _ => s
  end.

(** The string after its leading white space; [fuel] bounds the number of
    characters skipped, and the length of the string is enough. *)
Fixpoint skip_spaces_from (fuel : nat) (s : string) : string :=
  match fuel with
  | O => s
  | S k =>
      match space_width s with
      | O => s
      | S w => skip_spaces_from k (drop_bytes (S w) s)
      end
  end.

Definition skip_spaces (s : string) : string := skip_spaces_from (String.length s) s.

(** The value of a digit in base 16 or less. *)
Definition digit_value (c : ascii) : option nat :=
  let n := nat_of_ascii c in
  if (48 <=? n)%nat && (n <=? 57)%nat then Some (n - 48)
  else if (97 <=? n)%nat && (n <=? 102)%nat then Some (n - 87)
  else if (65 <=? n)%nat && (n <=? 70)%nat then Some (n - 55)
  else None.

(** The longest prefix of digits of the radix, read as a number; [acc] is
    [None] until a digit has been read. *)
Fixpoint digits_prefix (radix : nat) (s : string) (acc : option Z) : option Z :=
  match s with
  | EmptyString => acc
  | String c s' =>
      match digit_value c with
      | Some d =>
          if (d <? radix)%nat
          then digits_prefix radix s' (Some (default 0 acc * Z.of_nat radix + Z.of_nat d)%Z)
          else acc
      | None => acc
      end
  end.

(** [parseInt(s)]: leading white space, a sign, a [0x] prefix, then digits;
    [None] is NaN. *)
Definition parseInt (s : string) : option Z :=
  let s := skip_spaces s in
  let '(negative, s) :=
    match s with
    | String "-" r => (true, r)
    | String "+" r => (false, r)
    | _ => (false, s)
    end in
  let '(radix, s) :=
    match s with
    | String "0" (String "x" r) | String "0" (String "X" r) => (16, r)
    | _ => (10, s)
    end in
  (fun n => if negative then (- n)%Z else n) <$> digits_prefix radix s None.

(** [updateCartCounter()], lines 172-185: [parseInt(text) || 0], one more,
    written back; the scale animation resets after 200 ms.  The count is the
    program's while it stays within the integers a double holds one by one. *)
Definition updateCartCounter (p : Page) : Page :=
  match cart_counter p with
  | Some cartCounter =>
      let count := default 0%Z (parseInt (c_textContent cartCounter)) in
      let count := (count + 1)%Z in
      let p := set_cart_counter
                 (Some {| c_textContent := pretty count; c_transform := "scale(1.3)" |}) p in
      setTimeout ScaleBack 200 p
  | None => p
  end.

Definition scale_back (p : Page) : Page :=
  match cart_counter p with
  | Some cartCounter =>
      set_cart_counter
        (Some {| c_textContent := c_textContent cartCounter; c_transform := "scale(1)" |}) p
  | None => p
  end.

(** ** What the browser makes of [innerHTML]

    A model of the platform's HTML fragment parser on the markup the
    templates use: character data, start and end tags with attributes, and a
    few named character references.  Input that needs the parser's error
    recovery, or a construct that is not modelled (comments, self-closing
    syntax, numeric references, elements with a content model of their own),
    has no result ([None]). *)

Module Html.

Inductive Token : Type :=
| Chars (s : string)
| StartTag (name : string) (attrs : list (string * string))
| EndTag (name : string).

Inductive Mode : Type :=
| Data
| TagOpen
| EndTagOpen
| TagName (tag : string)
| EndTagName (tag : string)
| BeforeAttr (tag : string) (attrs : list (string * string))
| AttrName (tag : string) (attrs : list (string * string)) (name : string)
| AfterAttrName (tag : string) (attrs : list (string * string)) (name : string)
| BeforeValue (tag : string) (attrs : list (string * string)) (name : string)
| ValueQuoted (q : ascii) (tag : string) (attrs : list (string * string)) (name value : string)
| ValueUnquoted (tag : string) (attrs : list (string * string)) (name value : string)
| AfterValue (tag : string) (attrs : list (string * string))
| CharRef (name : string).

(** The tokenizer: its mode, the character data not yet emitted, and the
    tokens emitted so far. *)
Record Tokenizer : Type := {
  mode : Mode;
  pending : string;
  emitted : list Token
}.

Definition is_letter (c : ascii) : bool :=
  let n := nat_of_ascii c in
  ((97 <=? n)%nat && (n <=? 122)%nat) || ((65 <=? n)%nat && (n <=? 90)%nat).

Definition is_digit (c : ascii) : bool :=
  let n := nat_of_ascii c in (48 <=? n)%nat && (n <=? 57)%nat.

Definition lower_ascii (c : ascii) : ascii :=
  let n := nat_of_ascii c in
  if (65 <=? n)%nat && (n <=? 90)%nat then ascii_of_nat (n + 32) else c.

Definition is_char (n : nat) (c : ascii) : bool := (nat_of_ascii c =? n)%nat.

(** Tab, line feed, form feed, space. *)
Definition is_blank (c : ascii) : bool :=
  is_char 9 c || is_char 10 c || is_char 12 c || is_char 32 c.

Definition snoc (s : string) (c : ascii) : string := s ++ String c EmptyString.

(** The pending character data goes out as one token, if there is any. *)
Definition flush (t : Tokenizer) : list Token :=
  match pending t with
  | EmptyString => emitted t
  | text => (emitted t ++ [Chars text])%list
  end.

Definition emit_tag (tok : Token) (t : Tokenizer) : Tokenizer :=
  {| mode := Data; pending := EmptyString; emitted := (emitted t ++ [tok])%list |}.

Definition goto (m : Mode) (t : Tokenizer) : Tokenizer :=
  {| mode := m; pending := pending t; emitted := emitted t |}.

(** The named references that are decoded. *)
Definition reference (name : string) : option string :=
  if String.eqb name "amp" then Some "&"
  else if String.eqb name "lt" then Some "<"
  else if String.eqb name "gt" then Some ">"
  else if String.eqb name "quot" then Some dq
  else if String.eqb name "times" then Some "×"
  else None.

(** One character in the data state.  A carriage return or a NUL, which the
    parser rewrites, is not modelled. *)
Definition data_char (t : Tokenizer) (c : ascii) : option Tokenizer :=
  if is_char 60 c then Some (goto TagOpen t)
  else if is_char 38 c then Some (goto (CharRef EmptyString) t)
  else if is_char 13 c || is_char 0 c then None
  else Some {| mode := Data; pending := snoc (pending t) c; emitted := emitted t |}.

Definition with_text (text : string) (t : Tokenizer) : Tokenizer :=
  {| mode := Data; pending := pending t ++ text; emitted := emitted t |}.

Definition next (t : Tokenizer) (c : ascii) : option Tokenizer :=
  match mode t with
  | Data => data_char t c
  | TagOpen =>
      if is_letter c then
        Some {| mode := TagName (String (lower_ascii c) EmptyString);
                pending := EmptyString; emitted := flush t |}
      else if is_char 47 c then Some (goto EndTagOpen t)
      else if is_char 33 c || is_char 63 c then None
      else data_char (with_text "<" t) c
  | EndTagOpen =>
      if is_letter c then
        Some {| mode := EndTagName (String (lower_ascii c) EmptyString);
                pending := EmptyString; emitted := flush t |}
      else None
  | TagName tag =>
      if is_char 62 c then Some (emit_tag (StartTag tag []) t)
      else if is_blank c then Some (goto (BeforeAttr tag []) t)
      else if is_letter c || is_digit c then Some (goto (TagName (snoc tag (lower_ascii c))) t)
      else None
  | EndTagName tag =>
      if is_char 62 c then Some (emit_tag (EndTag tag) t)
      else if is_letter c || is_digit c then Some (goto (EndTagName (snoc tag (lower_ascii c))) t)
      else None
  | BeforeAttr tag attrs =>
      if is_char 62 c then Some (emit_tag (StartTag tag attrs) t)
      else if is_blank c then Some t
      else if is_letter c then
        Some (goto (AttrName tag attrs (String (lower_ascii c) EmptyString)) t)
      else None
  | AttrName tag attrs name =>
      if is_char 62 c then Some (emit_tag (StartTag tag (attrs ++ [(name, EmptyString)])%list) t)
      else if is_char 61 c then Some (goto (BeforeValue tag attrs name) t)
      else if is_blank c then Some (goto (AfterAttrName tag attrs name) t)
      else if is_letter c || is_digit c || is_char 45 c then
        Some (goto (AttrName tag attrs (snoc name (lower_ascii c))) t)
      else None
  | AfterAttrName tag attrs name =>
      if is_char 62 c then Some (emit_tag (StartTag tag (attrs ++ [(name, EmptyString)])%list) t)
      else if is_char 61 c then Some (goto (BeforeValue tag attrs name) t)
      else if is_blank c then Some t
      else if is_letter c then
        Some (goto (AttrName tag (attrs ++ [(name, EmptyString)])%list
                      (String (lower_ascii c) EmptyString)) t)
      else None
  | BeforeValue tag attrs name =>
      if is_blank c then Some t
      else if is_char 34 c || is_char 39 c then
        Some (goto (ValueQuoted c tag attrs name EmptyString) t)
      else if is_letter c || is_digit c then
        Some (goto (ValueUnquoted tag attrs name (String c EmptyString)) t)
      else None
  | ValueQuoted q tag attrs name value =>
      if Ascii.eqb c q then Some (goto (AfterValue tag (attrs ++ [(name, value)])%list) t)
      else if is_char 38 c || is_char 13 c || is_char 0 c then None
      else Some (goto (ValueQuoted q tag attrs name (snoc value c)) t)
  | ValueUnquoted tag attrs name value =>
      if is_char 62 c then Some (emit_tag (StartTag tag (attrs ++ [(name, value)])%list) t)
      else if is_blank c then Some (goto (BeforeAttr tag (attrs ++ [(name, value)])%list) t)
      else if is_char 38 c || is_char 34 c || is_char 39 c || is_char 60 c || is_char 61 c
              || is_char 96 c || is_char 13 c || is_char 0 c then None
      else Some (goto (ValueUnquoted tag attrs name (snoc value c)) t)
  | AfterValue tag attrs =>
      if is_char 62 c then Some (emit_tag (StartTag tag attrs) t)
      else if is_blank c then Some (goto (BeforeAttr tag attrs) t)
      else None
  | CharRef name =>
      if is_char 59 c then
        match reference name with
        | Some text => Some (with_text text t)
        | None => None
        end
      else if is_letter c || is_digit c then Some (goto (CharRef (snoc name c)) t)
      else match name with
           | EmptyString => if is_char 35 c then None else data_char (with_text "&" t) c
           | _ => None
           end
  end.

Fixpoint feed (t : option Tokenizer) (s : string) : option Tokenizer :=
  match s with
  | EmptyString => t
  | String c s' => feed (t ≫= fun t => next t c) s'
  end.

(** The end of the input. *)
Definition finish (t : Tokenizer) : option (list Token) :=
  match mode t with
  | Data => Some (flush t)
  | TagOpen => Some (flush (with_text "<" t))
  | CharRef EmptyString => Some (flush (with_text "&" t))
  | _ => None
  end.

Definition tokenize (s : string) : option (list Token) :=
  feed (Some {| mode := Data; pending := EmptyString; emitted := [] |}) s ≫= finish.

(** The tree. *)
Inductive Node : Type :=
| Text (s : string)
| Element (name : string) (attrs : list (string * string)) (children : list Node).

(** Elements without content, and the elements with the ordinary content
    model that are built; no other element is modelled. *)
Definition void (name : string) : bool :=
  String.eqb name "img" || String.eqb name "br".

Definition ordinary (name : string) : bool :=
  existsb (String.eqb name) ["div"; "span"; "button"; "b"; "i"; "em"; "strong"; "u"].

(** An element that is open: its name, attributes and the children it has
    so far. *)
Definition Frame : Type := (string * list (string * string) * list Node)%type.

(** A node becomes the last child of the innermost open element, or of the
    fragment. *)
Definition add_child (n : Node) (stack : list Frame) (top : list Node)
    : list Frame * list Node :=
  match stack with
  | (name, attrs, children) :: outer => ((name, attrs, children ++ [n])%list :: outer, top)
  | [] => ([], (top ++ [n])%list)
  end.

Definition is_open (name : string) (stack : list Frame) : bool :=
  existsb (fun f => String.eqb name (fst (fst f))) stack.

(** Tree construction for tags that nest properly: an end tag closes the
    innermost open element; a [button] inside a [button], a stray end tag or
    an element left open needs the recovery that is not modelled. *)
Fixpoint build (tokens : list Token) (stack : list Frame) (top : list Node)
    : option (list Node) :=
  match tokens with
  | [] => match stack with [] => Some top | _ :: _ => None end
  | Chars s :: rest =>
      let '(stack, top) := add_child (Text s) stack top in build rest stack top
  | StartTag name attrs :: rest =>
      if void name then
        let '(stack, top) := add_child (Element name attrs []) stack top in build rest stack top
      else if ordinary name && negb (String.eqb name "button" && is_open "button" stack) then
        build rest ((name, attrs, []) :: stack) top
      else None
  | EndTag name :: rest =>
      match stack with
      | (name', attrs, children) :: outer =>
          if String.eqb name name' then
            let '(stack, top) := add_child (Element name attrs children) outer top in
            build rest stack top
          else None
      | [] => None
      end
  end.

(** The children of a node whose [innerHTML] is set to [s]. *)
Definition parse (s : string) : option (list Node) :=
  tokenize s ≫= fun tokens => build tokens [] [].

(** [node.textContent]. *)
Fixpoint textContent (n : Node) : string :=
  match n with
  | Text s => s
  | Element _ _ children =>
      (fix all (l : list Node) : string :=
         match l with
         | [] => EmptyString
         | x :: rest => textContent x ++ all rest
         end) children
  end.

Definition has_class (cls : string) (attrs : list (string * string)) : bool :=
  match List.find (fun a => String.eqb (fst a) "class") attrs with
  | Some (_, value) => existsb (String.eqb cls) (split " " value)
  | None => false
  end.

(** [querySelector('.cls')] below a list of nodes: the first element of the
    class in document order. *)
Fixpoint query_class (cls : string) (n : Node) : option Node :=
  match n with
  | Text _ => None
  | Element _ attrs children =>
      if has_class cls attrs then Some n
      else (fix first (l : list Node) : option Node :=
              match l with
              | [] => None
              | x :: rest =>
                  match query_class cls x with
                  | Some found => Some found
                  | None => first rest
                  end
              end) children
  end.

Fixpoint query_class_in (cls : string) (nodes : list Node) : option Node :=
  match nodes with
  | [] => None
  | x :: rest =>
      match query_class cls x with
      | Some found => Some found
      | None => query_class_in cls rest
      end
  end.

(** The text of the first element of class [cls] in the parsed markup. *)
Definition text_of_class (cls : string) (html : string) : option string :=
  parse html ≫= fun nodes => textContent <$> query_class_in cls nodes.

(** How deep the elements of class [cls] are, in document order; [d] is the
    depth of the node itself. *)
Fixpoint depths_of (cls : string) (d : nat) (n : Node) : list nat :=
  match n with
  | Text _ => []
  | Element _ attrs children =>
      ((if has_class cls attrs then [d] else []) ++
       (fix all (l : list Node) : list nat :=
          match l with
          | [] => []
          | x :: rest => depths_of cls (S d) x ++ all rest
          end) children)%list
  end.

(** The same below a node whose children are [nodes]: a child is at depth 1. *)
Definition depths_in (cls : string) (nodes : list Node) : list nat :=
  flat_map (depths_of cls 1) nodes.

End Html.

(** The text a notification shows for its message: the text of its
    [.notification-message] span. *)
Definition notification_text (n : Notification) : option string :=
  Html.text_of_class "notification-message" (n_innerHTML n).

(** The text a toast shows: the text of its [.toast-body]. *)
Definition toast_text (t : Toast) : option string :=
  Html.text_of_class "toast-body" (t_innerHTML t).

(** How deep the close button of the template is below the notification: the
    last [.notification-close] element of the markup, the message coming
    before it. *)
Definition close_button_depth (n : Notification) : option nat :=
  Html.parse (n_innerHTML n) ≫= fun nodes => last (Html.depths_in "notification-close" nodes).

(** A click on the close button of notification [id].  Its handler is
    [this.parentElement.parentElement.remove()]: with the button two levels
    below the notification, where the template puts it, the node removed is
    the notification.  There is no result where the model has no such click:
    the notification is not in the page, its markup needs the parser's
    recovery, or the message has moved the button, whose grandparent is then
    another node. *)
Definition click_close (id : nat) (p : Page) : option Page :=
  match List.find (fun e => Nat.eqb id (fst e)) (notifications p) with
  | Some (_, n) =>
      match close_button_depth n with
      | Some 2 => Some (remove_notification id p)
      | _ => None
      end
  | None => None
  end.

(** ** The request dispatcher (utils.js) *)

(** [Utils.getCsrfToken()], lines 33-49: the first [csrftoken=] row of the
    cookie string, cut at its [=] signs, second piece; else the hidden
    field's value; else [null] ([None]). *)
Definition getCsrfToken (p : Page) : option string :=
  match List.find (startsWith "csrftoken=") (split "; " (cookie p)) with
  | Some cookieValue => nth_error (split "=" cookieValue) 1
  | None =>
      match csrf_field p with
      | Some value => Some value
      | None => None
      end
  end.

(** The options object of a call: a key that is absent is [None]. *)
Record Options : Type := {
  method : option string;
  headers : option (gmap string string);
  body : option string
}.

(** [{ ...a, ...b }]: every key of [b] replaces the key of [a], whole. *)
Definition spread (a b : Options) : Options :=
  {| method := match method b with Some m => Some m | None => method a end;
     headers := match headers b with Some h => Some h | None => headers a end;
     body := match body b with Some x => Some x | None => body a end |}.

Definition defaultOptions : Options :=
  {| method := Some "GET";
     headers := Some {[ "X-Requested-With" := "XMLHttpRequest" ]};
     body := None |}.

(** What is handed to [fetch]. *)
Record Request : Type := {
  r_url : string;
  r_options : Options
}.

(** The header [name] of a request, if it carries one. *)
Definition request_header (name : string) (r : Request) : option string :=
  headers (r_options r) ≫= (.!! name).

Inductive Error : Type :=
| HttpError (status : nat)   (* new Error(`HTTP error! status: ${status}`) *)
| SyntaxError                (* response.json() on a body that is not JSON *)
| NetworkError               (* fetch() rejected *)
| TypeError                  (* a property of null or undefined *)
| Raised (what : string).    (* thrown by a caller's callback *)

(** How a promise settles, and how a handler completes (returns, throws). *)
Inductive Outcome (A : Type) : Type :=
| Fulfilled (a : A)
| Rejected (e : Error).
Arguments Fulfilled {A} a.
Arguments Rejected {A} e.

(** The synchronous part of [Utils.ajax(url, options)], lines 52-70, up to
    the call of [fetch]: the request that is dispatched, or the TypeError of
    a missing [method] or [headers] (neither occurs, see [ajax_request_total]). *)
Definition ajax_request (p : Page) (url : string) (options : Options) : Outcome Request :=
  let finalOptions := spread defaultOptions options in
  match method finalOptions with
  | None => Rejected TypeError
  | Some m =>
      if String.eqb (toUpperCase m) "POST" then
        match getCsrfToken p with
        | Some csrfToken =>
            if negb (String.eqb csrfToken EmptyString) then
              match headers finalOptions with
              | Some h =>
                  Fulfilled
                    {| r_url := url;
                       r_options :=
                         {| method := method finalOptions;
                            headers := Some (<["X-CSRFToken" := csrfToken]> h);
                            body := body finalOptions |} |}
              | None => Rejected TypeError
              end
            else Fulfilled {| r_url := url; r_options := finalOptions |}
        | None => Fulfilled {| r_url := url; r_options := finalOptions |}
        end
      else Fulfilled {| r_url := url; r_options := finalOptions |}
  end.

(** The response of the server: the status and the parsed body, [None] for a
    body that is not valid JSON. *)
Record Response : Type := {
  status : nat;
  json : option JSValue
}.

(** [response.ok]: a status from 200 to 299. *)
Definition ok (r : Response) : bool := (200 <=? status r)%nat && (status r <=? 299)%nat.

(** How the [fetch] promise settles. *)
Inductive FetchOutcome : Type :=
| Failed (e : Error)
| Responded (r : Response).

(** A promise whose handlers act on the page. *)
Definition Async (A : Type) : Type := Page -> Page * Outcome A.

Definition settled {A : Type} (o : Outcome A) : Async A := fun p => (p, o).

(** [promise.then(f)]. *)
Definition then_ {A B : Type} (m : Async A) (f : A -> Async B) : Async B :=
  fun p =>
    match m p with
    | (p', Fulfilled a) => f a p'
    | (p', Rejected e) => (p', Rejected e)
    end.

(** [promise.catch(g)]. *)
Definition catch_ {A : Type} (m : Async A) (g : Error -> Async A) : Async A :=
  fun p =>
    match m p with
    | (p', Fulfilled a) => (p', Fulfilled a)
    | (p', Rejected e) => g e p'
    end.

Definition fetch (o : FetchOutcome) : Async Response :=
  settled match o with
          | Failed e => Rejected e
          | Responded r => Fulfilled r
          end.

(** The promise chain of [Utils.ajax], lines 70-80, once [fetch] settles. *)
Definition ajax_settle (o : FetchOutcome) : Async JSValue :=
  catch_
    (then_ (fetch o) (fun response =>
       if negb (ok response) then settled (Rejected (HttpError (status response)))
       else settled match json response with
                    | Some v => Fulfilled v
                    | None => Rejected SyntaxError
                    end))
    (fun error p => (showNotification "请求失败，请重试" "error" p, Rejected error)).

(** ** The cart (utils.js) *)

Section Cart.

(** Whether the number a string converts to is greater than zero: the
    platform's string-to-number conversion, left open. *)
Variable string_gt_zero : string -> bool.

(** [count > 0]. *)
Definition js_gt_zero (count : JSValue) : bool :=
  match count with
  | JUndefined | JNull | JObj _ => false
  | JBool b => b
  | JNum n => (0 <? n)%Z
  | JStr s => string_gt_zero s
  | JArr _ => string_gt_zero (js_to_string count)
  end.

(** [node.textContent = v]: [null] and [undefined] give the empty text. *)
Definition text_of (v : JSValue) : string :=
  match v with
  | JUndefined | JNull => EmptyString
  | _ => js_to_string v
  end.

(** [Utils.updateCartBadge(count)], lines 131-137. *)
Definition updateCartBadge (count : JSValue) (p : Page) : Page :=
  match cart_badge p with
  | Some cartBadge =>
      set_cart_badge
        (Some {| b_textContent := text_of count;
                 b_display := if js_gt_zero count then "inline" else "none" |}) p
  | None => p
  end.

(** The [callback] argument of [addToCart], called with one value. *)
Definition Callback1 : Type := JSValue -> Page -> Page * Outcome unit.

(** [if (callback) callback(v)]. *)
Definition call (callback : option Callback1) (v : JSValue) : Async unit :=
  match callback with
  | Some f => f v
  | None => settled (Fulfilled tt)
  end.

(** [JSON.stringify({ quantity: quantity })] for an integer quantity. *)
Definition quantity_json (quantity : Z) : string :=
  "{" ++ dq ++ "quantity" ++ dq ++ ":" ++ pretty quantity ++ "}".

(** The request of [Utils.addToCart(productId, quantity, callback)], lines
    141-146; [quantity] defaults to 1. *)
Definition addToCart_request (p : Page) (productId : JSValue) (quantity : option Z)
    : Outcome Request :=
  ajax_request p ("/products/cart/add/" ++ js_to_string productId ++ "/")
    {| method := Some "POST";
       headers := Some {[ "Content-Type" := "application/json" ]};
       body := Some (quantity_json (default 1%Z quantity)) |}.

(** The promise chain of [Utils.addToCart], lines 147-160.  Reading
    [response.success] of a nullish response throws. *)
Definition addToCart_settle (callback : option Callback1) (o : FetchOutcome) : Async JSValue :=
  catch_
    (then_ (ajax_settle o) (fun response p =>
       if js_nullish response then (p, Rejected TypeError)
       else
         let p :=
           if js_truthy (js_prop "success" response) then
             let p := updateCartBadge (js_prop "cart_count" response) p in
             showNotification "商品已添加到购物车" "success" p
           else
             showNotification
               (js_to_string (js_or (js_prop "error" response) (JStr "添加失败"))) "error" p in
         then_ (call callback (js_prop "success" response))
               (fun _ => settled (Fulfilled response)) p))
    (fun error p =>
       let p := showNotification "添加失败，请重试" "error" p in
       then_ (call callback (JBool false)) (fun _ => settled (Rejected error)) p).

(** [Utils.addToCart] against a network that answers each request. *)
Definition addToCart (network : Request -> FetchOutcome) (productId : JSValue)
    (quantity : option Z) (callback : option Callback1) (p : Page) : Page * Outcome JSValue :=
  match addToCart_request p productId quantity with
  | Fulfilled request => addToCart_settle callback (network request) p
  | Rejected e => (p, Rejected e)
  end.


(** ** The event loop

    What can happen to a page, one task at a time.  A click that the model
    has no result for is not an event of a run: the page stays as it is. *)

Definition run_callback (cb : Callback) (p : Page) : Page :=
  match cb with
  | AutoClose id => auto_close id p
  | ScaleBack => scale_back p
  end.

(** A timer fires: the clock is at its expiry time, its callback runs. *)
Definition fire (p : Page) (t : nat * Callback) : Page :=
  run_callback (snd t) (set_now (fst t) p).

(** [dt] milliseconds pass: the timers that expire in the interval fire, in
    the order of the queue; the others stay. *)
Definition advance (dt : nat) (p : Page) : Page :=
  let t := now p + dt in
  let due := List.filter (fun e => (fst e <=? t)%nat) (timers p) in
  let later := List.filter (fun e => negb (fst e <=? t)%nat) (timers p) in
  set_now t (fold_left fire due (set_timers later p)).

Inductive Action : Type :=
| Notify (message type : string)   (* a call of Utils.showNotification *)
| Toast_ (message type : string)   (* a call of showToast *)
| ClickClose (id : nat)            (* the user clicks the close button of a notification *)
| ToastHidden (id : nat)           (* the Bootstrap component dispatches hidden.bs.toast *)
| Wait (dt : nat)                  (* time passes *)
| AjaxSettled (o : FetchOutcome)   (* the round trip of a Utils.ajax call completes *)
| CartSettled (o : FetchOutcome)   (* the same for Utils.addToCart, called without a callback *)
| CounterBump.                     (* a call of updateCartCounter *)

Definition step (p : Page) (a : Action) : Page :=
  match a with
  | Notify message type => showNotification message type p
  | Toast_ message type => showToast message type p
  | ClickClose id => default p (click_close id p)
  | ToastHidden id => toast_hidden id p
  | Wait dt => advance dt p
  | AjaxSettled o => fst (ajax_settle o p)
  | CartSettled o => fst (addToCart_settle None o p)
  | CounterBump => updateCartCounter p
  end.

Definition run (actions : list Action) (p : Page) : Page := fold_left step actions p.

(** The time that passes in a run. *)
Definition elapsed (actions : list Action) : nat :=
  list_sum (map (fun a => match a with Wait dt => dt | _ => 0 end) actions).

End Cart.

(** ** Debouncing (frontend.js 317-327, and the same function in the admin
    script, 344-354)

    The closure that [debounce(func, wait)] returns keeps one timer.  Its
    state here is that timer, when one is pending, with the arguments its
    [later] callback captured, beside a clock and the calls of [func] made so
    far. *)

Module Debounce.
Section Debounce.

Context {A : Type}.
Variable wait : nat.

Record State : Type := {
  clock : nat;
  timeout : option (nat * A);   (* the pending timer: expiry, captured arguments *)
  invoked : list (nat * A)      (* the calls of [func]: time, arguments; oldest first *)
}.

Definition fresh : State := {| clock := 0; timeout := None; invoked := [] |}.

(** [executedFunction(...args)]: [clearTimeout(timeout)], then
    [timeout = setTimeout(later, wait)]. *)
Definition executedFunction (args : A) (st : State) : State :=
  {| clock := clock st; timeout := Some (clock st + wait, args); invoked := invoked st |}.

(** [later()], when the timer expires: [clearTimeout(timeout)] on the timer
    that has just fired, then [func(...args)]. *)
Definition later (due : nat) (args : A) (st : State) : State :=
  {| clock := due; timeout := None; invoked := (invoked st ++ [(due, args)])%list |}.

(** [dt] milliseconds pass: the timer fires if it expires in the interval. *)
Definition pass (dt : nat) (st : State) : State :=
  let t := clock st + dt in
  let st :=
    match timeout st with
    | Some (due, args) => if (due <=? t)%nat then later due args st else st
    | None => st
    end in
  {| clock := t; timeout := timeout st; invoked := invoked st |}.

Inductive Event : Type :=
| Call (args : A)   (* the debounced function is called *)
| Idle (dt : nat).  (* time passes *)

Definition step (st : State) (e : Event) : State :=
  match e with
  | Call args => executedFunction args st
  | Idle dt => pass dt st
  end.

Definition run (events : list Event) (st : State) : State := fold_left step events st.

End Debounce.
End Debounce.

(** ** Text helpers of the admin script *)

Module JsText.

(** [s.trimEnd()]: the white space at the end goes.  A string that is white
    space from some byte on ends there. *)
Fixpoint trimEnd (s : string) : string :=
  match s with
  | EmptyString => EmptyString
  | String c s' =>
      if String.eqb (skip_spaces s) EmptyString then EmptyString
      else String c (trimEnd s')
  end.

(** [s.trim()] *)
Definition trim (s : string) : string := trimEnd (skip_spaces s).

(** The first [n] bytes of a string. *)
Fixpoint take_bytes (n : nat) (s : string) : string :=
  match n, s with
  | S k, String c s' => String c (take_bytes k s')
  | _, _ => EmptyString
  end.

(** A string cut into the pieces a pattern steps over: a white-space
    character is one piece, whatever its length in bytes, and every other
    byte is one piece.  A class that tells white space from the rest sees in
    the pieces what it sees in the code units of the string. *)
Fixpoint units_from (fuel : nat) (s : string) : list string :=
  match fuel with
  | O => []
  | S k =>
      match s with
      | EmptyString => []
      | String c s' =>
          match space_width s with
          | O => String c EmptyString :: units_from k s'
          | S w => take_bytes (S w) s :: units_from k (drop_bytes (S w) s)
          end
      end
  end.

Definition units (s : string) : list string := units_from (String.length s) s.

End JsText.

(** ** Sorting a table (the admin script, 76-106)

    A click on a [.sortable] header sorts the rows of the table body on the
    trimmed text of the header's column.  [localeCompare] is the platform's;
    the sort is the stable one that [Array.prototype.sort] is. *)

Module Table.
Section Table.

Variable localeCompare : string -> string -> Z.

(** A [.sortable] header: its [cellIndex] and its class list. *)
Record Sortable : Type := {
  cellIndex : nat;
  classList : gset string
}.

(** A row: the text of its cells. *)
Definition Row : Type := list string.

Record State : Type := {
  sortable : list Sortable;   (* document.querySelectorAll('.sortable') *)
  rows : list Row             (* the rows of the table body, in order *)
}.

(** The comparator of lines 88-97 on the two trimmed texts. *)
Definition compare (isAscending : bool) (aVal bVal : string) : Z :=
  if isAscending then localeCompare aVal bVal else localeCompare bVal aVal.

(** A stable sort: an element goes before the first one it does not have to
    follow. *)
Fixpoint insert (isAscending : bool) (x : string * Row) (l : list (string * Row))
    : list (string * Row) :=
  match l with
  | [] => [x]
  | y :: l' =>
      if (compare isAscending (fst x) (fst y) <=? 0)%Z then x :: l
      else y :: insert isAscending x l'
  end.

Fixpoint sort (isAscending : bool) (l : list (string * Row)) : list (string * Row) :=
  match l with
  | [] => []
  | x :: l' => insert isAscending x (sort isAscending l')
  end.

(** [row.cells[column].textContent.trim()] for every row; [None] is the
    TypeError of a row without that cell. *)
Fixpoint keyed (column : nat) (l : list Row) : option (list (string * Row)) :=
  match l with
  | [] => Some []
  | row :: l' =>
      match row !! column, keyed column l' with
      | Some cell, Some rest => Some ((JsText.trim cell, row) :: rest)
      | _, _ => None
      end
  end.

(** Lines 100-101: every sortable header loses its mark, the clicked one
    gets the new mark. *)
Definition remark (i : nat) (mark : string) (headers : list Sortable) : list Sortable :=
  imap (fun j h =>
          let cleared := classList h ∖ {[ "asc"; "desc" ]} in
          {| cellIndex := cellIndex h;
             classList := if Nat.eqb i j then cleared ∪ {[ mark ]} else cleared |})
       headers.

(** The click handler on the [i]-th sortable header; [None] when the
    comparator throws.  With fewer than two rows the comparator is not
    called. *)
Definition click (i : nat) (st : State) : option State :=
  match sortable st !! i with
  | None => Some st
  | Some this =>
      let column := cellIndex this in
      let isAscending := bool_decide ("asc" ∈ classList this) in
      let sorted :=
        if (length (rows st) <? 2)%nat then Some (rows st)
        else map snd <$> (sort isAscending <$> keyed column (rows st)) in
      match sorted with
      | Some rows' =>
          Some {| sortable := remark i (if isAscending then "desc" else "asc") (sortable st);
                  rows := rows' |}
      | None => None
      end
  end.

End Table.
End Table.

(** ** Selecting rows (the admin script, 108-139) *)

Module Selection.

(** The [.bulk-actions] panel: its [style.display] and the text of its
    [.selected-count], when it has one. *)
Record BulkActions : Type := {
  display : string;
  selectedCount : option string
}.

Record State : Type := {
  selectAll : option bool;           (* the .select-all checkbox, if any: checked *)
  rowCheckboxes : list bool;         (* the .row-checkbox boxes: checked *)
  bulkActions : option BulkActions   (* the .bulk-actions panel, if any *)
}.

(** [updateBulkActions()]; the flag is the TypeError of a panel without a
    [.selected-count], raised after the panel is displayed. *)
Definition updateBulkActions (st : State) : State * bool :=
  let selectedRows := count_occ bool_dec (rowCheckboxes st) true in
  match bulkActions st with
  | Some panel =>
      if (0 <? selectedRows)%nat then
        match selectedCount panel with
        | Some _ =>
            ({| selectAll := selectAll st; rowCheckboxes := rowCheckboxes st;
                bulkActions := Some {| display := "block";
                                       selectedCount := Some (pretty selectedRows) |} |},
             false)
        | None =>
            ({| selectAll := selectAll st; rowCheckboxes := rowCheckboxes st;
                bulkActions := Some {| display := "block"; selectedCount := None |} |},
             true)
        end
      else
        ({| selectAll := selectAll st; rowCheckboxes := rowCheckboxes st;
            bulkActions := Some {| display := "none";
                                   selectedCount := selectedCount panel |} |},
         false)
  | None => (st, false)
  end.

(** The listeners are installed when there is a select-all box and at least
    one row box (line 112). *)
Definition wired (st : State) : bool :=
  match selectAll st with
  | Some _ => (0 <? length (rowCheckboxes st))%nat
  | None => false
  end.

Inductive Change : Type :=
| SelectAll (checked : bool)   (* the user sets the select-all box *)
| Row (i : nat).               (* the user flips the i-th row box *)

(** The browser changes the box, then the [change] listener runs, if one is
    installed. *)
Definition change (c : Change) (st : State) : State * bool :=
  match c with
  | SelectAll checked =>
      match selectAll st with
      | None => (st, false)
      | Some _ =>
          if wired st then
            updateBulkActions
              {| selectAll := Some checked;
                 rowCheckboxes := map (fun _ => checked) (rowCheckboxes st);
                 bulkActions := bulkActions st |}
          else ({| selectAll := Some checked; rowCheckboxes := rowCheckboxes st;
                   bulkActions := bulkActions st |}, false)
      end
  | Row i =>
      let boxes := alter negb i (rowCheckboxes st) in
      let st' := {| selectAll := selectAll st; rowCheckboxes := boxes;
                    bulkActions := bulkActions st |} in
      if wired st then updateBulkActions st' else (st', false)
  end.

End Selection.

(** ** Regular expressions

    The two patterns of the admin script use classes, sequence and
    repetition only, between [^] and [$]: [test] decides whether the whole
    string is in the language of the pattern, which is what matching by
    derivatives computes.  A pattern steps over the pieces of the string
    ([JsText.units]). *)

Module Regex.

Inductive re : Type :=
| Void
| Eps
| Class (f : string -> bool)
| Cat (r1 r2 : re)
| Alt (r1 r2 : re)
| Star (r : re).

Fixpoint nullable (r : re) : bool :=
  match r with
  | Void => false
  | Eps => true
  | Class _ => false
  | Cat r1 r2 => nullable r1 && nullable r2
  | Alt r1 r2 => nullable r1 || nullable r2
  | Star _ => true
  end.

Fixpoint deriv (u : string) (r : re) : re :=
  match r with
  | Void => Void
  | Eps => Void
  | Class f => if f u then Eps else Void
  | Cat r1 r2 =>
      if nullable r1 then Alt (Cat (deriv u r1) r2) (deriv u r2)
      else Cat (deriv u r1) r2
  | Alt r1 r2 => Alt (deriv u r1) (deriv u r2)
  | Star r => Cat (deriv u r) (Star r)
  end.

(** The pattern [r] between [^] and [$] on the pieces of a string. *)
Fixpoint matches (r : re) (l : list string) : bool :=
  match l with
  | [] => nullable r
  | u :: l' => matches (deriv u r) l'
  end.

(** [/^r$/.test(s)] *)
Definition test (r : re) (s : string) : bool := matches r (JsText.units s).

(** [r+] and [r{n}] *)
Definition plus (r : re) : re := Cat r (Star r).

Fixpoint times (n : nat) (r : re) : re :=
  match n with
  | O => Eps
  | S k => Cat r (times k r)
  end.

(** The byte of a piece that is one byte. *)
Definition byte_of (u : string) : option nat :=
  match u with
  | String c EmptyString => Some (nat_of_ascii c)
  | _ => None
  end.

(** [c], [[a-b]], [\d] and [[^\s@]] *)
Definition char (c : ascii) : re := Class (String.eqb (String c EmptyString)).

Definition range (a b : ascii) : re :=
  Class (fun u => match byte_of u with
                  | Some n => (nat_of_ascii a <=? n)%nat && (n <=? nat_of_ascii b)%nat
                  | None => false
                  end).

Definition digit : string -> bool :=
  fun u => match byte_of u with
           | Some n => (48 <=? n)%nat && (n <=? 57)%nat
           | None => false
           end.

Definition not_space_or_at : string -> bool :=
  fun u => (space_width u =? 0)%nat && negb (String.eqb u "@").

End Regex.

(** ** Validating forms (the admin script, 142-223) *)

Module Validation.

(** [/^[^\s@]+@[^\s@]+\.[^\s@]+$/] *)
Definition emailRegex : Regex.re :=
  Regex.Cat (Regex.plus (Regex.Class Regex.not_space_or_at))
    (Regex.Cat (Regex.char "@")
       (Regex.Cat (Regex.plus (Regex.Class Regex.not_space_or_at))
          (Regex.Cat (Regex.char ".")
             (Regex.plus (Regex.Class Regex.not_space_or_at))))).

(** [/^1[3-9]\d{9}$/] *)
Definition phoneRegex : Regex.re :=
  Regex.Cat (Regex.char "1")
    (Regex.Cat (Regex.range "3" "9") (Regex.times 9 (Regex.Class Regex.digit))).

(** A field of a form: an [input], [textarea] or [select].  [parentNode]
    names its parent element: fields of one parent share the parent's first
    [.invalid-feedback]. *)
Record Field : Type := {
  value : string;
  required : bool;            (* hasAttribute('required') *)
  type : string;
  name : string;
  classList : gset string;
  parentNode : nat
}.

(** The text of the first [.invalid-feedback] of each parent that has one. *)
Abbreviation Feedback := (gmap nat string).

Definition with_classList (classes : gset string) (field : Field) : Field :=
  {| value := value field; required := required field; type := type field;
     name := name field; classList := classes; parentNode := parentNode field |}.

(** The two variables of [validateField] after its three checks. *)
Definition check (field : Field) : bool * string :=
  let value := JsText.trim (value field) in
  let isValid := true in
  let errorMessage := "" in
  let '(isValid, errorMessage) :=
    if required field && String.eqb value ""
    then (false, "此字段为必填项") else (isValid, errorMessage) in
  let '(isValid, errorMessage) :=
    if String.eqb (type field) "email" && negb (String.eqb value "")
    then if negb (Regex.test emailRegex value)
         then (false, "请输入有效的邮箱地址") else (isValid, errorMessage)
    else (isValid, errorMessage) in
  let '(isValid, errorMessage) :=
    if String.eqb (name field) "phone" && negb (String.eqb value "")
    then if negb (Regex.test phoneRegex value)
         then (false, "请输入有效的手机号码") else (isValid, errorMessage)
    else (isValid, errorMessage) in
  (isValid, errorMessage).

(** [validateField(field)]: the result, the field and the feedback texts. *)
Definition validateField (field : Field) (feedback : Feedback)
  : bool * Field * Feedback :=
  let '(isValid, errorMessage) := check field in
  match feedback !! parentNode field with
  | Some _ =>
      if isValid then
        (isValid,
         with_classList ((classList field ∖ {["is-invalid"]}) ∪ {["is-valid"]}) field,
         <[parentNode field := ""]> feedback)
      else
        (isValid,
         with_classList ((classList field ∖ {["is-valid"]}) ∪ {["is-invalid"]}) field,
         <[parentNode field := errorMessage]> feedback)
  | None => (isValid, field, feedback)
  end.

(** [validateForm(form)] on the fields of the form, in document order: the
    required ones are validated, every one of them. *)
Fixpoint validateForm_from (isValid : bool) (inputs : list Field) (feedback : Feedback)
  : bool * list Field * Feedback :=
  match inputs with
  | [] => (isValid, [], feedback)
  | input :: rest =>
      if required input then
        let '(ok, input', feedback') := validateField input feedback in
        let '(result, rest', feedback'') :=
          validateForm_from (if negb ok then false else isValid) rest feedback' in
        (result, input' :: rest', feedback'')
      else
        let '(result, rest', feedback') := validateForm_from isValid rest feedback in
        (result, input :: rest', feedback')
  end.

Definition validateForm (form : list Field) (feedback : Feedback)
  : bool * list Field * Feedback :=
  validateForm_from true form feedback.

(** The [submit] listener of [initForms]: whether the event is prevented,
    the fields, the feedback texts, and the class list of the form. *)
Definition submit (form : list Field) (classes : gset string) (feedback : Feedback)
  : bool * list Field * Feedback * gset string :=
  let '(ok, form', feedback') := validateForm form feedback in
  (negb ok, form', feedback', classes ∪ {["was-validated"]}).

End Validation.

(** ** Searching and filtering a table (the admin script, 300-365) *)

Module Filtering.

(** [hay.includes(needle)] *)
Fixpoint includes (needle hay : string) : bool :=
  match hay with
  | EmptyString => String.prefix needle hay
  | String _ rest => String.prefix needle hay || includes needle rest
  end.

(** [s.toLowerCase()], on the letters of ASCII; the cased letters beyond
    them, which the language lowers too, are left as they are.  It is applied
    to the search term and to the text of a row, when there is a term. *)
Fixpoint toLowerCase (s : string) : string :=
  match s with
  | EmptyString => EmptyString
  | String c s' => String (Html.lower_ascii c) (toLowerCase s')
  end.

(** A [th] of the data tables: its [data-column] attribute and its text. *)
Record Header : Type := {
  column : option string;
  h_textContent : string
}.

(** The test of line 360. *)
Definition names (columnName : string) (header : Header) : bool :=
  bool_decide (column header = Some columnName) || includes columnName (h_textContent header).

(** The loop of [getColumnIndex] from index [i] on. *)
Fixpoint column_from (i : nat) (headers : list Header) (columnName : string) : option nat :=
  match headers with
  | [] => None
  | header :: rest =>
      if names columnName header then Some i else column_from (S i) rest columnName
  end.

(** [getColumnIndex(columnName)], lines 357-365. *)
Definition getColumnIndex (headers : list Header) (columnName : string) : nat :=
  default 0 (column_from 0 headers columnName).

(** A row of the table body: its text, the text of its cells, and its
    [style.display]. *)
Record Row : Type := {
  textContent : string;
  cells : list string;
  display : string
}.

(** A [.filter-select]. *)
Record Select : Type := {
  s_name : string;
  s_value : string
}.

Record State : Type := {
  searchInput : option string;      (* the value of the first .search-input *)
  filterSelects : list Select;
  headers : list Header;            (* the th of the data tables *)
  table : option (list Row)         (* the body rows of the first data table *)
}.

(** The object [filters] after the loop of lines 311-315: a later select
    replaces an earlier one of the same name, and the name [__proto__] makes
    no entry, since the assignment of a string to it is ignored. *)
Definition filters_of (selects : list Select) : gmap string string :=
  fold_left (fun filters select =>
               if negb (String.eqb (s_value select) "")
               then if String.eqb (s_name select) "__proto__" then filters
                    else <[s_name select := s_value select]> filters
               else filters)
            selects ∅.

(** One entry of [filters] on a row: lines 332-336. *)
Definition passes (headers : list Header) (row : Row) (column value : string) : Prop :=
  match cells row !! getColumnIndex headers column with
  | Some cell => JsText.trim cell = value
  | None => True
  end.

#[global] Instance passes_dec headers row column value :
  Decision (passes headers row column value).
Proof. unfold passes. destruct (cells row !! _); apply _. Defined.

(** [showRow] for a row: the loop over the entries stops at the first that
    fails, so that the row is shown when all of them pass. *)
Definition showRow (searchTerm : string) (filters : gmap string string)
    (headers : list Header) (row : Row) : bool :=
  (if negb (String.eqb searchTerm "")
   then includes searchTerm (toLowerCase (textContent row))
   else true)
  && bool_decide (map_Forall (passes headers row) filters).

(** [performSearch()], lines 300-341. *)
Definition performSearch (st : State) : State :=
  match table st with
  | None => st
  | Some rows =>
      let searchTerm := match searchInput st with
                        | Some value => toLowerCase value
                        | None => ""
                        end in
      let filters := filters_of (filterSelects st) in
      {| searchInput := searchInput st;
         filterSelects := filterSelects st;
         headers := headers st;
         table :=
           Some (map (fun row =>
                        {| textContent := textContent row;
                           cells := cells row;
                           display := if showRow searchTerm filters (headers st) row
                                      then "" else "none" |})
                     rows) |}
  end.

End Filtering.

(** ** Exporting a table (the admin script, 374-405) *)

Module Csv.

Definition quote : ascii := ascii_of_nat 34.

(** The [replace] of line 386: every quote of the text is doubled. *)
Fixpoint double_quotes (text : string) : string :=
  match text with
  | EmptyString => EmptyString
  | String c rest =>
      if Ascii.eqb c quote then String c (String c (double_quotes rest))
      else String c (double_quotes rest)
  end.

(** What is pushed for a cell, lines 386-387. *)
Definition cell_csv (text : string) : string :=
  dq ++ double_quotes (JsText.trim text) ++ dq.

(** The content of the file for the rows of the table, each the text of its
    [td] and [th]: the cells of a row joined by commas, the rows by line
    feeds. *)
Definition csvContent (rows : list (list string)) : string :=
  String.concat nl (map (fun cols => String.concat "," (map cell_csv cols)) rows).

(** [exportTable(tableId, filename)] up to the Blob: nothing is made when
    there is no such table. *)
Definition exportTable (table : option (list (list string))) : option string :=
  csvContent <$> table.

End Csv.

(** ** Status updates (utils.js, 84-128) *)

Module Status.
Section Status.

(** The body that [fetch] sends for [new FormData(form)], from the hidden
    inputs of the form: the platform's. *)
Variable formData : list (string * string) -> string.

(** A form made by [createCsrfForm]: its hidden inputs, name and value. *)
Record Form : Type := {
  f_method : string;
  f_display : string;
  f_inputs : list (string * string)
}.

(** The document: the page, the forms appended to the body, oldest first,
    and the number of calls of [location.reload()]. *)
Record Document : Type := {
  page : Page;
  forms : list Form;
  reloads : nat
}.

(** [Utils.createCsrfForm()], lines 84-99. *)
Definition createCsrfForm (p : Page) : Form :=
  {| f_method := "POST";
     f_display := "none";
     f_inputs := match csrf_field p with
                 | Some value => [("csrfmiddlewaretoken", value)]
                 | None => []
                 end |}.

(** [input.value = v]: [null] gives the empty string. *)
Definition input_value (v : JSValue) : string :=
  match v with
  | JNull => EmptyString
  | _ => js_to_string v
  end.

(** The loop of lines 106-112 over [Object.entries(data)]. *)
Definition add_inputs (entries : list (string * JSValue)) (form : Form) : Form :=
  fold_left (fun form '(key, value) =>
               {| f_method := f_method form;
                  f_display := f_display form;
                  f_inputs := (f_inputs form ++ [(key, input_value value)])%list |})
            entries form.

(** The value of the first element named [name] among the inputs. *)
Fixpoint named (name : string) (inputs : list (string * string)) : option string :=
  match inputs with
  | [] => None
  | (key, value) :: rest => if String.eqb key name then Some value else named name rest
  end.

(** [document.body.appendChild(form)]: the form comes last in the document,
    so that its inputs answer [querySelector('[name=csrfmiddlewaretoken]')]
    when nothing before them does. *)
Definition appendForm (form : Form) (d : Document) : Document :=
  let p := page d in
  {| page :=
       mkPage (cookie p)
              (match csrf_field p with
               | Some value => Some value
               | None => named "csrfmiddlewaretoken" (f_inputs form)
               end)
              (notifications p) (toast_container p) (cart_badge p) (cart_counter p)
              (timers p) (now p) (next_id p) (remove_calls p);
     forms := (forms d ++ [form])%list;
     reloads := reloads d |}.

Definition on_page (f : Page -> Page) (d : Document) : Document :=
  {| page := f (page d); forms := forms d; reloads := reloads d |}.

Definition reload (d : Document) : Document :=
  {| page := page d; forms := forms d; reloads := S (reloads d) |}.

(** The synchronous part of [Utils.updateStatus(url, data, successMessage)],
    lines 102-119, on the entries of [data]: the document with the form, and
    the request. *)
Definition updateStatus_request (url : string) (entries : list (string * JSValue))
    (d : Document) : Document * Outcome Request :=
  let form := createCsrfForm (page d) in
  let form := add_inputs entries form in
  let d := appendForm form d in
  (d, ajax_request (page d) url
        {| method := Some "POST"; headers := None;
           body := Some (formData (f_inputs form)) |}).

(** The promise chain of [Utils.updateStatus], lines 116-127, once [fetch]
    settles.  Reading [response.success] of a nullish response throws. *)
Definition updateStatus_settle (successMessage : JSValue) (o : FetchOutcome)
    (d : Document) : Document * Outcome JSValue :=
  match ajax_settle o (page d) with
  | (p, Rejected e) => (on_page (fun _ => p) d, Rejected e)
  | (p, Fulfilled response) =>
      let d := on_page (fun _ => p) d in
      if js_nullish response then (d, Rejected TypeError)
      else if js_truthy (js_prop "success" response) then
        let d := on_page (showNotification (js_to_string successMessage) "success") d in
        (reload d, Fulfilled response)
      else
        let d := on_page (showNotification
                            (js_to_string (js_or (js_prop "error" response) (JStr "操作失败")))
                            "error") d in
        (d, Fulfilled response)
  end.

(** [Utils.updateStatus] against a network that answers each request. *)
Definition updateStatus (network : Request -> FetchOutcome) (url : string)
    (entries : list (string * JSValue)) (successMessage : JSValue) (d : Document)
  : Document * Outcome JSValue :=
  match updateStatus_request url entries d with
  | (d, Fulfilled request) => updateStatus_settle successMessage (network request) d
  | (d, Rejected e) => (d, Rejected e)
  end.

End Status.
End Status.

(** ** The heart button (frontend.js, 66-80) *)

Module Favourite.

(** A click on a heart button whose icon, the button's first [i], has the
    classes [icon]; [None] is the TypeError of a button without an icon. *)
Definition click (icon : option (gset string)) (p : Page) : option (gset string * Page) :=
  match icon with
  | None => None
  | Some classes =>
      if bool_decide ("bi-heart" ∈ classes) then
        Some ((classes ∖ {["bi-heart"]}) ∪ {["bi-heart-fill"; "text-danger"]},
              showToast "已添加到收藏夹 ❤️" "success" p)
      else
        Some ((classes ∖ {["bi-heart-fill"; "text-danger"]}) ∪ {["bi-heart"]},
              showToast "已从收藏夹移除" "info" p)
  end.

End Favourite.

(** * The vocabulary of the properties

    What the statements below speak of: the requests and failures they
    distinguish, the nodes the renderers build, and the invariants of the
    event loop. *)

(** The verbs that change state, as the specification lists them. *)
Definition mutating (m : string) : bool :=
  existsb (String.eqb (toUpperCase m)) ["POST"; "PUT"; "PATCH"; "DELETE"].

(** The method of a call: the caller's, or [GET]. *)
Definition method_of (options : Options) : string := default "GET" (method options).

(** The three ways a round trip fails, with the error each one raises:
    [fetch] rejects; the status is not a success; the body is not JSON. *)
Inductive TransportFailure : FetchOutcome -> Error -> Prop :=
| network_failed (e : Error) :
    TransportFailure (Failed e) e
| status_not_ok (r : Response) :
    ok r = false -> TransportFailure (Responded r) (HttpError (status r))
| body_not_json (r : Response) :
    ok r = true -> json r = None -> TransportFailure (Responded r) SyntaxError.

(** The integers that a number of the language holds one by one: up to 2^53
    either way. *)
Definition safe_integer (n : Z) : Prop := (- 2 ^ 53 <= n <= 2 ^ 53)%Z.

(** A value whose numbers are such integers, so that its text is the text
    the language gives it. *)
Fixpoint js_exact (v : JSValue) : Prop :=
  match v with
  | JNum n => safe_integer n
  | JArr items =>
      (fix all (l : list JSValue) : Prop :=
         match l with
         | [] => True
         | x :: rest => js_exact x /\ all rest
         end) items
  | _ => True
  end.

(** The catch handler of [Utils.addToCart], lines 156-160. *)
Definition addToCart_failed (callback : option Callback1) (error : Error) : Async JSValue :=
  fun p =>
    then_ (call callback (JBool false)) (fun _ => settled (Rejected error))
      (showNotification "添加失败，请重试" "error" p).

(** The two kinds of node: the inline notification of [showNotification] and
    the transient toast of [showToast]. *)
Inductive Kind : Type := Inline | Transient.

(** The node is in the page. *)
Definition attached (k : Kind) (id : nat) (p : Page) : bool :=
  match k with
  | Inline => notification_attached id p
  | Transient => toast_attached id p
  end.

(** The numbers of the nodes of each kind that are in the page. *)
Definition ids (k : Kind) (p : Page) : list nat :=
  match k with
  | Inline => map fst (notifications p)
  | Transient => map fst (toasts p)
  end.

(** The notification that has the number [id], when it is in the page. *)
Definition node_of (id : nat) (p : Page) : option Notification :=
  snd <$> List.find (fun e => Nat.eqb id (fst e)) (notifications p).

(** A notification [id] that, while it is in the page, is the node [n]. *)
Definition Shows (id : nat) (n : Notification) (p : Page) : Prop :=
  id < next_id p /\ (In id (ids Inline p) -> node_of id p = Some n).

(** A notification [id] that, while it is in the page, has its closing
    callback in the queue, due at [due], in the future. *)
Definition Scheduled (id due : nat) (p : Page) : Prop :=
  id < next_id p
  /\ (In id (ids Inline p) -> In (due, AutoClose id) (timers p) /\ now p < due).

(** A notification [id] that is in the page with no closing callback in the
    queue but the one due at [due], in the future. *)
Definition Waiting (id due : nat) (p : Page) : Prop :=
  id < next_id p
  /\ In id (ids Inline p)
  /\ (forall d, In (d, AutoClose id) (timers p) -> d = due)
  /\ now p < due.

(** The closing callbacks in the queue are for notifications that were
    created. *)
Definition Timed (p : Page) : Prop :=
  forall d id, In (d, AutoClose id) (timers p) -> id < next_id p.

(** What every operation but the passing of time does: it may create nodes,
    with new numbers, and set timers; it cancels no timer, leaves the clock
    alone and does not touch a notification that stays. *)
Definition Grows (f : Page -> Page) : Prop :=
  forall p,
    next_id p <= next_id (f p)
    /\ now (f p) = now p
    /\ (forall e, In e (timers p) -> In e (timers (f p)))
    /\ (forall k x, In x (ids k (f p)) -> In x (ids k p) \/ next_id p <= x)
    /\ (forall x, x < next_id p -> In x (ids Inline (f p)) -> node_of x (f p) = node_of x p).

(** What the operations that remove nothing do: every node stays, and a
    closing callback they add to the queue is for a node they create. *)
Definition Adds (f : Page -> Page) : Prop :=
  forall p,
    next_id p <= next_id (f p)
    /\ (forall k x, In x (ids k p) -> In x (ids k (f p)))
    /\ (forall d x, In (d, AutoClose x) (timers (f p)) ->
          In (d, AutoClose x) (timers p) \/ (next_id p <= x /\ x < next_id (f p))).

(** The calls of [remove()] on notifications are accounted for: the nodes in
    the page have numbers that were given out, the two kinds do not share a
    number, a call was made only on a notification that is now out of the
    page, and no notification had two calls. *)
Record Accounted (p : Page) : Prop := {
  acc_bound : forall k id, In id (ids k p) -> id < next_id p;
  acc_kinds : forall id, In id (ids Inline p) -> ~ In id (ids Transient p);
  acc_removed : forall id, In id (remove_calls p) -> id < next_id p /\ ~ In id (ids Inline p);
  acc_once : List.NoDup (remove_calls p)
}.

(** A notification that is in the page, or that a call of [remove()] took
    out. *)
Definition Known (id : nat) (p : Page) : Prop :=
  In id (ids Inline p) \/ In id (remove_calls p).

(** What an operation does to the nodes: nothing ([Same]), one creation
    ([Created]), one [remove()] of a notification that is in the page
    ([Removed]), toasts taken out by their listener ([Hidden]), or several of
    these in a row ([Effect]). *)
Definition Same (p p' : Page) : Prop :=
  next_id p' = next_id p /\ remove_calls p' = remove_calls p
  /\ forall k, ids k p' = ids k p.

Definition Created (k : Kind) (p p' : Page) : Prop :=
  next_id p' = S (next_id p) /\ remove_calls p' = remove_calls p
  /\ forall k' x, In x (ids k' p') <-> In x (ids k' p) \/ (k' = k /\ x = next_id p).

Definition Removed (id : nat) (p p' : Page) : Prop :=
  In id (ids Inline p)
  /\ next_id p' = next_id p /\ remove_calls p' = (remove_calls p ++ [id])%list
  /\ ids Transient p' = ids Transient p
  /\ forall x, In x (ids Inline p') <-> In x (ids Inline p) /\ x <> id.

Definition Hidden (p p' : Page) : Prop :=
  next_id p' = next_id p /\ remove_calls p' = remove_calls p
  /\ ids Inline p' = ids Inline p
  /\ forall x, In x (ids Transient p') -> In x (ids Transient p).

Inductive Effect : Page -> Page -> Prop :=
| effect_same p p' : Same p p' -> Effect p p'
| effect_created k p p' : Created k p p' -> Effect p p'
| effect_removed id p p' : Removed id p p' -> Effect p p'
| effect_hidden p p' : Hidden p p' -> Effect p p'
| effect_then p p' p'' : Effect p p' -> Effect p' p'' -> Effect p p''.

(** The characters that mean something to the parser in character data: the
    start of a tag, the start of a reference, and the carriage return and
    NUL that it rewrites. *)
Definition special (c : ascii) : bool :=
  Html.is_char 60 c || Html.is_char 38 c || Html.is_char 13 c || Html.is_char 0 c.

(** A message without them. *)
Fixpoint plain_text (s : string) : bool :=
  match s with
  | EmptyString => true
  | String c s' => negb (special c) && plain_text s'
  end.

(** The template of [showNotification] around the message. *)
Definition notification_before : string :=
  nl ++ spaces 12 ++ "<div class=" ++ dq ++ "notification-content" ++ dq ++ ">" ++
  nl ++ spaces 16 ++ "<span class=" ++ dq ++ "notification-message" ++ dq ++ ">".

Definition notification_after : string :=
  "</span>" ++
  nl ++ spaces 16 ++ "<button class=" ++ dq ++ "notification-close" ++ dq ++
    " onclick=" ++ dq ++ "this.parentElement.parentElement.remove()" ++ dq ++
    ">&times;</button>" ++
  nl ++ spaces 12 ++ "</div>" ++
  nl ++ spaces 8.

(** The template of [showToast] around the message. *)
Definition toast_before (emoji : string) : string :=
  nl ++ spaces 8 ++ "<div class=" ++ dq ++ "d-flex" ++ dq ++ ">" ++
  nl ++ spaces 12 ++ "<div class=" ++ dq ++ "toast-body d-flex align-items-center" ++ dq ++ ">" ++
  nl ++ spaces 16 ++ "<span class=" ++ dq ++ "me-2" ++ dq ++ ">" ++ emoji ++ "</span>" ++
  nl ++ spaces 16.

Definition toast_after : string :=
  "</div>" ++
  nl ++ spaces 12 ++ "<button type=" ++ dq ++ "button" ++ dq ++
    " class=" ++ dq ++ "btn-close btn-close-white me-2 m-auto" ++ dq ++
    " data-bs-dismiss=" ++ dq ++ "toast" ++ dq ++ "></button>" ++
  nl ++ spaces 8 ++ "</div>" ++
  nl ++ spaces 4.

(** The text of a toast's body around a message that is shown as it is: the
    emoji and the white space of the template. *)
Definition toast_body_text (emoji message : string) : string :=
  nl ++ spaces 16 ++ emoji ++ nl ++ spaces 16 ++ message ++ nl ++ spaces 12.

(** Both sides start with the same characters. *)
Ltac peel :=
  repeat match goal with
         | |- Some _ = Some _ => apply f_equal
         | |- String ?a _ = String ?a _ => apply f_equal
         end.

(** ** More vocabulary: cookies *)

(** The rows of a cookie string, as [document.cookie] joins them. *)
Definition cookie_string (rows : list string) : string := String.concat "; " rows.

(** A string without the character [c]. *)
Fixpoint free_of (c : ascii) (s : string) : bool :=
  match s with
  | EmptyString => true
  | String x s' => negb (Ascii.eqb x c) && free_of c s'
  end.

(** The part of a string before its first [c], the whole string if it has
    none. *)
Fixpoint upto (c : ascii) (s : string) : string :=
  match s with
  | EmptyString => EmptyString
  | String x s' => if Ascii.eqb x c then EmptyString else String x (upto c s')
  end.

(** The headers of a call: the caller's, or the default ones. *)
Definition headers_of (options : Options) : gmap string string :=
  default {[ "X-Requested-With" := "XMLHttpRequest" ]} (headers options).

(** U+00A0, the no-break space, and U+3000, the ideographic space, as the
    bytes of UTF-8. *)
Definition nbsp : string :=
  String (ascii_of_nat 194) (String (ascii_of_nat 160) EmptyString).

Definition ideographic_space : string :=
  String (ascii_of_nat 227) (String (ascii_of_nat 128) (String (ascii_of_nat 128) EmptyString)).

(** ** More vocabulary: the cart counter *)

(** A text without a decimal digit. *)
Fixpoint digitless (s : string) : bool :=
  match s with
  | EmptyString => true
  | String c s' => negb (Html.is_digit c) && digitless s'
  end.

(** The case analysis on a character, bit by bit. *)
Ltac each_ascii c := destruct c as [[] [] [] [] [] [] [] []].

(** The text the cart counter shows, if the page has one. *)
Definition counter_text (p : Page) : option string := c_textContent <$> cart_counter p.

(** The calls of [updateCartCounter] in a run. *)
Definition bumps (actions : list Action) : nat :=
  list_sum (map (fun a => match a with CounterBump => 1 | _ => 0 end) actions).

(** ** More vocabulary: bursts of calls *)

(** Calls in a row, each followed by the time until the next. *)
Definition burst_events {A : Type} (burst : list (A * nat)) : list (Debounce.Event (A:=A)) :=
  flat_map (fun c => [Debounce.Call (fst c); Debounce.Idle (snd c)]) burst.

(** The arguments of the calls among some events, and the time that passes
    in them. *)
Definition call_args {A : Type} (events : list (Debounce.Event (A:=A))) : list A :=
  flat_map (fun e => match e with Debounce.Call a => [a] | Debounce.Idle _ => [] end) events.

Definition idle_time {A : Type} (events : list (Debounce.Event (A:=A))) : nat :=
  list_sum (map (fun e => match e with Debounce.Call _ => 0 | Debounce.Idle dt => dt end) events).

(** What stays true of a debounced function, whatever is done with it:
    [func] was called at most once per call that is not still waiting, each
    time with arguments that were passed, and not before [wait] ms. *)
Definition Debounced {A : Type} (wait : nat) (events : list (Debounce.Event (A:=A)))
    (st : Debounce.State (A:=A)) : Prop :=
  length (Debounce.invoked st) + (if Debounce.timeout st is Some _ then 1 else 0)
  <= length (call_args events)
  /\ Debounce.clock st = idle_time events
  /\ (forall due a, Debounce.timeout st = Some (due, a) ->
      In a (call_args events) /\ wait <= due <= Debounce.clock st + wait)
  /\ (forall t a, In (t, a) (Debounce.invoked st) ->
      In a (call_args events) /\ wait <= t <= Debounce.clock st).

(** ** More vocabulary: sorted tables *)

(** The text a row is sorted on. *)
Definition sort_key (column : nat) (row : Table.Row) : string :=
  JsText.trim (default EmptyString (row !! column)).

(** The header carries the mark. *)
Definition marked (mark : string) (h : Table.Sortable) : bool :=
  bool_decide (mark ∈ Table.classList h).

(** The order of two rows that a sort in a direction leaves them in: the
    comparator does not put the second before the first. *)
Definition in_order (localeCompare : string -> string -> Z) (isAscending : bool)
    (column : nat) (r1 r2 : Table.Row) : Prop :=
  (Table.compare localeCompare isAscending (sort_key column r1) (sort_key column r2) <= 0)%Z.

(** The two texts compare equal: neither comes after the other. *)
Definition tied (localeCompare : string -> string -> Z) (text1 text2 : string) : bool :=
  (localeCompare text1 text2 <=? 0)%Z && (localeCompare text2 text1 <=? 0)%Z.

(** The language of a pattern, over the pieces of a string. *)
Inductive Matches : Regex.re -> list string -> Prop :=
| MEps : Matches Regex.Eps []
| MClass f u : f u = true -> Matches (Regex.Class f) [u]
| MCat r1 r2 l1 l2 : Matches r1 l1 -> Matches r2 l2 -> Matches (Regex.Cat r1 r2) (l1 ++ l2)
| MAltL r1 r2 l : Matches r1 l -> Matches (Regex.Alt r1 r2) l
| MAltR r1 r2 l : Matches r2 l -> Matches (Regex.Alt r1 r2) l
| MStar0 r : Matches (Regex.Star r) []
| MStar r l1 l2 : Matches r l1 -> Matches (Regex.Star r) l2 -> Matches (Regex.Star r) (l1 ++ l2).

(** Every byte of the string passes the test. *)
Fixpoint all_chars (f : ascii -> bool) (s : string) : bool :=
  match s with
  | EmptyString => true
  | String c s' => f c && all_chars f s'
  end.

(** The pieces put together again. *)
Definition glue (l : list string) : string := fold_right String.append EmptyString l.

(** A mainland mobile number: 1, a digit from 3 to 9, nine more digits. *)
Definition phone_shape (s : string) : Prop :=
  exists c rest,
    s = String "1" (String c rest)
    /\ (51 <= nat_of_ascii c <= 57)%nat
    /\ String.length rest = 9%nat
    /\ all_chars Html.is_digit rest = true.

(** local@domain.tld: three parts, none empty, none with a white-space
    character or an [@] in it, the last two separated by a dot. *)
Definition email_part (l : list string) : Prop :=
  l <> [] /\ forallb Regex.not_space_or_at l = true.

Definition email_shape (s : string) : Prop :=
  exists user host tld,
    JsText.units s = (user ++ ["@"] ++ host ++ ["."] ++ tld)%list
    /\ email_part user /\ email_part host /\ email_part tld.

(** What [validateField] accepts. *)
Definition acceptable (field : Validation.Field) : Prop :=
  let value := JsText.trim (Validation.value field) in
  (Validation.required field = true -> value <> "")
  /\ (Validation.type field = "email" -> value <> "" -> email_shape value)
  /\ (Validation.name field = "phone" -> value <> "" -> phone_shape value).

(** The rows that are shown. *)
Definition shown (row : Filtering.Row) : bool := String.eqb (Filtering.display row) "".

(** A reader of quoted comma-separated values: every field stands between
    quotes, a doubled quote inside a field is a quote, a comma after a field
    starts the next field and a line feed the next record. *)
Inductive Reading : Type :=
| Outside                    (* a field is to start *)
| Inside (field : string)    (* within the quotes of a field *)
| Closed (field : string).   (* after a quote within a field: its end, or half of a doubled quote *)

Record Reader : Type := {
  records : list (list string);
  fields : list string;
  reading : Reading
}.

Definition read_char (r : Reader) (c : ascii) : option Reader :=
  match reading r with
  | Outside =>
      if Ascii.eqb c Csv.quote
      then Some {| records := records r; fields := fields r; reading := Inside "" |}
      else None
  | Inside field =>
      Some {| records := records r; fields := fields r;
              reading := if Ascii.eqb c Csv.quote then Closed field
                         else Inside (field ++ String c "") |}
  | Closed field =>
      if Ascii.eqb c Csv.quote then
        Some {| records := records r; fields := fields r;
                reading := Inside (field ++ String c "") |}
      else if Ascii.eqb c "," then
        Some {| records := records r; fields := (fields r ++ [field])%list;
                reading := Outside |}
      else if Ascii.eqb c (ascii_of_nat 10) then
        Some {| records := (records r ++ [(fields r ++ [field])%list])%list; fields := [];
                reading := Outside |}
      else None
  end.

Fixpoint read_from (r : option Reader) (s : string) : option Reader :=
  match s with
  | EmptyString => r
  | String c rest => read_from (r ≫= fun r => read_char r c) rest
  end.

(** The records of a file, when it is well formed. *)
Definition read_csv (s : string) : option (list (list string)) :=
  match read_from (Some {| records := []; fields := []; reading := Outside |}) s with
  | Some r =>
      match reading r with
      | Closed field => Some (records r ++ [(fields r ++ [field])%list])%list
      | _ => None
      end
  | None => None
  end.

(** The hidden inputs [updateStatus] makes of the entries of its data. *)
Definition data_inputs (entries : list (string * JSValue)) : list (string * string) :=
  map (fun '(key, value) => (key, Status.input_value value)) entries.

(** The inputs of the form of [updateStatus] on a page. *)
Definition status_inputs (p : Page) (entries : list (string * JSValue))
  : list (string * string) :=
  (match csrf_field p with
   | Some value => [("csrfmiddlewaretoken", value)]
   | None => []
   end ++ data_inputs entries)%list.

(** * Properties *)

(** ** Reading the model *)

Example js_to_string_array :
  js_to_string (JArr [JNum 1; JNull; JStr "a"; JArr [JNum (-2); JBool true]]) = "1,,a,-2,true".
Proof. reflexivity. Qed.

Example parseInt_examples :
  parseInt " 12px" = Some 12%Z /\ parseInt "-7" = Some (-7)%Z /\ parseInt "0x1f" = Some 31%Z
  /\ parseInt "" = None /\ parseInt "abc" = None /\ parseInt "0x" = None.
Proof. repeat split; reflexivity. Qed.

Example split_examples :
  split "; " "a=b; csrftoken=abc123; x=y" = ["a=b"; "csrftoken=abc123"; "x=y"]
  /\ split "=" "csrftoken=abc=def" = ["csrftoken"; "abc"; "def"]
  /\ split "; " "" = [""].
Proof. repeat split; reflexivity. Qed.

(** The cookie is looked up first, the hidden field second. *)
Example getCsrfToken_examples :
  getCsrfToken (loaded "a=b; csrftoken=abc123; x=y" (Some "field") None None) = Some "abc123"
  /\ getCsrfToken (loaded "a=b" (Some "field") None None) = Some "field"
  /\ getCsrfToken (loaded "a=b" None None None) = None
  /\ getCsrfToken (loaded "csrftoken=" (Some "field") None None) = Some "".
Proof. repeat split; reflexivity. Qed.

(** A notification stays for 5000 ms when nobody closes it; a toast stays
    until the component reports it hidden. *)
Example timeline_examples :
  let p := loaded "" None None None in
  notification_attached 0 (advance 4999 (showNotification "saved" "info" p)) = true
  /\ notification_attached 0 (advance 5000 (showNotification "saved" "info" p)) = false
  /\ toast_attached 0 (advance 5000 (showToast "saved" "info" p)) = true
  /\ toast_attached 0 (toast_hidden 0 (advance 3200 (showToast "saved" "info" p))) = false.
Proof. repeat split; reflexivity. Qed.

(** The close button of the template is two levels below the notification,
    also around a message with markup of its own; where the message leaves an
    element open, the model does not say where the button is. *)
Example close_button_examples :
  close_button_depth (notification_node "saved" "info") = Some 2
  /\ close_button_depth (notification_node "a <b>bold</b> move" "info") = Some 2
  /\ close_button_depth (notification_node "<div>" "info") = None
  /\ (notification_attached 0 <$> click_close 0 (showNotification "saved" "info" (loaded "" None None None)))
     = Some false
  /\ click_close 0 (showNotification "<div>" "info" (loaded "" None None None)) = None
  /\ click_close 1 (showNotification "saved" "info" (loaded "" None None None)) = None.
Proof. repeat split; vm_compute; reflexivity. Qed.

(** What the parser model makes of some messages: markup is taken out of the
    text, a reference is decoded, and a [<], [>] or [&] that starts nothing
    stays. *)
Example parser_examples :
  notification_text (notification_node "a <b>bold</b> move" "info") = Some "a bold move"
  /\ notification_text (notification_node "<img src=x onerror=alert(1)>" "info") = Some ""
  /\ notification_text (notification_node "fish &amp; chips" "info") = Some "fish & chips"
  /\ notification_text (notification_node "1 > 0 & a < b" "info") = Some "1 > 0 & a < b"
  /\ notification_text (notification_node "<b>open" "info") = None.
Proof. repeat split; vm_compute; reflexivity. Qed.

(** ** The request that is dispatched *)

Lemma spread_default_method options :
  method (spread defaultOptions options) = Some (method_of options).
Proof. unfold method_of, spread. simpl. by destruct (method options). Qed.

Lemma spread_default_headers options :
  headers (spread defaultOptions options)
  = Some (default {[ "X-Requested-With" := "XMLHttpRequest" ]} (headers options)).
Proof. unfold spread. simpl. by destruct (headers options). Qed.

(** [Utils.ajax] always reaches [fetch]: the defaults supply the method and
    the headers. *)
Lemma ajax_request_total p url options :
  exists request, ajax_request p url options = Fulfilled request /\ r_url request = url.
Proof.
  unfold ajax_request.
  rewrite spread_default_method, spread_default_headers.
  destruct (String.eqb _ "POST"); [|by eexists].
  destruct (getCsrfToken p) as [tok|]; [|by eexists].
  destruct (negb _); by eexists.
Qed.

(** C1, as amended: for every call of [Utils.ajax] whose method upper-cases to
    POST, when [getCsrfToken] finds a non-empty token, the dispatched request
    carries that token as its X-CSRFToken header. *)
Theorem ajax_post_carries_csrf_token (p : Page) (url : string) (options : Options)
    (token : string) :
  toUpperCase (method_of options) = "POST" ->
  getCsrfToken p = Some token ->
  token <> EmptyString ->
  exists request,
    ajax_request p url options = Fulfilled request
    /\ request_header "X-CSRFToken" request = Some token.
Proof.
  intros Hpost Htoken Hnonempty.
  unfold ajax_request.
  rewrite spread_default_method, spread_default_headers, Hpost, Htoken.
  simpl.
  destruct (String.eqb_spec token EmptyString) as [->|_]; [done|].
  simpl. eexists. split; [reflexivity|].
  unfold request_header. simpl. apply lookup_insert_eq.
Qed.

Lemma ajax_post_carries_csrf_token_witness :
  exists request,
    ajax_request (loaded "csrftoken=abc123" None None None) "/orders/1/"
      {| method := Some "post"; headers := None; body := None |} = Fulfilled request
    /\ request_header "X-CSRFToken" request = Some "abc123".
Proof.
  apply (ajax_post_carries_csrf_token (loaded "csrftoken=abc123" None None None) "/orders/1/"
           {| method := Some "post"; headers := None; body := None |} "abc123");
    [reflexivity | reflexivity | discriminate].
Defined.

(** C1, as stated, fails: a PUT with a token in the cookie is dispatched
    without the X-CSRFToken header. *)
Lemma ajax_put_carries_no_csrf_token :
  let p := loaded "csrftoken=abc123" None None None in
  let options := {| method := Some "PUT"; headers := None; body := None |} in
  mutating (method_of options) = true
  /\ getCsrfToken p = Some "abc123"
  /\ exists request,
       ajax_request p "/orders/1/" options = Fulfilled request
       /\ request_header "X-CSRFToken" request = None.
Proof.
  repeat split. eexists. split; [reflexivity|].
  unfold request_header. simpl. apply lookup_singleton_ne. discriminate.
Qed.

(** The same for PATCH and DELETE. *)
Lemma ajax_patch_delete_carry_no_csrf_token (p : Page) (url : string) (m : string)
    (h : option (gmap string string)) (b : option string) :
  m = "PATCH" \/ m = "DELETE" ->
  ajax_request p url {| method := Some m; headers := h; body := b |}
  = Fulfilled {| r_url := url;
                 r_options := spread defaultOptions {| method := Some m; headers := h; body := b |} |}.
Proof. by intros [-> | ->]. Qed.

(** C2 at the failing input: the request of [Utils.addToCart] carries the
    caller's Content-Type and no X-Requested-With header, whatever the page,
    the product and the quantity. *)
Theorem addToCart_request_drops_default_header (p : Page) (productId : JSValue)
    (quantity : option Z) :
  exists request,
    addToCart_request p productId quantity = Fulfilled request
    /\ request_header "Content-Type" request = Some "application/json"
    /\ request_header "X-Requested-With" request = None.
Proof.
  unfold addToCart_request, ajax_request. simpl.
  destruct (getCsrfToken p) as [tok|]; simpl.
  - destruct (negb _); eexists; (split; [reflexivity|]); unfold request_header; simpl.
    + rewrite !lookup_insert_ne by discriminate.
      rewrite lookup_singleton_eq, lookup_singleton_ne by discriminate. done.
    + rewrite lookup_singleton_eq, lookup_singleton_ne by discriminate. done.
  - eexists. split; [reflexivity|]. unfold request_header. simpl.
    rewrite lookup_singleton_eq, lookup_singleton_ne by discriminate. done.
Qed.

(** A call that supplies no headers keeps the default one. *)
Lemma ajax_without_headers_keeps_default (p : Page) (url : string) (m b : option string) :
  exists request,
    ajax_request p url {| method := m; headers := None; body := b |} = Fulfilled request
    /\ request_header "X-Requested-With" request = Some "XMLHttpRequest".
Proof.
  unfold ajax_request. rewrite spread_default_method, spread_default_headers. simpl.
  destruct (String.eqb _ "POST"); [|by eexists].
  destruct (getCsrfToken p) as [tok|]; [|by eexists].
  destruct (negb _); [|by eexists].
  eexists. split; [reflexivity|]. unfold request_header. simpl.
  rewrite lookup_insert_ne by discriminate. apply lookup_singleton_eq.
Qed.

(** ** Failures of the round trip *)

Lemma showNotification_appends message type p :
  notifications (showNotification message type p)
  = (notifications p ++ [(next_id p, notification_node message type)])%list.
Proof. reflexivity. Qed.

Lemma showNotification_next_id message type p :
  next_id (showNotification message type p) = S (next_id p).
Proof. reflexivity. Qed.

(** The chain of [Utils.ajax] on a failure: the catch handler has run. *)
Lemma ajax_settle_failure o e p :
  TransportFailure o e ->
  ajax_settle o p = (showNotification "请求失败，请重试" "error" p, Rejected e).
Proof.
  intros [e' | r Hok | r Hok Hjson]; unfold ajax_settle, catch_, then_, fetch, settled.
  - reflexivity.
  - by rewrite Hok.
  - by rewrite Hok, Hjson.
Qed.

(** The chain of [Utils.ajax] on a success: the parsed body, and the page as
    it was. *)
Lemma ajax_settle_success r v p :
  ok r = true -> json r = Some v -> ajax_settle (Responded r) p = (p, Fulfilled v).
Proof.
  intros Hok Hjson. unfold ajax_settle, catch_, then_, fetch, settled.
  by rewrite Hok, Hjson.
Qed.

(** C3: when the status is not a success, the body is not JSON or the
    network call fails, [Utils.ajax] renders exactly one error notification,
    the generic one, and the promise rejects with the error of the failure;
    the page the caller's handlers see already holds the notification. *)
Theorem ajax_failure_notifies_once_and_rejects (o : FetchOutcome) (e : Error) (p : Page) :
  TransportFailure o e ->
  exists p' n,
    ajax_settle o p = (p', Rejected e)
    /\ notifications p' = (notifications p ++ [(next_id p, n)])%list
    /\ n_className n = "notification error"
    /\ notification_text n = Some "请求失败，请重试".
Proof.
  intros Hfail. rewrite (ajax_settle_failure _ _ _ Hfail).
  eexists _, _. split; [reflexivity|]. split; [apply showNotification_appends|].
  split; reflexivity.
Qed.

Lemma ajax_failure_notifies_once_and_rejects_witness :
  exists p' n,
    ajax_settle (Responded {| status := 500; json := Some (JObj []) |})
      (loaded "" None None None) = (p', Rejected (HttpError 500))
    /\ notifications p' = (notifications (loaded "" None None None) ++ [(0, n)])%list
    /\ n_className n = "notification error"
    /\ notification_text n = Some "请求失败，请重试".
Proof.
  apply (ajax_failure_notifies_once_and_rejects
           (Responded {| status := 500; json := Some (JObj []) |}) (HttpError 500)
           (loaded "" None None None)).
  apply (status_not_ok {| status := 500; json := Some (JObj []) |}). reflexivity.
Defined.

Section CartFacts.

Variable string_gt_zero : string -> bool.

(** C9: on a transport failure of [Utils.addToCart] exactly two error
    notifications are rendered, the generic one of [Utils.ajax] and then the
    one of [addToCart]'s own catch handler, before the callback is told and
    the promise rejects; with no callback it rejects with the error of the
    failure. *)
Theorem addToCart_failure_notifies_twice (callback : option Callback1) (o : FetchOutcome)
    (e : Error) (p : Page) :
  TransportFailure o e ->
  exists p2 n1 n2,
    notifications p2 = (notifications p ++ [(next_id p, n1); (S (next_id p), n2)])%list
    /\ n_className n1 = "notification error"
    /\ notification_text n1 = Some "请求失败，请重试"
    /\ n_className n2 = "notification error"
    /\ notification_text n2 = Some "添加失败，请重试"
    /\ addToCart_settle string_gt_zero callback o p
       = then_ (call callback (JBool false)) (fun _ => settled (Rejected e)) p2
    /\ addToCart_settle string_gt_zero None o p = (p2, Rejected e)
    /\ exists e', snd (addToCart_settle string_gt_zero callback o p) = Rejected e'.
Proof.
  intros Hfail.
  exists (showNotification "添加失败，请重试" "error"
            (showNotification "请求失败，请重试" "error" p)).
  exists (notification_node "请求失败，请重试" "error").
  exists (notification_node "添加失败，请重试" "error").
  assert (Hsettle : addToCart_settle string_gt_zero callback o p
    = then_ (call callback (JBool false)) (fun _ => settled (Rejected e))
        (showNotification "添加失败，请重试" "error"
           (showNotification "请求失败，请重试" "error" p))).
  { unfold addToCart_settle at 1, catch_ at 1, then_ at 1.
    by rewrite (ajax_settle_failure _ _ _ Hfail). }
  split.
  { rewrite !showNotification_appends, showNotification_next_id.
    by rewrite <- app_assoc. }
  do 4 (split; [reflexivity|]).
  split; [exact Hsettle|]. split.
  - unfold addToCart_settle at 1, catch_ at 1, then_ at 1.
    by rewrite (ajax_settle_failure _ _ _ Hfail).
  - rewrite Hsettle. unfold then_, settled.
    destruct (call callback (JBool false) _) as [q [[]|e']]; by eexists.
Qed.

End CartFacts.

Lemma addToCart_failure_notifies_twice_witness :
  exists p2 n1 n2,
    notifications p2
    = (notifications (loaded "" None None None) ++ [(0, n1); (1, n2)])%list
    /\ n_className n1 = "notification error"
    /\ notification_text n1 = Some "请求失败，请重试"
    /\ n_className n2 = "notification error"
    /\ notification_text n2 = Some "添加失败，请重试"
    /\ addToCart_settle (fun _ => false) None (Failed NetworkError) (loaded "" None None None)
       = then_ (call None (JBool false)) (fun _ => settled (Rejected NetworkError)) p2
    /\ addToCart_settle (fun _ => false) None (Failed NetworkError) (loaded "" None None None)
       = (p2, Rejected NetworkError)
    /\ exists e',
         snd (addToCart_settle (fun _ => false) None (Failed NetworkError)
                (loaded "" None None None)) = Rejected e'.
Proof.
  apply (addToCart_failure_notifies_twice (fun _ => false) None (Failed NetworkError)
           NetworkError (loaded "" None None None)).
  apply network_failed.
Defined.

(** ** Adding to the cart *)

Lemma addToCart_request_url p productId quantity :
  exists request,
    addToCart_request p productId quantity = Fulfilled request
    /\ r_url request = "/products/cart/add/" ++ js_to_string productId ++ "/".
Proof. apply ajax_request_total. Qed.

Section CartResponses.

Variable string_gt_zero : string -> bool.

(** [updateCartBadge] touches the badge only. *)
Lemma updateCartBadge_frame count p :
  notifications (updateCartBadge string_gt_zero count p) = notifications p
  /\ next_id (updateCartBadge string_gt_zero count p) = next_id p
  /\ cart_counter (updateCartBadge string_gt_zero count p) = cart_counter p.
Proof. unfold updateCartBadge. by destruct (cart_badge p). Qed.

Lemma success_notification_appended count p :
  notifications
    (showNotification "商品已添加到购物车" "success" (updateCartBadge string_gt_zero count p))
  = (notifications p ++ [(next_id p, notification_node "商品已添加到购物车" "success")])%list.
Proof.
  rewrite showNotification_appends.
  destruct (updateCartBadge_frame count p) as (-> & -> & _). reflexivity.
Qed.

(** The chain of [Utils.addToCart] on a parsed body whose [success] is
    truthy, with no callback. *)
Lemma addToCart_settle_success r response p :
  ok r = true -> json r = Some response ->
  js_nullish response = false -> js_truthy (js_prop "success" response) = true ->
  addToCart_settle string_gt_zero None (Responded r) p
  = (showNotification "商品已添加到购物车" "success"
       (updateCartBadge string_gt_zero (js_prop "cart_count" response) p),
     Fulfilled response).
Proof.
  intros Hok Hjson Hnull Htrue.
  unfold addToCart_settle, catch_ at 1, then_ at 1.
  rewrite (ajax_settle_success _ _ _ Hok Hjson), Hnull, Htrue. reflexivity.
Qed.

(** The same on a body whose [success] is falsy. *)
Lemma addToCart_settle_refused r response p :
  ok r = true -> json r = Some response ->
  js_nullish response = false -> js_truthy (js_prop "success" response) = false ->
  addToCart_settle string_gt_zero None (Responded r) p
  = (showNotification (js_to_string (js_or (js_prop "error" response) (JStr "添加失败")))
       "error" p,
     Fulfilled response).
Proof.
  intros Hok Hjson Hnull Hfalse.
  unfold addToCart_settle, catch_ at 1, then_ at 1.
  rewrite (ajax_settle_success _ _ _ Hok Hjson), Hnull, Hfalse. reflexivity.
Qed.

(** The chain on a successful response, up to the call of the callback. *)
Lemma addToCart_settle_called callback r response p :
  ok r = true -> json r = Some response ->
  js_nullish response = false -> js_truthy (js_prop "success" response) = true ->
  addToCart_settle string_gt_zero callback (Responded r) p
  = catch_
      (then_ (call callback (js_prop "success" response))
         (fun _ => settled (Fulfilled response)))
      (addToCart_failed callback)
      (showNotification "商品已添加到购物车" "success"
         (updateCartBadge string_gt_zero (js_prop "cart_count" response) p)).
Proof.
  intros Hok Hjson Hnull Htrue.
  unfold addToCart_settle, catch_ at 1, then_ at 1.
  rewrite (ajax_settle_success _ _ _ Hok Hjson), Hnull, Htrue. reflexivity.
Qed.

(** C5, as amended: when the response of [Utils.addToCart] indicates success,
    the cart badge, if the page has one, shows the [cart_count] of the
    response, whatever it showed before, and one success notification is
    rendered; the cart counter is not touched.  This is the page on which the
    callback, if there is one, is called with the response's [success]; the
    promise is fulfilled with the response when the callback returns, and a
    callback that throws is handed to the catch handler.  Reading the
    displayed integer and adding one is what [updateCartCounter] does to the
    [.cart-counter] element.  Numbers are within the integers that the
    language holds exactly. *)
Theorem addToCart_success_sets_badge_from_response (network : Request -> FetchOutcome)
    (productId : JSValue) (quantity : option Z) (callback : option Callback1)
    (r : Response) (response : JSValue) (p : Page) :
  (forall request,
     addToCart_request p productId quantity = Fulfilled request ->
     network request = Responded r) ->
  ok r = true -> json r = Some response ->
  js_nullish response = false -> js_truthy (js_prop "success" response) = true ->
  js_exact (js_prop "cart_count" response) ->
  (exists p1 n,
     cart_badge p1
     = (fun _ => {| b_textContent := text_of (js_prop "cart_count" response);
                    b_display := if js_gt_zero string_gt_zero (js_prop "cart_count" response)
                                 then "inline" else "none" |}) <$> cart_badge p
     /\ cart_counter p1 = cart_counter p
     /\ notifications p1 = (notifications p ++ [(next_id p, n)])%list
     /\ n_className n = "notification success"
     /\ notification_text n = Some "商品已添加到购物车"
     /\ addToCart string_gt_zero network productId quantity None p = (p1, Fulfilled response)
     /\ (forall p2, call callback (js_prop "success" response) p1 = (p2, Fulfilled tt) ->
           addToCart string_gt_zero network productId quantity callback p
           = (p2, Fulfilled response))
     /\ (forall p2 e, call callback (js_prop "success" response) p1 = (p2, Rejected e) ->
           addToCart string_gt_zero network productId quantity callback p
           = then_ (call callback (JBool false)) (fun _ => settled (Rejected e))
               (showNotification "添加失败，请重试" "error" p2)))
  /\ (forall counter,
        cart_counter p = Some counter ->
        let n := default 0%Z (parseInt (c_textContent counter)) in
        safe_integer n -> safe_integer (n + 1) ->
        cart_counter (updateCartCounter p)
        = Some {| c_textContent := pretty (n + 1)%Z; c_transform := "scale(1.3)" |}).
Proof.
  intros Hnetwork Hok Hjson Hnull Htrue _. split.
  - destruct (addToCart_request_url p productId quantity) as (request & Hrequest & _).
    unfold addToCart. rewrite Hrequest, (Hnetwork request Hrequest).
    exists (showNotification "商品已添加到购物车" "success"
              (updateCartBadge string_gt_zero (js_prop "cart_count" response) p)).
    exists (notification_node "商品已添加到购物车" "success").
    split; [|split; [|split; [apply success_notification_appended|]]].
    + unfold updateCartBadge. destruct (cart_badge p) eqn:Hb; simpl; by rewrite ?Hb.
    + apply (updateCartBadge_frame (js_prop "cart_count" response) p).
    + split; [reflexivity|]. split; [reflexivity|].
      split; [by apply addToCart_settle_success|].
      split.
      * intros p2 Hcall. rewrite (addToCart_settle_called _ _ _ _ Hok Hjson Hnull Htrue).
        unfold catch_, then_. by rewrite Hcall.
      * intros p2 e Hcall. rewrite (addToCart_settle_called _ _ _ _ Hok Hjson Hnull Htrue).
        unfold catch_, then_ at 1. by rewrite Hcall.
  - intros counter Hcounter n _ _. unfold updateCartCounter. by rewrite Hcounter.
Qed.

(** C6: [addToCart(42, 1)] against an endpoint that answers
    [{success: true, cart_count: 5}] makes the cart badge show 5, visibly,
    and renders exactly one notification, a success one. *)
Theorem addToCart_42_shows_5 (network : Request -> FetchOutcome) (r : Response)
    (p : Page) (badge : Badge) :
  let response := JObj [("success", JBool true); ("cart_count", JNum 5)] in
  ok r = true -> json r = Some response ->
  (forall request,
     r_url request = "/products/cart/add/42/" -> network request = Responded r) ->
  cart_badge p = Some badge ->
  exists p' n,
    addToCart string_gt_zero network (JNum 42) (Some 1%Z) None p = (p', Fulfilled response)
    /\ cart_badge p' = Some {| b_textContent := "5"; b_display := "inline" |}
    /\ notifications p' = (notifications p ++ [(next_id p, n)])%list
    /\ n_className n = "notification success"
    /\ notification_text n = Some "商品已添加到购物车".
Proof.
  intros response Hok Hjson Hnetwork Hbadge.
  destruct (addToCart_request_url p (JNum 42) (Some 1%Z)) as (request & Hrequest & Hurl).
  unfold addToCart. rewrite Hrequest, (Hnetwork request Hurl).
  rewrite (addToCart_settle_success _ response _ Hok Hjson eq_refl eq_refl).
  eexists _, _. split; [reflexivity|].
  split; [|split; [apply success_notification_appended | split; reflexivity]].
  unfold updateCartBadge. rewrite Hbadge. reflexivity.
Qed.

(** C7: [addToCart] against an endpoint that answers
    [{success: false, error: "out of stock"}] renders exactly one
    notification, an error one whose text is the server's message, and leaves
    the cart badge and the cart counter as they were. *)
Theorem addToCart_out_of_stock (network : Request -> FetchOutcome) (r : Response)
    (p : Page) (productId : JSValue) (quantity : option Z) :
  let response := JObj [("success", JBool false); ("error", JStr "out of stock")] in
  ok r = true -> json r = Some response ->
  (forall request, network request = Responded r) ->
  exists p' n,
    addToCart string_gt_zero network productId quantity None p = (p', Fulfilled response)
    /\ notifications p' = (notifications p ++ [(next_id p, n)])%list
    /\ n_className n = "notification error"
    /\ notification_text n = Some "out of stock"
    /\ cart_badge p' = cart_badge p
    /\ cart_counter p' = cart_counter p.
Proof.
  intros response Hok Hjson Hnetwork.
  destruct (addToCart_request_url p productId quantity) as (request & Hrequest & _).
  unfold addToCart. rewrite Hrequest, Hnetwork.
  rewrite (addToCart_settle_refused _ response _ Hok Hjson eq_refl eq_refl).
  eexists _, _. split; [reflexivity|].
  split; [apply showNotification_appends|]. repeat split; reflexivity.
Qed.

End CartResponses.

Lemma addToCart_success_sets_badge_from_response_witness :
  let response := JObj [("success", JBool true); ("cart_count", JNum 7)] in
  let network := fun _ : Request => Responded {| status := 200; json := Some response |} in
  let p := loaded "" None (Some {| b_textContent := "2"; b_display := "inline" |}) None in
  exists p1 n,
    cart_badge p1 = Some {| b_textContent := "7"; b_display := "inline" |}
    /\ notifications p1 = (notifications p ++ [(next_id p, n)])%list
    /\ notification_text n = Some "商品已添加到购物车"
    /\ addToCart (fun _ => false) network (JNum 42) (Some 1%Z) None p
       = (p1, Fulfilled response).
Proof.
  destruct (addToCart_success_sets_badge_from_response (fun _ => false)
           (fun _ => Responded
              {| status := 200;
                 json := Some (JObj [("success", JBool true); ("cart_count", JNum 7)]) |})
           (JNum 42) (Some 1%Z) None
           {| status := 200;
              json := Some (JObj [("success", JBool true); ("cart_count", JNum 7)]) |}
           (JObj [("success", JBool true); ("cart_count", JNum 7)])
           (loaded "" None (Some {| b_textContent := "2"; b_display := "inline" |}) None)
           ltac:(intros; reflexivity) eq_refl eq_refl eq_refl eq_refl
           ltac:(simpl; unfold safe_integer; lia))
    as [(p1 & n & Hbadge & _ & Hnotes & _ & Htext & Hsettle & _) _].
  exists p1, n. repeat split; assumption.
Defined.

(** C5, as stated, fails: a badge that shows 2 shows 5 after a successful
    [addToCart] whose response counts 5 items, not the 3 that reading and
    incrementing gives. *)
Lemma addToCart_does_not_increment_badge :
  let response := JObj [("success", JBool true); ("cart_count", JNum 5)] in
  let p := loaded "" None (Some {| b_textContent := "2"; b_display := "inline" |}) None in
  let p' := fst (addToCart (fun _ => false)
                   (fun _ => Responded {| status := 200; json := Some response |})
                   (JNum 42) (Some 1%Z) None p) in
  b_textContent <$> cart_badge p = Some "2"
  /\ b_textContent <$> cart_badge p' = Some "5"
  /\ pretty (default 0 (parseInt "2") + 1)%Z = "3".
Proof. repeat split; reflexivity. Qed.

Lemma addToCart_42_shows_5_witness :
  let response := JObj [("success", JBool true); ("cart_count", JNum 5)] in
  let p := loaded "csrftoken=abc123" None
             (Some {| b_textContent := "4"; b_display := "inline" |}) None in
  exists p' n,
    addToCart (fun _ => false)
      (fun _ => Responded {| status := 200; json := Some response |})
      (JNum 42) (Some 1%Z) None p = (p', Fulfilled response)
    /\ cart_badge p' = Some {| b_textContent := "5"; b_display := "inline" |}
    /\ notifications p' = (notifications p ++ [(next_id p, n)])%list
    /\ n_className n = "notification success"
    /\ notification_text n = Some "商品已添加到购物车".
Proof.
  apply (addToCart_42_shows_5 (fun _ => false)
           (fun _ => Responded
              {| status := 200;
                 json := Some (JObj [("success", JBool true); ("cart_count", JNum 5)]) |})
           {| status := 200;
              json := Some (JObj [("success", JBool true); ("cart_count", JNum 5)]) |}
           (loaded "csrftoken=abc123" None
              (Some {| b_textContent := "4"; b_display := "inline" |}) None)
           {| b_textContent := "4"; b_display := "inline" |});
    [reflexivity | reflexivity | intros; reflexivity | reflexivity].
Defined.

Lemma addToCart_out_of_stock_witness :
  let response := JObj [("success", JBool false); ("error", JStr "out of stock")] in
  let p := loaded "csrftoken=abc123" None
             (Some {| b_textContent := "4"; b_display := "inline" |}) None in
  exists p' n,
    addToCart (fun _ => false)
      (fun _ => Responded {| status := 200; json := Some response |})
      (JNum 42) (Some 1%Z) None p = (p', Fulfilled response)
    /\ notifications p' = (notifications p ++ [(next_id p, n)])%list
    /\ n_className n = "notification error"
    /\ notification_text n = Some "out of stock"
    /\ cart_badge p' = cart_badge p
    /\ cart_counter p' = cart_counter p.
Proof.
  apply (addToCart_out_of_stock (fun _ => false)
           (fun _ => Responded
              {| status := 200;
                 json := Some (JObj [("success", JBool false);
                                     ("error", JStr "out of stock")]) |})
           {| status := 200;
              json := Some (JObj [("success", JBool false); ("error", JStr "out of stock")]) |}
           (loaded "csrftoken=abc123" None
              (Some {| b_textContent := "4"; b_display := "inline" |}) None)
           (JNum 42) (Some 1%Z));
    [reflexivity | reflexivity | intros; reflexivity].
Defined.
(** ** The close button *)

#[local] Arguments String.append !s1 s2 : simpl nomatch.

Lemma append_snoc s c s' : Html.snoc s c ++ s' = s ++ String c s'.
Proof. unfold Html.snoc. induction s as [|a s IH]; simpl; [done | by f_equal]. Qed.

Lemma append_empty s : s ++ EmptyString = s.
Proof. induction s as [|a s IH]; simpl; [done | by f_equal]. Qed.

Lemma append_assoc' (a b c : string) : (a ++ b) ++ c = a ++ (b ++ c).
Proof. induction a as [|x a IH]; simpl; [done | by f_equal]. Qed.

Lemma feed_app t s1 s2 : Html.feed t (s1 ++ s2) = Html.feed (Html.feed t s1) s2.
Proof. revert t. induction s1 as [|c s1 IH]; intros t; simpl; [done | apply IH]. Qed.

(** Character data without special characters is taken as it is. *)
Lemma feed_plain s text out :
  plain_text s = true ->
  Html.feed (Some {| Html.mode := Html.Data; Html.pending := text; Html.emitted := out |}) s
  = Some {| Html.mode := Html.Data; Html.pending := text ++ s; Html.emitted := out |}.
Proof.
  revert text. induction s as [|c s IH]; intros text Hplain.
  - simpl. by rewrite append_empty.
  - simpl in Hplain. apply andb_true_iff in Hplain as [Hc Hs].
    apply negb_true_iff in Hc. unfold special in Hc.
    apply orb_false_iff in Hc as [Hc H0]. apply orb_false_iff in Hc as [Hc H13].
    apply orb_false_iff in Hc as [H60 H38].
    simpl. unfold Html.next, Html.data_char. simpl. rewrite H60, H38, H13, H0. simpl.
    rewrite (IH _ Hs). by rewrite append_snoc.
Qed.

Lemma notification_html_split message :
  notification_html message = notification_before ++ message ++ notification_after.
Proof. reflexivity. Qed.

(** Around a message without markup the button is where the template puts
    it. *)
Lemma close_button_plain message type :
  plain_text message = true ->
  close_button_depth (notification_node message type) = Some 2.
Proof.
  intros Hplain.
  unfold close_button_depth, notification_node, Html.parse, Html.tokenize.
  cbn [n_innerHTML]. rewrite notification_html_split, !feed_app.
  set (st := Html.feed _ notification_before). vm_compute in st. subst st.
  rewrite (feed_plain _ _ _ Hplain).
  destruct message as [|c message]; vm_compute; reflexivity.
Qed.

#[local] Arguments String.append : simpl never.

(** ** Timers and removal *)

Lemma existsb_eqb_In id l : existsb (Nat.eqb id) l = true <-> In id l.
Proof.
  rewrite existsb_exists. split.
  - intros (x & Hin & Heq). apply Nat.eqb_eq in Heq. by subst.
  - intros Hin. exists id. split; [done | apply Nat.eqb_refl].
Qed.

Lemma attached_ids k id p : attached k id p = true <-> In id (ids k p).
Proof. destruct k; apply existsb_eqb_In. Qed.

Lemma ids_without {A : Type} id x (l : list (nat * A)) :
  In x (map fst (without id l)) <-> In x (map fst l) /\ x <> id.
Proof.
  unfold without. rewrite !in_map_iff. split.
  - intros ([y a] & <- & Hin). apply filter_In in Hin as [Hin Hne]. simpl in *.
    split; [by exists (y, a)|]. intros ->. by rewrite Nat.eqb_refl in Hne.
  - intros (([y a] & <- & Hin) & Hne). exists (y, a). split; [done|].
    apply filter_In. split; [done|]. simpl in *.
    apply negb_true_iff, Nat.eqb_neq. congruence.
Qed.

Lemma In_enqueue e e' ts : In e (enqueue e' ts) <-> e = e' \/ In e ts.
Proof.
  induction ts as [|t ts IH]; simpl.
  - intuition.
  - destruct (fst t <=? fst e')%nat; simpl; rewrite ?IH; intuition.
Qed.

(** Looking a notification up by its number. *)
Lemma find_In {A : Type} id (l : list (nat * A)) :
  In id (map fst l) <-> is_Some (List.find (fun e => Nat.eqb id (fst e)) l).
Proof.
  induction l as [|[y a] l IH]; simpl.
  - split; [done | by intros [? ?]].
  - destruct (Nat.eqb_spec id y) as [-> | Hne].
    + split; [eauto | by left].
    + rewrite <- IH. split; [intros [? | ?]; [congruence | done] | by right].
Qed.

Lemma find_snoc {A : Type} id y (a : A) (l : list (nat * A)) :
  id <> y ->
  List.find (fun e => Nat.eqb id (fst e)) (l ++ [(y, a)])
  = List.find (fun e => Nat.eqb id (fst e)) l.
Proof.
  intros Hne. induction l as [|[z b] l IH]; simpl.
  - by destruct (Nat.eqb_spec id y).
  - by destruct (Nat.eqb id z).
Qed.

Lemma find_snoc_new {A : Type} id (a : A) (l : list (nat * A)) :
  ~ In id (map fst l) ->
  List.find (fun e => Nat.eqb id (fst e)) (l ++ [(id, a)]) = Some (id, a).
Proof.
  induction l as [|[z b] l IH]; simpl; intros Hout.
  - by rewrite Nat.eqb_refl.
  - destruct (Nat.eqb_spec id z) as [-> | Hne]; [exfalso; apply Hout; by left|].
    apply IH. intros Hin. apply Hout. by right.
Qed.

Lemma find_without {A : Type} id y (l : list (nat * A)) :
  id <> y ->
  List.find (fun e => Nat.eqb id (fst e)) (without y l)
  = List.find (fun e => Nat.eqb id (fst e)) l.
Proof.
  intros Hne. unfold without. induction l as [|[z b] l IH]; simpl; [done|].
  destruct (Nat.eqb_spec y z) as [<- | Hyz]; simpl.
  - by destruct (Nat.eqb_spec id y).
  - by destruct (Nat.eqb id z).
Qed.

Lemma node_of_same id p p' : notifications p' = notifications p -> node_of id p' = node_of id p.
Proof. unfold node_of. by intros ->. Qed.

Lemma Grows_id : Grows (fun p => p).
Proof. intros p. repeat split; auto. Qed.

Lemma Grows_compose f g : Grows f -> Grows g -> Grows (fun p => g (f p)).
Proof.
  intros Hf Hg p.
  destruct (Hf p) as (Hn & Hc & Ht & Hi & Hk), (Hg (f p)) as (Hn' & Hc' & Ht' & Hi' & Hk').
  repeat split.
  - lia.
  - congruence.
  - auto.
  - intros k x Hx. destruct (Hi' k x Hx) as [Hx' | Hx']; [auto | right; lia].
  - intros x Hlt Hx. rewrite Hk'; [|lia|done]. apply Hk; [done|].
    destruct (Hi' Inline x Hx) as [Hx' | Hx']; [done | lia].
Qed.

Lemma Grows_showNotification message type : Grows (showNotification message type).
Proof.
  intros p. repeat split; simpl; [lia | | |].
  - intros e He. apply In_enqueue. by right.
  - intros [] x; simpl; [|by left].
    rewrite map_app, in_app_iff. simpl. intros [Hx | [<- | []]]; [by left | by right].
  - intros x Hlt _. unfold node_of. simpl. rewrite find_snoc; [done | lia].
Qed.

Lemma showToast_appends message type p :
  toasts (showToast message type p)
  = (toasts p ++ [(next_id p, toast_node message type)])%list.
Proof.
  unfold showToast, toasts.
  destruct (toast_container p) eqn:Hc; simpl; rewrite ?Hc; reflexivity.
Qed.

(** [showToast] touches the container and nothing else: it sets no timer. *)
Lemma showToast_frame message type p :
  notifications (showToast message type p) = notifications p
  /\ next_id (showToast message type p) = S (next_id p)
  /\ now (showToast message type p) = now p
  /\ timers (showToast message type p) = timers p
  /\ remove_calls (showToast message type p) = remove_calls p.
Proof. unfold showToast. by destruct (toast_container p). Qed.

Lemma Grows_showToast message type : Grows (showToast message type).
Proof.
  intros p.
  destruct (showToast_frame message type p) as (Hnotes & Hnext & Hnow & Htimers & _).
  pose proof (showToast_appends message type p) as Htoasts.
  repeat split.
  - lia.
  - done.
  - intros e He. by rewrite Htimers.
  - intros [] x; unfold ids.
    + rewrite Hnotes. by left.
    + rewrite Htoasts, map_app, in_app_iff. simpl.
      intros [Hx | [<- | []]]; [by left | by right].
  - intros x _ _. by apply node_of_same.
Qed.

Lemma ids_remove_notification k id x p :
  In x (ids k (remove_notification id p)) -> In x (ids k p).
Proof. destruct k; simpl; [|done]. intros Hx. by apply ids_without in Hx as [Hx _]. Qed.

Lemma ids_toast_hidden id x p :
  In x (ids Transient (toast_hidden id p)) <-> In x (ids Transient p) /\ x <> id.
Proof.
  unfold toast_hidden, remove_toast, ids, toasts. simpl.
  destruct (toast_container p); simpl; [apply ids_without | tauto].
Qed.

Lemma Grows_remove_notification id : Grows (remove_notification id).
Proof.
  intros p. repeat split; auto.
  - intros k x Hx. left. by apply ids_remove_notification in Hx.
  - intros x _ Hx. simpl in Hx. apply ids_without in Hx as [_ Hne].
    unfold node_of. simpl. by rewrite find_without.
Qed.

Lemma Grows_auto_close id : Grows (auto_close id).
Proof.
  intros p. unfold auto_close.
  destruct (notification_attached id p); [apply Grows_remove_notification | apply Grows_id].
Qed.

(** A click that has a result removes the notification, which was in the
    page, and does nothing else. *)
Lemma click_close_result id p q :
  click_close id p = Some q -> q = remove_notification id p /\ In id (ids Inline p).
Proof.
  unfold click_close. intros Hq. split.
  - destruct (List.find _ _) as [[? n]|]; [|done].
    destruct (close_button_depth n) as [[|[|[|?]]]|]; congruence.
  - apply find_In. by destruct (List.find _ _).
Qed.

Lemma click_close_node id n p :
  node_of id p = Some n -> close_button_depth n = Some 2 ->
  click_close id p = Some (remove_notification id p).
Proof.
  unfold node_of, click_close. intros Hn Hd.
  destruct (List.find _ _) as [[? n']|]; simpl in Hn; [|done].
  injection Hn as ->. by rewrite Hd.
Qed.

Lemma Grows_click_close id : Grows (fun p => default p (click_close id p)).
Proof.
  intros p. destruct (click_close id p) as [q|] eqn:Hq; simpl; [|apply Grows_id].
  apply click_close_result in Hq as [-> _]. apply Grows_remove_notification.
Qed.

Lemma without_twice {A : Type} id (l : list (nat * A)) :
  without id (without id l) = without id l.
Proof.
  unfold without. induction l as [|[y a] l IH]; simpl; [done|].
  destruct (Nat.eqb id y) eqn:Hy; simpl; rewrite ?Hy; simpl; by rewrite IH.
Qed.

(** A second [hidden.bs.toast] finds nothing to remove. *)
Lemma toast_hidden_twice id p : toast_hidden id (toast_hidden id p) = toast_hidden id p.
Proof.
  unfold toast_hidden, remove_toast, set_toast_container. cbn [toast_container cookie
    csrf_field notifications cart_badge cart_counter timers now next_id remove_calls].
  destruct (toast_container p) as [l|]; cbn [fmap option_fmap option_map]; [|done].
  by rewrite without_twice.
Qed.

Lemma Grows_toast_hidden id : Grows (toast_hidden id).
Proof.
  intros p. repeat split; auto.
  intros [] x Hx; left; [done|]. by apply ids_toast_hidden in Hx as [Hx _].
Qed.

Lemma Grows_updateCartCounter : Grows updateCartCounter.
Proof.
  intros p. unfold updateCartCounter. destruct (cart_counter p); [|apply Grows_id].
  repeat split; simpl; auto.
  intros e He. apply In_enqueue. by right.
Qed.

Lemma Grows_ajax_settle o : Grows (fun p => fst (ajax_settle o p)).
Proof.
  intros p. unfold ajax_settle, catch_, then_, fetch, settled.
  destruct o as [e | r]; simpl; [apply Grows_showNotification|].
  destruct (ok r); simpl; [|apply Grows_showNotification].
  destruct (json r); simpl; [apply Grows_id | apply Grows_showNotification].
Qed.

Lemma Adds_id : Adds (fun p => p).
Proof. intros p. repeat split; auto. Qed.

Lemma Adds_compose f g : Adds f -> Adds g -> Adds (fun p => g (f p)).
Proof.
  intros Hf Hg p. destruct (Hf p) as (Hn & Hi & Ht), (Hg (f p)) as (Hn' & Hi' & Ht').
  split; [lia|]. split; [auto|].
  intros d x Hx. destruct (Ht' d x Hx) as [Hx' | Hx']; [|right; lia].
  destruct (Ht d x Hx') as [Hx'' | Hx'']; [by left | right; lia].
Qed.

Lemma Adds_showNotification message type : Adds (showNotification message type).
Proof.
  intros p. split; [simpl; lia|]. split.
  - intros [] x Hx; simpl; [|done]. rewrite map_app, in_app_iff. by left.
  - intros d x Hx. simpl in Hx. apply In_enqueue in Hx as [Hx | Hx]; [|by left].
    right. injection Hx as _ ->. simpl. lia.
Qed.

Lemma Adds_showToast message type : Adds (showToast message type).
Proof.
  intros p.
  destruct (showToast_frame message type p) as (Hnotes & Hnext & _ & Htimers & _).
  pose proof (showToast_appends message type p) as Htoasts.
  split; [lia|]. split.
  - intros [] x Hx; unfold ids in *.
    + by rewrite Hnotes.
    + rewrite Htoasts, map_app, in_app_iff. by left.
  - intros d x Hx. left. by rewrite Htimers in Hx.
Qed.

Lemma Adds_updateCartCounter : Adds updateCartCounter.
Proof.
  intros p. unfold updateCartCounter. destruct (cart_counter p); [|apply Adds_id].
  split; [done|]. split; [by intros []|].
  intros d x Hx. simpl in Hx. apply In_enqueue in Hx as [Hx | Hx]; [discriminate | by left].
Qed.

Lemma Adds_ajax_settle o : Adds (fun p => fst (ajax_settle o p)).
Proof.
  intros p. unfold ajax_settle, catch_, then_, fetch, settled.
  destruct o as [e | r]; simpl; [apply Adds_showNotification|].
  destruct (ok r); simpl; [|apply Adds_showNotification].
  destruct (json r); simpl; [apply Adds_id | apply Adds_showNotification].
Qed.

Section Loop.

Variable string_gt_zero : string -> bool.

Lemma Grows_updateCartBadge count : Grows (updateCartBadge string_gt_zero count).
Proof.
  intros p. unfold updateCartBadge. destruct (cart_badge p); [|apply Grows_id].
  repeat split; simpl; auto.
Qed.

Lemma Adds_updateCartBadge count : Adds (updateCartBadge string_gt_zero count).
Proof.
  intros p. unfold updateCartBadge. destruct (cart_badge p); [|apply Adds_id].
  split; [done|]. split; [by intros []|]. intros d x Hx. by left.
Qed.

(** The page after the chain of [addToCart] without a callback: one
    notification after the badge, one notification, or two. *)
Lemma addToCart_settle_page o p :
  (exists m count,
     fst (addToCart_settle string_gt_zero None o p)
     = showNotification m "success" (updateCartBadge string_gt_zero count p))
  \/ (exists m, fst (addToCart_settle string_gt_zero None o p) = showNotification m "error" p)
  \/ (exists m1 m2,
        fst (addToCart_settle string_gt_zero None o p)
        = showNotification m2 "error" (showNotification m1 "error" p)).
Proof.
  unfold addToCart_settle, catch_ at 1, then_ at 1.
  unfold ajax_settle, catch_, then_, fetch, settled.
  destruct o as [e | r]; simpl; [right; right; by eexists _, _|].
  destruct (ok r); simpl; [|right; right; by eexists _, _].
  destruct (json r) as [response|]; simpl; [|right; right; by eexists _, _].
  destruct (js_nullish response); simpl; [right; left; by eexists|].
  destruct (js_truthy (js_prop "success" response)); simpl.
  - left. by eexists _, _.
  - right; left. by eexists.
Qed.

Lemma Grows_addToCart_settle o :
  Grows (fun p => fst (addToCart_settle string_gt_zero None o p)).
Proof.
  intros p.
  destruct (addToCart_settle_page o p) as [(m & c & ->) | [(m & ->) | (m1 & m2 & ->)]].
  - apply (Grows_compose _ _ (Grows_updateCartBadge c) (Grows_showNotification m "success")).
  - apply Grows_showNotification.
  - apply (Grows_compose _ _ (Grows_showNotification m1 "error")
             (Grows_showNotification m2 "error")).
Qed.

Lemma Adds_addToCart_settle o :
  Adds (fun p => fst (addToCart_settle string_gt_zero None o p)).
Proof.
  intros p.
  destruct (addToCart_settle_page o p) as [(m & c & ->) | [(m & ->) | (m1 & m2 & ->)]].
  - apply (Adds_compose _ _ (Adds_updateCartBadge c) (Adds_showNotification m "success")).
  - apply Adds_showNotification.
  - apply (Adds_compose _ _ (Adds_showNotification m1 "error")
             (Adds_showNotification m2 "error")).
Qed.

Lemma Grows_Scheduled f id due p :
  Grows f -> Scheduled id due p -> Scheduled id due (f p).
Proof.
  intros Hf [Hlt Hsched]. destruct (Hf p) as (Hn & Hc & Ht & Hi & _). split; [lia|].
  intros Hin. destruct (Hi Inline id Hin) as [Hin' | Hge]; [|lia].
  destruct (Hsched Hin') as [Htimer Hnow]. split; [auto | lia].
Qed.

(** A timer that fires neither creates a node nor touches the queue, the
    toasts or the markup of a notification. *)
Lemma fire_frame q e :
  next_id (fire q e) = next_id q
  /\ timers (fire q e) = timers q
  /\ toast_container (fire q e) = toast_container q
  /\ (forall k x, In x (ids k (fire q e)) -> In x (ids k q))
  /\ (forall x, In x (ids Inline (fire q e)) -> node_of x (fire q e) = node_of x q).
Proof.
  destruct e as [d cb]. unfold fire. simpl.
  destruct cb as [id | ]; simpl.
  - destruct (Grows_auto_close id (set_now d q)) as (_ & _ & _ & Hi & Hk).
    unfold auto_close in *. destruct (notification_attached id _); [|done].
    repeat split.
    + intros k x Hx. by apply ids_remove_notification in Hx.
    + intros x Hx. simpl in Hx. apply ids_without in Hx as [_ Hne].
      unfold node_of. simpl. by rewrite find_without.
  - unfold scale_back. by destruct (cart_counter _).
Qed.

(** The closing callback of a notification takes it out of the page. *)
Lemma remove_notification_gone id p :
  notification_attached id (remove_notification id p) = false.
Proof.
  apply not_true_is_false. intros Hin. apply (attached_ids Inline) in Hin.
  simpl in Hin. by apply ids_without in Hin as [_ Hne].
Qed.

Lemma auto_close_gone id p : notification_attached id (auto_close id p) = false.
Proof.
  unfold auto_close. destruct (notification_attached id p) eqn:Hatt; [|done].
  apply remove_notification_gone.
Qed.

(** The listener takes the toast out of the container. *)
Lemma toast_hidden_gone id p : toast_attached id (toast_hidden id p) = false.
Proof.
  apply not_true_is_false. intros Hin. apply (attached_ids Transient) in Hin.
  by apply ids_toast_hidden in Hin as [_ Hne].
Qed.

Lemma fire_closer id d q : ~ In id (ids Inline (fire q (d, AutoClose id))).
Proof.
  intros Hin. apply (attached_ids Inline) in Hin. unfold fire in Hin. simpl in Hin.
  by rewrite auto_close_gone in Hin.
Qed.

Lemma fire_all_frame l q :
  next_id (fold_left fire l q) = next_id q
  /\ timers (fold_left fire l q) = timers q
  /\ toast_container (fold_left fire l q) = toast_container q
  /\ (forall k x, In x (ids k (fold_left fire l q)) -> In x (ids k q))
  /\ (forall x, In x (ids Inline (fold_left fire l q)) ->
        node_of x (fold_left fire l q) = node_of x q).
Proof.
  revert q. induction l as [|e l IH]; intros q; simpl; [done|].
  destruct (IH (fire q e)) as (Hn & Ht & Hc & Hi & Hk),
    (fire_frame q e) as (Hn' & Ht' & Hc' & Hi' & Hk').
  repeat split; [congruence | congruence | congruence | auto |].
  intros x Hx. rewrite Hk; [|done]. apply Hk'. by apply Hi.
Qed.

Lemma fire_all_closer id d l q :
  In (d, AutoClose id) l -> ~ In id (ids Inline (fold_left fire l q)).
Proof.
  revert q. induction l as [|e l IH]; intros q; simpl; [done|].
  intros [-> | Hin]; [|by apply IH].
  intros Hid. destruct (fire_all_frame l (fire q (d, AutoClose id))) as (_ & _ & _ & Hi & _).
  apply (Hi Inline) in Hid. by apply fire_closer in Hid.
Qed.

(** A notification stays when the timers that fire are those of others. *)
Lemma fire_all_stays id l q :
  (forall d, ~ In (d, AutoClose id) l) ->
  In id (ids Inline q) -> In id (ids Inline (fold_left fire l q)).
Proof.
  revert q. induction l as [|[d cb] l IH]; intros q Hl Hin; simpl; [done|].
  apply IH; [intros d' Hd'; apply (Hl d'); by right|].
  unfold fire. simpl. destruct cb as [x|]; simpl.
  - unfold auto_close. destruct (notification_attached x _); [|done].
    simpl. apply ids_without. split; [done|]. intros ->. apply (Hl d). by left.
  - unfold scale_back. by destruct (cart_counter _).
Qed.

Lemma advance_now dt p : now (advance dt p) = now p + dt.
Proof. reflexivity. Qed.

Lemma advance_next_id dt p : next_id (advance dt p) = next_id p.
Proof. unfold advance. simpl. by destruct (fire_all_frame
  (List.filter (fun e => (fst e <=? now p + dt)%nat) (timers p))
  (set_timers (List.filter (fun e => negb (fst e <=? now p + dt)%nat) (timers p)) p))
  as (-> & _). Qed.

(** The timers that are left after [dt] milliseconds are those that were due
    later. *)
Lemma advance_timers e dt p :
  In e (timers (advance dt p)) <-> In e (timers p) /\ now p + dt < fst e.
Proof.
  unfold advance. simpl.
  destruct (fire_all_frame
    (List.filter (fun e => (fst e <=? now p + dt)%nat) (timers p))
    (set_timers (List.filter (fun e => negb (fst e <=? now p + dt)%nat) (timers p)) p))
    as (_ & -> & _).
  simpl. rewrite filter_In, negb_true_iff, Nat.leb_gt. tauto.
Qed.

Lemma advance_Scheduled dt id due p :
  Scheduled id due p -> Scheduled id due (advance dt p).
Proof.
  intros [Hlt Hsched]. split; [by rewrite advance_next_id|].
  intros Hin.
  assert (Hin' : In id (ids Inline p)).
  { unfold advance in Hin. simpl in Hin.
    by destruct (fire_all_frame
      (List.filter (fun e => (fst e <=? now p + dt)%nat) (timers p))
      (set_timers (List.filter (fun e => negb (fst e <=? now p + dt)%nat) (timers p)) p))
      as (_ & _ & _ & Hi & _); apply (Hi Inline) in Hin. }
  destruct (Hsched Hin') as [Htimer Hnow].
  destruct (Nat.leb_spec due (now p + dt)) as [Hle | Hgt].
  - exfalso. unfold advance in Hin. simpl in Hin.
    apply (fire_all_closer id due) in Hin; [done|].
    apply filter_In. split; [done|]. simpl. by apply Nat.leb_le.
  - split; [|by rewrite advance_now]. apply advance_timers. by split.
Qed.

Lemma step_Scheduled a id due p :
  Scheduled id due p -> Scheduled id due (step string_gt_zero p a).
Proof.
  destruct a; simpl.
  - apply Grows_Scheduled, Grows_showNotification.
  - apply Grows_Scheduled, Grows_showToast.
  - apply (Grows_Scheduled _ _ _ _ (Grows_click_close id0)).
  - apply Grows_Scheduled, Grows_toast_hidden.
  - apply advance_Scheduled.
  - apply (Grows_Scheduled _ _ _ _ (Grows_ajax_settle o)).
  - apply (Grows_Scheduled _ _ _ _ (Grows_addToCart_settle o)).
  - apply Grows_Scheduled, Grows_updateCartCounter.
Qed.

Lemma Grows_now f p : Grows f -> now (f p) = now p.
Proof. intros Hf. apply Hf. Qed.

Lemma step_now a p :
  now (step string_gt_zero p a) = now p + match a with Wait dt => dt | _ => 0 end.
Proof.
  destruct a; unfold step; rewrite ?Nat.add_0_r.
  - apply (Grows_now _ _ (Grows_showNotification message type)).
  - apply (Grows_now _ _ (Grows_showToast message type)).
  - apply (Grows_now _ _ (Grows_click_close id)).
  - apply (Grows_now _ _ (Grows_toast_hidden id)).
  - apply advance_now.
  - apply (Grows_now _ _ (Grows_ajax_settle o)).
  - apply (Grows_now _ _ (Grows_addToCart_settle o)).
  - apply (Grows_now _ _ Grows_updateCartCounter).
Qed.

Lemma run_Scheduled actions id due p :
  Scheduled id due p -> Scheduled id due (run string_gt_zero actions p).
Proof.
  revert p. induction actions as [|a actions IH]; intros p Hp; simpl; [done|].
  apply IH. by apply step_Scheduled.
Qed.

Lemma run_now actions p : now (run string_gt_zero actions p) = now p + elapsed actions.
Proof.
  revert p. induction actions as [|a actions IH]; intros p.
  - unfold run, elapsed. simpl. lia.
  - change (run string_gt_zero (a :: actions) p)
      with (run string_gt_zero actions (step string_gt_zero p a)).
    rewrite IH, step_now. unfold elapsed. simpl. lia.
Qed.

(** A notification whose closing callback is due at [due] is out of the page
    once the clock has reached [due], whatever else happened. *)
Lemma Scheduled_gone actions id due p :
  Scheduled id due p -> due <= now p + elapsed actions ->
  notification_attached id (run string_gt_zero actions p) = false.
Proof.
  intros Hp Hdue. apply (run_Scheduled actions) in Hp as [_ Hsched].
  destruct (notification_attached id _) eqn:Hatt; [|done].
  apply (attached_ids Inline) in Hatt. destruct (Hsched Hatt) as [_ Hnow].
  rewrite run_now in Hnow. lia.
Qed.

Lemma showNotification_Scheduled message type p :
  Scheduled (next_id p) (now p + 5000) (showNotification message type p).
Proof.
  split; [simpl; lia|]. intros _. split; [|simpl; lia].
  simpl. apply In_enqueue. by left.
Qed.

(** The closing callbacks in the queue of a page that was loaded and used
    are for notifications that were created. *)
Lemma Adds_Timed f p : Adds f -> Timed p -> Timed (f p).
Proof.
  intros Hf Hp d x Hx. destruct (Hf p) as (Hn & _ & Ht).
  destruct (Ht d x Hx) as [Hx' | Hx']; [|lia]. apply Hp in Hx'. lia.
Qed.

Lemma step_Timed a p : Timed p -> Timed (step string_gt_zero p a).
Proof.
  destruct a; simpl.
  - apply Adds_Timed, Adds_showNotification.
  - apply Adds_Timed, Adds_showToast.
  - intros Hp. destruct (click_close id p) as [q|] eqn:Hq; simpl; [|done].
    apply click_close_result in Hq as [-> _]. exact Hp.
  - intros Hp. exact Hp.
  - intros Hp d x Hx. rewrite advance_next_id. apply advance_timers in Hx as [Hx _].
    by apply (Hp d).
  - apply (Adds_Timed _ _ (Adds_ajax_settle o)).
  - apply (Adds_Timed _ _ (Adds_addToCart_settle o)).
  - apply Adds_Timed, Adds_updateCartCounter.
Qed.

Lemma run_Timed actions p : Timed p -> Timed (run string_gt_zero actions p).
Proof.
  revert p. induction actions as [|a actions IH]; intros p Hp; simpl; [done|].
  apply IH. by apply step_Timed.
Qed.

Lemma loaded_Timed cookie field badge counter : Timed (loaded cookie field badge counter).
Proof. by intros d x. Qed.

(** Until its own timer is due, a notification that nobody closes stays. *)
Lemma Adds_Waiting f id due p :
  Adds f -> Grows f -> Waiting id due p -> Waiting id due (f p).
Proof.
  intros Hf Hg (Hlt & Hin & Hd & Hnow).
  destruct (Hf p) as (Hn & Hi & Ht), (Hg p) as (_ & Hc & _).
  split; [lia|]. split; [auto|]. split; [|lia].
  intros d Hx. destruct (Ht d id Hx) as [Hx' | Hx']; [auto | lia].
Qed.

Lemma step_Waiting a id due p :
  a <> ClickClose id ->
  now p + match a with Wait dt => dt | _ => 0 end < due ->
  Waiting id due p -> Waiting id due (step string_gt_zero p a).
Proof.
  intros Ha Hdue Hp. destruct a; simpl.
  - apply Adds_Waiting; [apply Adds_showNotification | apply Grows_showNotification | done].
  - apply Adds_Waiting; [apply Adds_showToast | apply Grows_showToast | done].
  - destruct (click_close id0 p) as [q|] eqn:Hq; simpl; [|done].
    apply click_close_result in Hq as [-> _].
    destruct Hp as (Hlt & Hin & Hd & Hnow). repeat split; try done.
    simpl. apply ids_without. split; [done|]. congruence.
  - destruct Hp as (Hlt & Hin & Hd & Hnow). by repeat split.
  - destruct Hp as (Hlt & Hin & Hd & Hnow). split; [by rewrite advance_next_id|].
    split; [|split].
    + unfold advance. simpl. apply fire_all_stays; [|done].
      intros d Hx. apply filter_In in Hx as [Hx Hle]. simpl in Hle.
      apply Nat.leb_le in Hle. apply Hd in Hx. lia.
    + intros d Hx. apply advance_timers in Hx as [Hx _]. by apply Hd.
    + by rewrite advance_now.
  - apply (Adds_Waiting _ _ _ _ (Adds_ajax_settle o) (Grows_ajax_settle o) Hp).
  - apply (Adds_Waiting _ _ _ _ (Adds_addToCart_settle o) (Grows_addToCart_settle o) Hp).
  - apply Adds_Waiting; [apply Adds_updateCartCounter | apply Grows_updateCartCounter | done].
Qed.

Lemma run_Waiting actions id due p :
  ~ In (ClickClose id) actions -> now p + elapsed actions < due ->
  Waiting id due p -> Waiting id due (run string_gt_zero actions p).
Proof.
  revert p. induction actions as [|a actions IH]; intros p Hclick Hdue Hp; [done|].
  change (run string_gt_zero (a :: actions) p)
    with (run string_gt_zero actions (step string_gt_zero p a)).
  assert (Hsplit : elapsed (a :: actions)
                   = match a with Wait dt => dt | _ => 0 end + elapsed actions) by done.
  rewrite Hsplit in Hdue.
  apply IH.
  - intros Hin. apply Hclick. by right.
  - rewrite step_now. lia.
  - apply step_Waiting; [|lia|done]. intros ->. apply Hclick. by left.
Qed.

Lemma showNotification_Waiting message type p :
  Timed p -> Waiting (next_id p) (now p + 5000) (showNotification message type p).
Proof.
  intros Hp. split; [simpl; lia|]. split; [|split; [|simpl; lia]].
  - simpl. rewrite map_app, in_app_iff. right. by left.
  - intros d Hx. simpl in Hx. apply In_enqueue in Hx as [Hx | Hx]; [congruence|].
    apply Hp in Hx. lia.
Qed.

Lemma Adds_stays f k x p : Adds f -> In x (ids k p) -> In x (ids k (f p)).
Proof. intros Hf. apply (Hf p). Qed.

(** A toast stays until the component reports it hidden. *)
Lemma step_toast_stays a id p :
  a <> ToastHidden id ->
  In id (ids Transient p) -> In id (ids Transient (step string_gt_zero p a)).
Proof.
  intros Ha Hin. destruct a; simpl.
  - exact (Adds_stays _ Transient _ _ (Adds_showNotification message type) Hin).
  - exact (Adds_stays _ Transient _ _ (Adds_showToast message type) Hin).
  - destruct (click_close id0 p) as [q|] eqn:Hq; simpl; [|done].
    by apply click_close_result in Hq as [-> _].
  - apply ids_toast_hidden. split; [done|]. congruence.
  - unfold advance, toasts. simpl.
    by destruct (fire_all_frame
      (List.filter (fun e => (fst e <=? now p + dt)%nat) (timers p))
      (set_timers (List.filter (fun e => negb (fst e <=? now p + dt)%nat) (timers p)) p))
      as (_ & _ & -> & _).
  - exact (Adds_stays _ Transient _ _ (Adds_ajax_settle o) Hin).
  - exact (Adds_stays _ Transient _ _ (Adds_addToCart_settle o) Hin).
  - exact (Adds_stays _ Transient _ _ Adds_updateCartCounter Hin).
Qed.

Lemma run_toast_stays actions id p :
  ~ In (ToastHidden id) actions ->
  In id (ids Transient p) -> In id (ids Transient (run string_gt_zero actions p)).
Proof.
  revert p. induction actions as [|a actions IH]; intros p Hhid Hin; [done|].
  change (run string_gt_zero (a :: actions) p)
    with (run string_gt_zero actions (step string_gt_zero p a)).
  apply IH; [intros Hin'; apply Hhid; by right|].
  apply step_toast_stays; [|done]. intros ->. apply Hhid. by left.
Qed.

(** The markup of a notification stays what it was made as. *)
Lemma Grows_Shows f id n p : Grows f -> Shows id n p -> Shows id n (f p).
Proof.
  intros Hf [Hlt Hn]. destruct (Hf p) as (Hnx & _ & _ & Hi & Hk). split; [lia|].
  intros Hin. rewrite Hk; [|done|done]. apply Hn.
  destruct (Hi Inline id Hin) as [Hin' | Hge]; [done | lia].
Qed.

Lemma advance_Shows dt id n p : Shows id n p -> Shows id n (advance dt p).
Proof.
  intros [Hlt Hn]. split; [by rewrite advance_next_id|]. intros Hin.
  destruct (fire_all_frame
    (List.filter (fun e => (fst e <=? now p + dt)%nat) (timers p))
    (set_timers (List.filter (fun e => negb (fst e <=? now p + dt)%nat) (timers p)) p))
    as (_ & _ & _ & Hi & Hk).
  transitivity (node_of id p); [exact (Hk id Hin) | apply Hn; exact (Hi Inline id Hin)].
Qed.

Lemma step_Shows a id n p : Shows id n p -> Shows id n (step string_gt_zero p a).
Proof.
  destruct a; simpl.
  - apply Grows_Shows, Grows_showNotification.
  - apply Grows_Shows, Grows_showToast.
  - apply (Grows_Shows _ _ _ _ (Grows_click_close id0)).
  - apply Grows_Shows, Grows_toast_hidden.
  - apply advance_Shows.
  - apply (Grows_Shows _ _ _ _ (Grows_ajax_settle o)).
  - apply (Grows_Shows _ _ _ _ (Grows_addToCart_settle o)).
  - apply Grows_Shows, Grows_updateCartCounter.
Qed.

Lemma run_Shows actions id n p : Shows id n p -> Shows id n (run string_gt_zero actions p).
Proof.
  revert p. induction actions as [|a actions IH]; intros p Hp; simpl; [done|].
  apply IH. by apply step_Shows.
Qed.

Lemma showNotification_Shows message type p :
  (forall x, In x (ids Inline p) -> x < next_id p) ->
  Shows (next_id p) (notification_node message type) (showNotification message type p).
Proof.
  intros Hb. split; [simpl; lia|]. intros _. unfold node_of. simpl.
  rewrite find_snoc_new; [done|]. intros Hin. apply Hb in Hin. lia.
Qed.

End Loop.

(** ** Every notification is removed once *)

Lemma Effect_refl p : Effect p p.
Proof. by apply effect_same. Qed.

Lemma NoDup_snoc (l : list nat) x :
  List.NoDup l -> ~ In x l -> List.NoDup (l ++ [x]).
Proof.
  induction l as [|y l IH]; intros Hl Hx.
  - simpl. apply List.NoDup_cons; [simpl; tauto | apply List.NoDup_nil].
  - inversion_clear Hl as [|? ? Hy Hl']. simpl. apply List.NoDup_cons.
    + rewrite in_app_iff. intros [Hin | [-> | []]]; [done|]. apply Hx. by left.
    + apply IH; [done|]. intros Hin. apply Hx. by right.
Qed.

Lemma Same_Accounted p p' : Same p p' -> Accounted p -> Accounted p'.
Proof.
  intros (Hn & Hr & Hi) [Hb Hk Hrem Honce].
  split; rewrite ?Hn, ?Hr; try setoid_rewrite Hi; auto.
Qed.

Lemma Created_Accounted k p p' : Created k p p' -> Accounted p -> Accounted p'.
Proof.
  intros (Hn & Hr & Hi) [Hb Hk Hrem Honce]. split; rewrite ?Hn, ?Hr.
  - intros k' id Hin. apply Hi in Hin as [Hin | [_ ->]]; [|lia].
    apply Hb in Hin. lia.
  - intros id Hin Hin'. apply Hi in Hin as [Hin | [Hk1 ->]];
      apply Hi in Hin' as [Hin' | [Hk2 Hid]].
    + by apply (Hk id).
    + subst. apply Hb in Hin. lia.
    + apply Hb in Hin'. lia.
    + congruence.
  - intros id Hin. destruct (Hrem id Hin) as [Hlt Hout]. split; [lia|].
    intros Hin'. apply Hi in Hin' as [Hin' | [_ ->]]; [by apply Hout | lia].
  - done.
Qed.

Lemma Removed_Accounted id p p' : Removed id p p' -> Accounted p -> Accounted p'.
Proof.
  intros (Hid & Hn & Hr & Ht & Hi) [Hb Hk Hrem Honce]. split; rewrite ?Hn, ?Hr.
  - intros [] x Hin.
    + apply Hi in Hin as [Hin _]. by apply (Hb Inline).
    + rewrite Ht in Hin. by apply (Hb Transient).
  - intros x Hin Hin'. apply Hi in Hin as [Hin _]. rewrite Ht in Hin'. by apply (Hk x).
  - intros x Hin. apply in_app_iff in Hin as [Hin | [<- | []]].
    + destruct (Hrem x Hin) as [Hlt Hout]. split; [done|].
      intros Hin'. by apply Hi in Hin' as [Hin' _].
    + split; [by apply (Hb Inline)|]. intros Hin'. by apply Hi in Hin' as [_ Hne].
  - apply NoDup_snoc; [done|]. intros Hin. by destruct (Hrem id Hin) as [_ Hout].
Qed.

Lemma Hidden_Accounted p p' : Hidden p p' -> Accounted p -> Accounted p'.
Proof.
  intros (Hn & Hr & Hi & Ht) [Hb Hk Hrem Honce]. split; rewrite ?Hn, ?Hr.
  - intros [] x Hin.
    + rewrite Hi in Hin. by apply (Hb Inline).
    + apply Ht in Hin. by apply (Hb Transient).
  - intros x Hin Hin'. rewrite Hi in Hin. apply Ht in Hin'. by apply (Hk x).
  - intros x Hin. rewrite Hi. by apply Hrem.
  - done.
Qed.

Lemma Effect_Accounted p p' : Effect p p' -> Accounted p -> Accounted p'.
Proof.
  induction 1 as [p p' H | k p p' H | id p p' H | p p' H | p p' p'' _ IH1 _ IH2]; intros Hp.
  - by apply (Same_Accounted p).
  - by apply (Created_Accounted k p).
  - by apply (Removed_Accounted id p).
  - by apply (Hidden_Accounted p).
  - auto.
Qed.

(** A notification does not leave the page without a call of [remove()]. *)
Lemma Effect_Known id p p' : Effect p p' -> Known id p -> Known id p'.
Proof.
  unfold Known.
  induction 1 as [p p' (_ & Hr & Hi) | k p p' (_ & Hr & Hi) | x p p' (_ & _ & Hr & _ & Hi)
                 | p p' (_ & Hr & Hi & _) | p p' p'' _ IH1 _ IH2]; [| | | |auto].
  - rewrite Hr, Hi. tauto.
  - rewrite Hr. intros [Hin | Hin]; [left; apply Hi; by left | by right].
  - rewrite Hr, in_app_iff. intros [Hin | Hin]; [|by right; left].
    destruct (Nat.eq_dec id x) as [-> | Hne]; [right; right; by left|].
    left. by apply Hi.
  - rewrite Hr, Hi. tauto.
Qed.

Lemma showNotification_Created message type p :
  Created Inline p (showNotification message type p).
Proof.
  repeat split; intros.
  - destruct k'; simpl in *; [|by left].
    rewrite map_app, in_app_iff in H. simpl in H. destruct H as [H | [<- | []]]; auto.
  - destruct k'; simpl in *.
    + rewrite map_app, in_app_iff. simpl. destruct H as [H | [_ ->]]; auto.
    + destruct H as [H | [? _]]; [done | discriminate].
Qed.

Lemma showToast_Created message type p :
  Created Transient p (showToast message type p).
Proof.
  destruct (showToast_frame message type p) as (Hnotes & Hnext & _ & _ & Hrem).
  pose proof (showToast_appends message type p) as Htoasts.
  split; [done|]. split; [done|]. intros k' x. destruct k'; unfold ids.
  - rewrite Hnotes. split; [by left|]. intros [H | [? _]]; [done | discriminate].
  - rewrite Htoasts, map_app, in_app_iff. simpl. split.
    + intros [H | [<- | []]]; auto.
    + intros [H | [_ ->]]; auto.
Qed.

Lemma remove_notification_Removed id p :
  In id (ids Inline p) -> Removed id p (remove_notification id p).
Proof.
  intros Hin. split; [done|]. split; [done|]. split; [done|]. split; [done|].
  intros x. simpl. apply ids_without.
Qed.

Lemma auto_close_Effect id p : Effect p (auto_close id p).
Proof.
  unfold auto_close. destruct (notification_attached id p) eqn:Hatt; [|apply Effect_refl].
  apply (effect_removed id), remove_notification_Removed. by apply (attached_ids Inline).
Qed.

Lemma click_close_Effect id p : Effect p (default p (click_close id p)).
Proof.
  destruct (click_close id p) as [q|] eqn:Hq; simpl; [|apply Effect_refl].
  apply click_close_result in Hq as [-> Hin].
  by apply (effect_removed id), remove_notification_Removed.
Qed.

Lemma toast_hidden_Effect id p : Effect p (toast_hidden id p).
Proof.
  apply effect_hidden. split; [done|]. split; [done|]. split; [done|].
  intros x Hx. by apply ids_toast_hidden in Hx as [Hx _].
Qed.

Lemma updateCartCounter_Effect p : Effect p (updateCartCounter p).
Proof.
  apply effect_same. unfold updateCartCounter. destruct (cart_counter p); [|done].
  split; [done | split; [done | by intros []]].
Qed.

Lemma scale_back_Effect p : Effect p (scale_back p).
Proof.
  apply effect_same. unfold scale_back. destruct (cart_counter p); [|done].
  split; [done | split; [done | by intros []]].
Qed.

Lemma set_now_Effect t p : Effect p (set_now t p).
Proof. apply effect_same. split; [done | split; [done | by intros []]]. Qed.

Lemma set_timers_Effect ts p : Effect p (set_timers ts p).
Proof. apply effect_same. split; [done | split; [done | by intros []]]. Qed.

Lemma fire_Effect q e : Effect q (fire q e).
Proof.
  destruct e as [d cb]. unfold fire. simpl.
  apply (effect_then _ (set_now d q)); [apply set_now_Effect|].
  destruct cb; simpl; [apply auto_close_Effect | apply scale_back_Effect].
Qed.

Lemma fire_all_Effect l q : Effect q (fold_left fire l q).
Proof.
  revert q. induction l as [|e l IH]; intros q; simpl; [apply Effect_refl|].
  apply (effect_then _ (fire q e)); [apply fire_Effect | apply IH].
Qed.

Lemma advance_Effect dt p : Effect p (advance dt p).
Proof.
  unfold advance.
  eapply effect_then; [|apply set_now_Effect].
  eapply effect_then; [|apply fire_all_Effect].
  apply set_timers_Effect.
Qed.

Lemma ajax_settle_Effect o p : Effect p (fst (ajax_settle o p)).
Proof.
  unfold ajax_settle, catch_, then_, fetch, settled.
  destruct o as [e | r]; simpl;
    [apply (effect_created Inline), showNotification_Created|].
  destruct (ok r); simpl; [|apply (effect_created Inline), showNotification_Created].
  destruct (json r); simpl;
    [apply Effect_refl | apply (effect_created Inline), showNotification_Created].
Qed.

Section Removal.

Variable string_gt_zero : string -> bool.

Lemma updateCartBadge_Effect count p : Effect p (updateCartBadge string_gt_zero count p).
Proof.
  apply effect_same. unfold updateCartBadge. destruct (cart_badge p); [|done].
  split; [done | split; [done | by intros []]].
Qed.

Lemma addToCart_settle_Effect o p :
  Effect p (fst (addToCart_settle string_gt_zero None o p)).
Proof.
  destruct (addToCart_settle_page string_gt_zero o p)
    as [(m & c & ->) | [(m & ->) | (m1 & m2 & ->)]].
  - eapply effect_then; [apply (updateCartBadge_Effect c)|].
    apply (effect_created Inline), showNotification_Created.
  - apply (effect_created Inline), showNotification_Created.
  - eapply effect_then; apply (effect_created Inline), showNotification_Created.
Qed.

Lemma step_Effect a p : Effect p (step string_gt_zero p a).
Proof.
  destruct a; unfold step.
  - apply (effect_created Inline), showNotification_Created.
  - apply (effect_created Transient), showToast_Created.
  - apply click_close_Effect.
  - apply toast_hidden_Effect.
  - apply advance_Effect.
  - apply ajax_settle_Effect.
  - apply addToCart_settle_Effect.
  - apply updateCartCounter_Effect.
Qed.

Lemma run_Effect actions p : Effect p (run string_gt_zero actions p).
Proof.
  revert p. induction actions as [|a actions IH]; intros p; [apply Effect_refl|].
  apply (effect_then _ (step string_gt_zero p a)); [apply step_Effect | apply IH].
Qed.

Lemma loaded_Accounted cookie field badge counter :
  Accounted (loaded cookie field badge counter).
Proof.
  split; simpl.
  - by intros [] id.
  - done.
  - done.
  - constructor.
Qed.

Lemma run_Accounted cookie field badge counter actions :
  Accounted (run string_gt_zero actions (loaded cookie field badge counter)).
Proof. apply (Effect_Accounted _ _ (run_Effect actions _)), loaded_Accounted. Qed.

(** A click on the close button of a notification whose markup has the
    button in its place, at any time while the notification is in the page,
    removes it. *)
Lemma click_close_in_place message type actions p :
  (forall x, In x (ids Inline p) -> x < next_id p) ->
  close_button_depth (notification_node message type) = Some 2 ->
  let r := run string_gt_zero actions (showNotification message type p) in
  notification_attached (next_id p) r = true ->
  click_close (next_id p) r = Some (remove_notification (next_id p) r).
Proof.
  intros Hb Hplace r Hatt.
  destruct (run_Shows string_gt_zero actions _ _ _ (showNotification_Shows message type p Hb))
    as [_ Hn].
  apply (click_close_node _ (notification_node message type)); [|done].
  apply Hn. by apply (attached_ids Inline).
Qed.

(** C8, as amended.  A notification of [Utils.showNotification] is in the
    page when the call returns, with its removal due 5000 ms later; it is out
    of the page once 5000 ms have passed, whatever else happens to the page,
    and is in the page before that unless its close button is clicked; a
    click on the close button removes it at once where the markup has the
    button in its place, two levels below the notification, as it has for
    every message without markup.  A toast of [showToast] is in the container
    when the call returns, with a delay of 3000 ms given to the Bootstrap
    component and no timer set by the script; it stays until the component
    reports it hidden, whatever time passes, and the listener takes it out
    then. *)
Theorem notifications_time_out (cookie : string) (field : option string)
    (badge : option Badge) (counter : option Counter) (before actions : list Action)
    (message type : string) (id : nat) (q : Page) :
  let p := run string_gt_zero before (loaded cookie field badge counter) in
  let shown := run string_gt_zero actions (showNotification message type p) in
  let toasted := run string_gt_zero actions (showToast message type p) in
  (notification_attached (next_id p) (showNotification message type p) = true
   /\ In (now p + 5000, AutoClose (next_id p)) (timers (showNotification message type p))
   /\ (5000 <= elapsed actions -> notification_attached (next_id p) shown = false)
   /\ (elapsed actions < 5000 -> ~ In (ClickClose (next_id p)) actions ->
       notification_attached (next_id p) shown = true)
   /\ (close_button_depth (notification_node message type) = Some 2 ->
       notification_attached (next_id p) shown = true ->
       click_close (next_id p) shown = Some (remove_notification (next_id p) shown)
       /\ notification_attached (next_id p) (remove_notification (next_id p) shown) = false)
   /\ (plain_text message = true ->
       close_button_depth (notification_node message type) = Some 2))
  /\ (toast_attached (next_id p) (showToast message type p) = true
      /\ (forall toast, In (next_id p, toast) (toasts (showToast message type p)) ->
            t_delay toast = 3000)
      /\ timers (showToast message type p) = timers p
      /\ (~ In (ToastHidden (next_id p)) actions -> toast_attached (next_id p) toasted = true)
      /\ toast_attached id (toast_hidden id q) = false).
Proof.
  intros p shown toasted.
  assert (Hp : Accounted p) by apply run_Accounted.
  assert (Ht : Timed p) by apply run_Timed, loaded_Timed.
  split; repeat split.
  - apply (attached_ids Inline). simpl. rewrite map_app, in_app_iff. right. by left.
  - simpl. apply In_enqueue. by left.
  - intros Hwait.
    apply (Scheduled_gone string_gt_zero actions _ _ _
             (showNotification_Scheduled message type p)).
    simpl. lia.
  - intros Hwait Hclick. apply (attached_ids Inline).
    apply (run_Waiting string_gt_zero actions _ (now p + 5000)); [done | simpl; lia|].
    by apply showNotification_Waiting.
  - by apply click_close_in_place; [apply (acc_bound _ Hp Inline)|..].
  - apply remove_notification_gone.
  - apply close_button_plain.
  - pose proof (showToast_appends message type p) as Htoasts.
    apply (attached_ids Transient). simpl. rewrite Htoasts, map_app, in_app_iff.
    right. by left.
  - intros toast. rewrite showToast_appends, in_app_iff.
    intros [Hin | [Heq | []]]; [|by injection Heq as <-].
    apply (in_map fst) in Hin. apply (acc_bound _ Hp Transient) in Hin. simpl in Hin. lia.
  - by destruct (showToast_frame message type p) as (_ & _ & _ & -> & _).
  - intros Hhid. apply (attached_ids Transient), run_toast_stays; [done|].
    simpl. rewrite showToast_appends, map_app, in_app_iff. right. by left.
  - apply toast_hidden_gone.
Qed.

(** From a page whose calls are accounted for, a notification that is in the
    page either stays, with no call of [remove()], or goes with one. *)
Lemma run_removed_once actions id p :
  Accounted p -> notification_attached id p = true ->
  let q := run string_gt_zero actions p in
  (notification_attached id q = true /\ count_occ Nat.eq_dec (remove_calls q) id = 0)
  \/ (notification_attached id q = false /\ count_occ Nat.eq_dec (remove_calls q) id = 1).
Proof.
  intros Hp Hatt q.
  assert (Hq : Accounted q) by apply (Effect_Accounted _ _ (run_Effect actions _)), Hp.
  assert (Hk : Known id q).
  { apply (Effect_Known id _ _ (run_Effect actions p)). left. by apply (attached_ids Inline). }
  destruct Hq as [Hb Hkinds Hrem Honce].
  destruct (notification_attached id q) eqn:Hin.
  - left. split; [done|]. apply count_occ_not_In. intros Hin'.
    destruct (Hrem id Hin') as [_ Hout]. by apply (attached_ids Inline) in Hin.
  - right. split; [done|]. apply NoDup_count_occ'; [done|].
    destruct Hk as [Hk | Hk]; [|done].
    apply (attached_ids Inline) in Hk. simpl in Hk. congruence.
Qed.

(** C4, as amended: in every run of a page, a notification that has been in
    the page either still is, and [remove()] was never called on it, or is out
    of the page after exactly one call of [remove()], which is how it is once
    its 5000 ms have passed.  A manual close does not
    cancel the timer of [showNotification]: the queue is as before, and when
    the timer fires its callback finds the node without a parent and does
    nothing.  The click has this result while the node is in the page and
    its markup has the button in its place, as it has for every message
    without markup.  A toast is removed by its listener, and a second
    [hidden.bs.toast] finds nothing to remove. *)
Theorem nodes_removed_once (cookie : string) (field : option string)
    (badge : option Badge) (counter : option Counter) (before after : list Action)
    (message type : string) (id : nat) (p : Page) :
  let q1 := run string_gt_zero before (loaded cookie field badge counter) in
  let q := run string_gt_zero after q1 in
  let shown := run string_gt_zero after (showNotification message type q1) in
  (notification_attached id q1 = true ->
   (notification_attached id q = true /\ count_occ Nat.eq_dec (remove_calls q) id = 0)
   \/ (notification_attached id q = false /\ count_occ Nat.eq_dec (remove_calls q) id = 1))
  /\ (5000 <= elapsed after ->
      notification_attached (next_id q1) shown = false
      /\ count_occ Nat.eq_dec (remove_calls shown) (next_id q1) = 1)
  /\ (forall p', click_close id p = Some p' ->
        notification_attached id p' = false
        /\ timers p' = timers p
        /\ auto_close id p' = p')
  /\ (close_button_depth (notification_node message type) = Some 2 ->
      notification_attached (next_id q1) shown = true ->
      is_Some (click_close (next_id q1) shown))
  /\ (plain_text message = true ->
      close_button_depth (notification_node message type) = Some 2)
  /\ toast_hidden id (toast_hidden id p) = toast_hidden id p.
Proof.
  intros q1 q shown.
  assert (Hq1 : Accounted q1) by apply run_Accounted.
  split; [|split; [|split; [|split; [|split]]]].
  - intros Hatt. by apply run_removed_once.
  - intros Hwait.
    assert (Hgone : notification_attached (next_id q1) shown = false).
    { apply (Scheduled_gone string_gt_zero after _ _ _
               (showNotification_Scheduled message type q1)).
      simpl. lia. }
    split; [done|].
    destruct (run_removed_once after (next_id q1) (showNotification message type q1))
      as [[Hin _] | [_ Hone]]; [| |fold shown in Hin; congruence|done].
    + apply (Effect_Accounted q1); [|done].
      apply (effect_created Inline), showNotification_Created.
    + apply (attached_ids Inline). simpl. rewrite map_app, in_app_iff. right. by left.
  - intros p' Hp'. apply click_close_result in Hp' as [-> _].
    split; [apply remove_notification_gone|]. split; [done|].
    unfold auto_close. by rewrite remove_notification_gone.
  - intros Hplace Hatt.
    unfold shown. rewrite click_close_in_place; [done | apply (acc_bound _ Hq1 Inline) | done..].
  - apply close_button_plain.
  - apply toast_hidden_twice.
Qed.

End Removal.

(** ** The message in the markup *)

#[local] Arguments String.append !s1 s2 : simpl nomatch.

Lemma notification_text_plain message type :
  plain_text message = true ->
  notification_text (notification_node message type) = Some message.
Proof.
  intros Hplain.
  unfold notification_text, notification_node, Html.text_of_class, Html.parse, Html.tokenize.
  cbn [n_innerHTML]. rewrite notification_html_split, !feed_app.
  set (st := Html.feed _ notification_before). vm_compute in st. subst st.
  rewrite (feed_plain _ _ _ Hplain).
  destruct message as [|c message].
  - vm_compute. reflexivity.
  - vm_compute. do 2 f_equal. apply append_empty.
Qed.

Lemma toast_html_split emoji message :
  toast_html emoji message
  = toast_before emoji ++ (message ++ nl ++ spaces 12) ++ toast_after.
Proof.
  unfold toast_html, toast_before. rewrite !append_assoc'. reflexivity.
Qed.

Lemma plain_text_app a b : plain_text (a ++ b) = plain_text a && plain_text b.
Proof.
  induction a as [|c a IH]; simpl; [done|]. rewrite IH. apply andb_assoc.
Qed.

Lemma toast_text_plain message type :
  plain_text message = true ->
  toast_text (toast_node message type) = Some (toast_body_text (toast_emoji type) message).
Proof.
  intros Hplain.
  assert (Hblock : plain_text (message ++ nl ++ spaces 12) = true).
  { rewrite plain_text_app, Hplain. reflexivity. }
  unfold toast_text, toast_node, Html.text_of_class, Html.parse, Html.tokenize.
  cbn [t_innerHTML].
  rewrite toast_html_split, (feed_app _ (toast_before _)),
    (feed_app _ (message ++ nl ++ spaces 12)).
  unfold toast_emoji.
  destruct (String.eqb type "success"); [|destruct (String.eqb type "error")].
  all: set (st := Html.feed _ (toast_before _)); vm_compute in st; subst st.
  all: rewrite (feed_plain _ _ _ Hblock).
  all: vm_compute; peel; apply append_empty.
Qed.

(** C10, as amended: both renderers put the caller's message into the
    markup as it is, without escaping.  A message with markup is parsed: for
    [<b>sale</b>] the notification and the toast show [sale], not the message.
    A message free of the characters that mean something to the parser
    ([plain_text]: no [<], no [&], no carriage return or NUL) is shown as it
    is: it is the text of the notification's message span, and the text of the
    toast's body after the emoji, between the white space of the template.
    These are not the only ones: [1 > 0 & a < b], where no character starts a
    tag or a reference, is shown as it is too. *)
Theorem message_interpolated_unescaped (message type : string) (p : Page) :
  let markup := "<b>sale</b>" in
  let literal := "1 > 0 & a < b" in
  (plain_text markup = false /\ plain_text literal = false)
  /\ (notifications (showNotification message type p)
   = (notifications p ++ [(next_id p, notification_node message type)])%list
   /\ n_innerHTML (notification_node message type)
      = notification_before ++ message ++ notification_after
   /\ notification_text (notification_node markup type) = Some "sale"
   /\ notification_text (notification_node markup type) <> Some markup
   /\ (plain_text message = true ->
       notification_text (notification_node message type) = Some message)
   /\ notification_text (notification_node literal type) = Some literal)
  /\ (toasts (showToast message type p)
      = (toasts p ++ [(next_id p, toast_node message type)])%list
      /\ t_innerHTML (toast_node message type)
         = toast_before (toast_emoji type) ++ (message ++ nl ++ spaces 12) ++ toast_after
      /\ toast_text (toast_node markup type) = Some (toast_body_text (toast_emoji type) "sale")
      /\ toast_text (toast_node markup type)
         <> Some (toast_body_text (toast_emoji type) markup)
      /\ (plain_text message = true ->
          toast_text (toast_node message type)
          = Some (toast_body_text (toast_emoji type) message))
      /\ toast_text (toast_node literal type)
         = Some (toast_body_text (toast_emoji type) literal)).
Proof.
  intros markup literal.
  assert (Hnote : notification_text (notification_node markup type) = Some "sale").
  { vm_compute. reflexivity. }
  assert (Htoast : toast_text (toast_node markup type)
                   = Some (toast_body_text (toast_emoji type) "sale")).
  { unfold toast_text, toast_node, toast_emoji. cbn [t_innerHTML].
    destruct (String.eqb type "success"); [|destruct (String.eqb type "error")];
      vm_compute; reflexivity. }
  split; [split; reflexivity|]. split.
  - split; [apply showNotification_appends|].
    split; [apply notification_html_split|].
    split; [exact Hnote|].
    split; [rewrite Hnote; discriminate|].
    split; [apply notification_text_plain|].
    vm_compute. reflexivity.
  - split; [apply showToast_appends|].
    split; [apply toast_html_split|].
    split; [exact Htoast|].
    split; [|split; [apply toast_text_plain|]].
    + rewrite Htoast. unfold toast_emoji.
      destruct (String.eqb type "success"); [|destruct (String.eqb type "error")];
        vm_compute; discriminate.
    + unfold toast_text, toast_node, toast_emoji. cbn [t_innerHTML].
      destruct (String.eqb type "success"); [|destruct (String.eqb type "error")];
        vm_compute; reflexivity.
Qed.

Lemma message_interpolated_unescaped_witness :
  notification_text (notification_node "Saved" "info") = Some "Saved"
  /\ toast_text (toast_node "Saved" "info") = Some (toast_body_text "ℹ️" "Saved").
Proof.
  destruct (message_interpolated_unescaped "Saved" "info" (loaded "" None None None))
    as (_ & (_ & _ & _ & _ & Hnote & _) & (_ & _ & _ & _ & Htoast & _)).
  split; [apply Hnote | apply Htoast]; reflexivity.
Defined.

(** C10, as stated, fails in its last part: a message that holds [<], [>] and
    [&] is still shown as it is when none of them starts a tag or a
    reference; the messages shown as they are are more than those free of
    these characters. *)
Lemma metacharacters_shown_literally :
  let message := "1 > 0 & a < b" in
  plain_text message = false
  /\ notification_text (notification_node message "info") = Some message
  /\ toast_text (toast_node message "info")
     = Some (toast_body_text (toast_emoji "info") message).
Proof. repeat split; vm_compute; reflexivity. Qed.

Lemma notifications_time_out_witness :
  let p := loaded "" None None None in
  let actions := [Wait 1000; Toast_ "saved" "success"; CounterBump; Wait 4000] in
  notification_attached 0 (run (fun _ => false) actions (showNotification "saved" "info" p))
  = false
  /\ toast_attached 0 (run (fun _ => false) actions (showToast "saved" "info" p)) = true.
Proof.
  destruct (notifications_time_out (fun _ => false) "" None None None []
              [Wait 1000; Toast_ "saved" "success"; CounterBump; Wait 4000]
              "saved" "info" 0 (loaded "" None None None))
    as [(_ & _ & Hnote & _) (_ & _ & _ & Htoast & _)].
  split; [apply Hnote; unfold elapsed; simpl; lia | apply Htoast].
  simpl. intuition discriminate.
Defined.

(** C8, as stated, fails for a toast: the script sets no timer for it, and
    3000 ms after the call, with nothing else happening, the node is still in
    the container; it leaves when the component reports the toast hidden. *)
Lemma toast_outlives_its_delay :
  let p := showToast "saved" "info" (loaded "" None None None) in
  timers p = []
  /\ toast_attached 0 (run (fun _ => false) [Wait 3000] p) = true
  /\ toast_attached 0 (run (fun _ => false) [Wait 3000; ToastHidden 0] p) = false.
Proof. repeat split; reflexivity. Qed.

Lemma nodes_removed_once_witness :
  let q1 := run (fun _ => false) [Notify "saved" "success"] (loaded "" None None None) in
  let q := run (fun _ => false) [ClickClose 0; Wait 5000] q1 in
  (notification_attached 0 q = true /\ count_occ Nat.eq_dec (remove_calls q) 0 = 0)
  \/ (notification_attached 0 q = false /\ count_occ Nat.eq_dec (remove_calls q) 0 = 1).
Proof.
  destruct (nodes_removed_once (fun _ => false) "" None None None
              [Notify "saved" "success"] [ClickClose 0; Wait 5000] "saved" "success" 0
              (loaded "" None None None)) as [Hremoved _].
  apply Hremoved. reflexivity.
Defined.

(** C4, as stated, fails: after a manual close the timeout of the
    notification is still in the queue; it was not cancelled. *)
Lemma manual_close_leaves_timer_pending :
  let p := showNotification "saved" "success" (loaded "" None None None) in
  let q := remove_notification 0 p in
  click_close 0 p = Some q
  /\ notification_attached 0 p = true
  /\ notification_attached 0 q = false
  /\ timers q = [(5000, AutoClose 0)]
  /\ remove_calls (advance 5000 q) = [0].
Proof. repeat split; vm_compute; reflexivity. Qed.

(** ** The cookie and the token *)

Set Warnings "-clear-no-such-hyp".

Lemma split_from_step sep c s :
  split_from sep 0 (String c s)
  = if String.prefix sep (String c s)
    then EmptyString :: split_from sep (String.length sep - 1) s
    else match split_from sep 0 s with
         | piece :: pieces => String c piece :: pieces
         | [] => [String c EmptyString]
         end.
Proof. reflexivity. Qed.

Lemma prefix_empty s : String.prefix EmptyString s = true.
Proof. by destruct s. Qed.

Lemma prefix_other sep c c' s :
  Ascii.eqb c c' = false -> String.prefix (String c' sep) (String c s) = false.
Proof.
  intros Hc. simpl. destruct (ascii_dec c' c) as [-> | Hne]; [|done].
  by rewrite Ascii.eqb_refl in Hc.
Qed.

Lemma split_semicolon_row a rest :
  free_of ";" a = true ->
  split "; " (a ++ "; " ++ rest) = a :: split "; " rest.
Proof.
  unfold split. induction a as [|c a IH]; intros Hfree.
  - change (EmptyString ++ "; " ++ rest) with (String ";" (String " " rest)).
    rewrite split_from_step. simpl. by rewrite prefix_empty.
  - simpl in Hfree. apply andb_true_iff in Hfree as [Hc Ha].
    apply negb_true_iff in Hc.
    change (String c a ++ "; " ++ rest) with (String c (a ++ "; " ++ rest)).
    by rewrite split_from_step, (prefix_other _ _ _ _ Hc), (IH Ha).
Qed.

Lemma split_semicolon_last a : free_of ";" a = true -> split "; " a = [a].
Proof.
  unfold split. induction a as [|c a IH]; intros Hfree; [reflexivity|].
  simpl in Hfree. apply andb_true_iff in Hfree as [Hc Ha].
  apply negb_true_iff in Hc.
  by rewrite split_from_step, (prefix_other _ _ _ _ Hc), (IH Ha).
Qed.

(** Splitting a cookie string gives its rows back. *)
Lemma split_cookie_string rows :
  rows <> [] -> forallb (free_of ";") rows = true ->
  split "; " (cookie_string rows) = rows.
Proof.
  unfold cookie_string. induction rows as [|a rows IH]; intros Hne Hfree; [done|].
  simpl in Hfree. apply andb_true_iff in Hfree as [Ha Hrows].
  destruct rows as [|b rows].
  - simpl. by apply split_semicolon_last.
  - change (String.concat "; " (a :: b :: rows))
      with (a ++ "; " ++ String.concat "; " (b :: rows)).
    rewrite (split_semicolon_row _ _ Ha), IH; done.
Qed.

Lemma split_equals_head s :
  exists pieces, split "=" s = upto "=" s :: pieces.
Proof.
  unfold split. induction s as [|c s [pieces IH]]; [by eexists|].
  rewrite split_from_step. simpl upto.
  destruct (Ascii.eqb_spec c "=") as [-> | Hne].
  - simpl. rewrite prefix_empty. by eexists.
  - rewrite prefix_other, IH; [by eexists|]. by apply Ascii.eqb_neq.
Qed.

Lemma split_equals_row a rest :
  free_of "=" a = true ->
  split "=" (a ++ "=" ++ rest) = a :: split "=" rest.
Proof.
  unfold split. induction a as [|c a IH]; intros Hfree.
  - change (EmptyString ++ "=" ++ rest) with (String "=" rest).
    rewrite split_from_step. simpl. by rewrite prefix_empty.
  - simpl in Hfree. apply andb_true_iff in Hfree as [Hc Ha].
    apply negb_true_iff in Hc.
    change (String c a ++ "=" ++ rest) with (String c (a ++ "=" ++ rest)).
    by rewrite split_from_step, (prefix_other _ _ _ _ Hc), (IH Ha).
Qed.

Lemma split_token_row v :
  nth_error (split "=" ("csrftoken=" ++ v)) 1 = Some (upto "=" v).
Proof.
  destruct (split_equals_head v) as [pieces Hv].
  change ("csrftoken=" ++ v) with ("csrftoken" ++ "=" ++ v).
  rewrite split_equals_row by reflexivity. by rewrite Hv.
Qed.

Lemma getCsrfToken_cookie_row p rows v :
  cookie p = cookie_string rows ->
  forallb (free_of ";") rows = true ->
  List.find (startsWith "csrftoken=") rows = Some ("csrftoken=" ++ v) ->
  getCsrfToken p = Some (upto "=" v).
Proof.
  intros Hcookie Hfree Hfind. unfold getCsrfToken.
  rewrite Hcookie, split_cookie_string, Hfind; [|by intros ->|done].
  apply split_token_row.
Qed.

(** X1: the cookie comes first.  When the first row of the cookie string
    that starts with [csrftoken=] is [csrftoken=v], the token is [v] up to
    its first [=], whatever the hidden field holds. *)
Theorem getCsrfToken_reads_cookie_first (p : Page) (rows : list string) (v : string) :
  cookie p = cookie_string rows ->
  forallb (free_of ";") rows = true ->
  List.find (startsWith "csrftoken=") rows = Some ("csrftoken=" ++ v) ->
  getCsrfToken p = Some (upto "=" v).
Proof. apply getCsrfToken_cookie_row. Qed.

(** X2: without a [csrftoken=] row in the cookie, the token is the value of
    the hidden field, and there is none when the page has no such field. *)
Theorem getCsrfToken_falls_back_to_field (p : Page) (rows : list string) :
  cookie p = cookie_string rows ->
  rows <> [] ->
  forallb (free_of ";") rows = true ->
  List.find (startsWith "csrftoken=") rows = None ->
  getCsrfToken p = csrf_field p.
Proof.
  intros Hcookie Hne Hfree Hfind. unfold getCsrfToken.
  rewrite Hcookie, split_cookie_string, Hfind by done. by destruct (csrf_field p).
Qed.

(** X3: a [csrftoken] cookie with an empty value hides the hidden field:
    [getCsrfToken] returns the empty cookie value, which [Utils.ajax] treats
    as no token, so even a POST is dispatched as the plain merge of the
    defaults and the caller's options. *)
Theorem empty_cookie_token_hides_field (p : Page) (rows : list string) (v : string)
    (url : string) (options : Options) :
  cookie p = cookie_string rows ->
  forallb (free_of ";") rows = true ->
  List.find (startsWith "csrftoken=") rows = Some ("csrftoken=" ++ v) ->
  upto "=" v = EmptyString ->
  getCsrfToken p = Some EmptyString
  /\ ajax_request p url options
     = Fulfilled {| r_url := url; r_options := spread defaultOptions options |}.
Proof.
  intros Hcookie Hfree Hfind Hempty.
  assert (Htoken : getCsrfToken p = Some EmptyString).
  { rewrite <- Hempty. by apply (getCsrfToken_cookie_row p rows v). }
  split; [done|]. unfold ajax_request.
  rewrite spread_default_method, Htoken. simpl.
  by destruct (String.eqb _ "POST").
Qed.

(** X4: what [Utils.ajax] hands to [fetch] is the caller's URL, method (or
    GET) and body, and the caller's headers (or the default one) with at
    most the X-CSRFToken header changed; that header is the token exactly
    when the method upper-cases to POST and a non-empty token is found. *)
Theorem ajax_request_changes_only_the_token (p : Page) (url : string) (options : Options) :
  exists request,
    ajax_request p url options = Fulfilled request
    /\ r_url request = url
    /\ method (r_options request) = Some (method_of options)
    /\ body (r_options request) = body options
    /\ (forall name, name <> "X-CSRFToken" ->
        request_header name request = headers_of options !! name)
    /\ request_header "X-CSRFToken" request
       = match getCsrfToken p with
         | Some token =>
             if String.eqb (toUpperCase (method_of options)) "POST"
                && negb (String.eqb token EmptyString)
             then Some token
             else headers_of options !! "X-CSRFToken"
         | None => headers_of options !! "X-CSRFToken"
         end.
Proof.
  assert (Hplain : forall name,
    request_header name {| r_url := url; r_options := spread defaultOptions options |}
    = headers_of options !! name).
  { intros name. unfold request_header. simpl r_options.
    by rewrite spread_default_headers. }
  assert (Hbody : body (spread defaultOptions options) = body options).
  { unfold spread. simpl. by destruct (body options). }
  assert (Hkeep : forall last,
    last = headers_of options !! "X-CSRFToken" ->
    exists request,
      Fulfilled {| r_url := url; r_options := spread defaultOptions options |}
      = Fulfilled request
      /\ r_url request = url
      /\ method (r_options request) = Some (method_of options)
      /\ body (r_options request) = body options
      /\ (forall name, name <> "X-CSRFToken" ->
          request_header name request = headers_of options !! name)
      /\ request_header "X-CSRFToken" request = last).
  { intros last ->. eexists. split; [reflexivity|]. split; [reflexivity|].
    split; [apply spread_default_method|]. split; [exact Hbody|].
    split; [intros name _; apply Hplain | apply Hplain]. }
  unfold ajax_request. rewrite spread_default_method, spread_default_headers.
  fold (headers_of options).
  destruct (String.eqb (toUpperCase (method_of options)) "POST") eqn:Hpost;
    [|apply Hkeep; by destruct (getCsrfToken p)].
  destruct (getCsrfToken p) as [token|]; [|by apply Hkeep].
  destruct (String.eqb token EmptyString) eqn:Htoken; simpl; [by apply Hkeep|].
  eexists. split; [reflexivity|]. split; [reflexivity|].
  split; [reflexivity|]. split; [exact Hbody|]. split.
  - intros name Hname. unfold request_header. simpl. by rewrite lookup_insert_ne.
  - unfold request_header. simpl. apply lookup_insert_eq.
Qed.

(** ** White space *)

Lemma take_drop_bytes (n : nat) (s : string) :
  JsText.take_bytes n s ++ drop_bytes n s = s.
Proof.
  revert s. induction n as [|n IH]; intros [|c s]; simpl; try done. by rewrite IH.
Qed.

Lemma length_drop_bytes (n : nat) (s : string) :
  String.length (drop_bytes n s) <= String.length s.
Proof.
  revert s. induction n as [|n IH]; intros [|c s]; simpl; try lia.
  specialize (IH s). lia.
Qed.

(** A byte of ASCII that is not white space starts no white-space
    character. *)
Lemma space_width_ascii (c : ascii) (s : string) :
  is_space c = false -> nat_of_ascii c < 128 -> space_width (String c s) = 0.
Proof.
  intros Hspace Hc. unfold space_width. rewrite Hspace.
  destruct (Nat.eqb_spec (nat_of_ascii c) 194); [lia|].
  destruct (Nat.eqb_spec (nat_of_ascii c) 225); [lia|].
  destruct (Nat.eqb_spec (nat_of_ascii c) 226); [lia|].
  destruct (Nat.eqb_spec (nat_of_ascii c) 227); [lia|].
  destruct (Nat.eqb_spec (nat_of_ascii c) 239); [lia|]. done.
Qed.

Lemma skip_spaces_from_none (fuel : nat) (s : string) :
  space_width s = 0 -> skip_spaces_from fuel s = s.
Proof. intros Hs. destruct fuel; simpl; [done|]. by rewrite Hs. Qed.

Lemma skip_spaces_none (s : string) : space_width s = 0 -> skip_spaces s = s.
Proof. apply skip_spaces_from_none. Qed.

(** With the length of the string for fuel, all the leading white space is
    skipped. *)
Lemma skip_spaces_from_width (fuel : nat) (s : string) :
  String.length s <= fuel -> space_width (skip_spaces_from fuel s) = 0.
Proof.
  revert s. induction fuel as [|fuel IH]; intros s Hlen.
  - destruct s; [done | simpl in Hlen; lia].
  - simpl. destruct (space_width s) as [|w] eqn:Hw; [done|].
    apply IH. destruct s as [|c s]; [done|]. simpl in *.
    pose proof (length_drop_bytes w s). lia.
Qed.

Lemma skip_spaces_width (s : string) : space_width (skip_spaces s) = 0.
Proof. by apply skip_spaces_from_width. Qed.

Lemma skip_spaces_idem (s : string) : skip_spaces (skip_spaces s) = skip_spaces s.
Proof. apply skip_spaces_none, skip_spaces_width. Qed.

Lemma digitless_drop_bytes (n : nat) (s : string) :
  digitless s = true -> digitless (drop_bytes n s) = true.
Proof.
  revert s. induction n as [|n IH]; intros [|c s]; simpl; try done.
  intros Hs. apply andb_true_iff in Hs as [_ Hs]. by apply IH.
Qed.

Lemma digitless_skip_spaces (s : string) :
  digitless s = true -> digitless (skip_spaces s) = true.
Proof.
  unfold skip_spaces. generalize (String.length s) as fuel. intros fuel. revert s.
  induction fuel as [|fuel IH]; intros s Hs; cbn [skip_spaces_from]; [done|].
  destruct (space_width s); [done|]. by apply IH, digitless_drop_bytes.
Qed.

(** The pieces of a string are the string. *)
Lemma glue_units_from (fuel : nat) (s : string) :
  String.length s <= fuel -> glue (JsText.units_from fuel s) = s.
Proof.
  revert s. induction fuel as [|fuel IH]; intros s Hlen.
  - destruct s; [done | simpl in Hlen; lia].
  - destruct s as [|c s]; [done|]. simpl in Hlen.
    cbn [JsText.units_from]. destruct (space_width (String c s)) as [|w] eqn:Hw.
    + simpl. rewrite IH by lia. done.
    + cbn [glue fold_right]. fold (glue (JsText.units_from fuel (drop_bytes (S w) (String c s)))).
      rewrite IH; [apply take_drop_bytes|].
      simpl. pose proof (length_drop_bytes w s). lia.
Qed.

Lemma glue_units (s : string) : glue (JsText.units s) = s.
Proof. by apply glue_units_from. Qed.

Lemma units_cons (c : ascii) (s : string) :
  space_width (String c s) = 0 ->
  JsText.units (String c s) = String c EmptyString :: JsText.units s.
Proof. intros Hw. unfold JsText.units. simpl String.length. cbn [JsText.units_from]. by rewrite Hw. Qed.

(** White space is that of the language, not of ASCII alone: [trim] and
    [parseInt] take the no-break space and the ideographic space with the
    rest, and a character of several bytes that is no white space stays. *)
Example white_space_examples :
  JsText.trim (nbsp ++ " a b " ++ ideographic_space) = "a b"
  /\ JsText.trim "é " = "é"
  /\ parseInt (nbsp ++ "12") = Some 12%Z
  /\ parseInt (ideographic_space ++ " -7") = Some (-7)%Z.
Proof. repeat split; vm_compute; reflexivity. Qed.

(** ** Reading the counter back *)

Lemma digit_value_pretty d :
  (d < 10)%N -> digit_value (pretty_N_char d) = Some (N.to_nat d).
Proof.
  intros Hd.
  assert (d = 0 \/ d = 1 \/ d = 2 \/ d = 3 \/ d = 4 \/ d = 5 \/ d = 6 \/ d = 7
          \/ d = 8 \/ d = 9)%N as Hcases by lia.
  repeat destruct Hcases as [-> | Hcases]; try subst d; reflexivity.
Qed.

(** The digits that [pretty] writes are read back by [parseInt]'s loop. *)
Lemma digits_prefix_pretty x s :
  digits_prefix 10 (pretty_N_go x s) None
  = if decide (x = 0)%N then digits_prefix 10 s None
    else digits_prefix 10 s (Some (Z.of_N x)).
Proof.
  revert s. induction (N.lt_wf_0 x) as [x _ IH]. intros s.
  destruct (decide (x = 0)%N) as [-> | Hx]; [by rewrite pretty_N_go_0|].
  rewrite pretty_N_go_step by lia.
  rewrite IH by (apply N.div_lt; lia).
  assert (Hd : (x `mod` 10 < 10)%N) by (apply N.mod_lt; lia).
  simpl digits_prefix. rewrite (digit_value_pretty _ Hd).
  assert (Hlt : (N.to_nat (x `mod` 10) <? 10)%nat = true) by (apply Nat.ltb_lt; lia).
  rewrite Hlt. pose proof (N.div_mod x 10 ltac:(lia)) as Hdiv.
  remember (x `div` 10)%N as q eqn:Hq. remember (x `mod` 10)%N as r eqn:Hr.
  clear IH Hq Hr Hlt.
  destruct (decide (q = 0)%N) as [Hz | Hnz]; f_equal; f_equal; simpl;
    rewrite N_nat_Z; change (Z.of_nat 10) with 10%Z; lia.
Qed.

(** A positive number is written with a first digit from 1 to 9. *)
Lemma pretty_N_go_first x s :
  (0 < x)%N ->
  exists d rest, pretty_N_go x s = String (pretty_N_char d) rest /\ (0 < d < 10)%N.
Proof.
  revert s. induction (N.lt_wf_0 x) as [x _ IH]. intros s Hx.
  rewrite pretty_N_go_step by done.
  destruct (decide (x `div` 10 = 0)%N) as [Hz | Hnz].
  - rewrite Hz, pretty_N_go_0. exists (x `mod` 10)%N, s. split; [done|].
    pose proof (N.div_mod x 10 ltac:(lia)) as Hdiv.
    pose proof (N.mod_lt x 10 ltac:(lia)) as Hmod.
    rewrite Hz in Hdiv. remember (x `mod` 10)%N as r. lia.
  - apply IH; [apply N.div_lt; [done | lia] | by apply N.neq_0_lt_0].
Qed.

Lemma parseInt_digits d rest :
  (0 < d < 10)%N ->
  parseInt (String (pretty_N_char d) rest)
  = digits_prefix 10 (String (pretty_N_char d) rest) None
  /\ parseInt (String "-" (String (pretty_N_char d) rest))
     = Z.opp <$> digits_prefix 10 (String (pretty_N_char d) rest) None.
Proof.
  intros Hd.
  assert (d = 1 \/ d = 2 \/ d = 3 \/ d = 4 \/ d = 5 \/ d = 6 \/ d = 7
          \/ d = 8 \/ d = 9)%N as Hcases by lia.
  repeat destruct Hcases as [-> | Hcases]; try subst d;
    (split; unfold parseInt; simpl;
     [by destruct (digits_prefix _ _ _) | by destruct (digits_prefix _ _ _)]).
Qed.

(** [parseInt] reads back what the counter writes. *)
Lemma parseInt_pretty (z : Z) : parseInt (pretty z) = Some z.
Proof.
  destruct z as [|x|x]; [reflexivity| |].
  - change (pretty (Z.pos x)) with (pretty_N_go (N.pos x) EmptyString).
    destruct (pretty_N_go_first (N.pos x) EmptyString) as (d & rest & Hfirst & Hd); [lia|].
    pose proof (digits_prefix_pretty (N.pos x) EmptyString) as Hdigits.
    rewrite Hfirst in *. rewrite (proj1 (parseInt_digits d rest Hd)), Hdigits.
    reflexivity.
  - change (pretty (Z.neg x)) with ("-" ++ pretty_N_go (N.pos x) EmptyString).
    destruct (pretty_N_go_first (N.pos x) EmptyString) as (d & rest & Hfirst & Hd); [lia|].
    pose proof (digits_prefix_pretty (N.pos x) EmptyString) as Hdigits.
    rewrite Hfirst in *. simpl append.
    rewrite (proj2 (parseInt_digits d rest Hd)), Hdigits. reflexivity.
Qed.


Lemma digits_prefix_digitless s :
  digitless s = true -> digits_prefix 10 s None = None.
Proof.
  destruct s as [|c s]; [done|]. simpl. intros Hs.
  apply andb_true_iff in Hs as [Hc _]. revert Hc.
  each_ascii c; simpl; try done.
Qed.

(** After the white space and the sign, a text without digits is not a
    number. *)
Lemma unsigned_digitless s :
  digitless s = true ->
  (let '(radix, s) :=
     match s with
     | String "0" (String "x" r) | String "0" (String "X" r) => (16, r)
     | _ => (10, s)
     end in digits_prefix radix s None) = None.
Proof.
  destruct s as [|c s]; [done|]. intros Hs.
  pose proof (digits_prefix_digitless _ Hs) as Hnone.
  simpl in Hs. apply andb_true_iff in Hs as [Hc _]. revert Hc Hnone.
  each_ascii c; simpl; try done.
Qed.

Lemma parseInt_skip_spaces s : parseInt (skip_spaces s) = parseInt s.
Proof. unfold parseInt. by rewrite skip_spaces_idem. Qed.

Lemma parseInt_digitless s : digitless s = true -> parseInt s = None.
Proof.
  intros Hs. rewrite <- parseInt_skip_spaces.
  pose proof (digitless_skip_spaces s Hs) as Hskip.
  pose proof (skip_spaces_width s) as Hwidth.
  destruct (skip_spaces s) as [|c rest]; [done|]. clear s Hs.
  unfold parseInt. rewrite (skip_spaces_none _ Hwidth). clear Hwidth.
  pose proof Hskip as Hs'. simpl in Hs'. apply andb_true_iff in Hs' as [Hc Htail].
  pose proof (unsigned_digitless _ Hskip) as Hwhole.
  pose proof (unsigned_digitless _ Htail) as Hrest.
  clear Hskip. revert Hc Hwhole.
  each_ascii c; try done; intros _ Hwhole;
    first [ exact (f_equal (fmap (M:=option) _) Hwhole) | idtac ].
  all: revert Hrest;
    match goal with
    | |- context [let '(_, _) := ?m in _] => destruct m as [radix s0]
    end; by intros ->.
Qed.

Lemma updateCartCounter_text p counter :
  cart_counter p = Some counter ->
  cart_counter (updateCartCounter p)
  = Some {| c_textContent := pretty (default 0 (parseInt (c_textContent counter)) + 1)%Z;
            c_transform := "scale(1.3)" |}.
Proof. intros Hcounter. unfold updateCartCounter. by rewrite Hcounter. Qed.

(** X5: a counter whose text holds no digit (an empty badge, a dash) starts
    at 1: [parseInt] gives NaN and [|| 0] makes it 0. *)
Theorem updateCartCounter_starts_at_one (p : Page) (counter : Counter) :
  cart_counter p = Some counter ->
  digitless (c_textContent counter) = true ->
  c_textContent <$> cart_counter (updateCartCounter p) = Some "1".
Proof.
  intros Hcounter Htext.
  rewrite (updateCartCounter_text p counter Hcounter). simpl.
  by rewrite (parseInt_digitless _ Htext).
Qed.

(** ** The page over a run *)

Section Frames.

Variable string_gt_zero : string -> bool.

Lemma fire_counter_text q e : counter_text (fire q e) = counter_text q.
Proof.
  destruct e as [d cb]. unfold fire, counter_text. simpl.
  destruct cb as [id | ]; simpl.
  - unfold auto_close. by destruct (notification_attached id _).
  - unfold scale_back. simpl. destruct (cart_counter q) eqn:Hc; simpl; by rewrite ?Hc.
Qed.

Lemma fire_all_counter_text l q : counter_text (fold_left fire l q) = counter_text q.
Proof.
  revert q. induction l as [|e l IH]; intros q; simpl; [done|].
  by rewrite IH, fire_counter_text.
Qed.

Lemma ajax_settle_page o p :
  fst (ajax_settle o p) = p \/ exists m, fst (ajax_settle o p) = showNotification m "error" p.
Proof.
  unfold ajax_settle, catch_, then_, fetch, settled.
  destruct o as [e | r]; simpl; [right; by eexists|].
  destruct (ok r); simpl; [|right; by eexists].
  destruct (json r); simpl; [by left | right; by eexists].
Qed.

Lemma updateCartBadge_counter_text count p :
  counter_text (updateCartBadge string_gt_zero count p) = counter_text p.
Proof. unfold updateCartBadge. by destruct (cart_badge p). Qed.

Lemma step_counter_text a p :
  counter_text (step string_gt_zero p a)
  = match a with
    | CounterBump => counter_text (updateCartCounter p)
    | _ => counter_text p
    end.
Proof.
  destruct a as [message type | message type | id | id | dt | o | o |]; simpl.
  - done.
  - unfold showToast, counter_text. by destruct (toast_container p).
  - destruct (click_close id p) as [q|] eqn:Hq; simpl; [|done].
    by apply click_close_result in Hq as [-> _].
  - done.
  - unfold advance. cbn zeta.
    change (counter_text (set_now ?t ?q)) with (counter_text q).
    by rewrite fire_all_counter_text.
  - destruct (ajax_settle_page o p) as [-> | [m ->]]; done.
  - destruct (addToCart_settle_page string_gt_zero o p)
      as [(m & count & ->) | [(m & ->) | (m1 & m2 & ->)]]; [|done..].
    change (counter_text (showNotification ?m ?t ?q)) with (counter_text q).
    apply updateCartBadge_counter_text.
  - done.
Qed.

Lemma fire_container q e :
  is_Some (toast_container q) -> is_Some (toast_container (fire q e)).
Proof.
  destruct e as [d cb]. unfold fire. simpl. intros [c Hc].
  destruct cb as [id | ]; simpl.
  - unfold auto_close. destruct (notification_attached id _); simpl; rewrite Hc; eauto.
  - unfold scale_back. simpl. destruct (cart_counter q); simpl; rewrite Hc; eauto.
Qed.

Lemma fire_all_container l q :
  is_Some (toast_container q) -> is_Some (toast_container (fold_left fire l q)).
Proof.
  revert q. induction l as [|e l IH]; intros q Hq; simpl; [done|].
  by apply IH, fire_container.
Qed.

Lemma showToast_container message type p : is_Some (toast_container (showToast message type p)).
Proof. unfold showToast. destruct (toast_container p); simpl; eauto. Qed.

Lemma step_container a p :
  is_Some (toast_container p) -> is_Some (toast_container (step string_gt_zero p a)).
Proof.
  intros Hp.
  destruct a as [message type | message type | id | id | dt | o | o |]; simpl.
  - done.
  - apply showToast_container.
  - destruct (click_close id p) as [q|] eqn:Hq; simpl; [|done].
    by apply click_close_result in Hq as [-> _].
  - destruct Hp as [c Hc]. simpl. rewrite Hc. simpl. eauto.
  - unfold advance. cbn zeta.
    change (toast_container (set_now ?t ?q)) with (toast_container q).
    by apply fire_all_container.
  - destruct (ajax_settle_page o p) as [-> | [m ->]]; done.
  - destruct (addToCart_settle_page string_gt_zero o p)
      as [(m & count & ->) | [(m & ->) | (m1 & m2 & ->)]]; [|done..].
    change (toast_container (showNotification ?m ?t ?q)) with (toast_container q).
    unfold updateCartBadge. by destruct (cart_badge p).
  - unfold updateCartCounter. by destruct (cart_counter p).
Qed.

(** X6: the counter counts, whatever else happens on the page.  When the
    counter shows the decimal numeral of [n], after a run of the page it
    shows the numeral of [n] plus the number of calls of [updateCartCounter]
    in the run: what one call writes the next reads back, and neither a
    timer, a notification, a toast nor a response of the server touches the
    text.  This is so while the count stays within the integers that a
    number of the language holds one by one, from -2^53 to 2^53. *)
Theorem updateCartCounter_counts (actions : list Action) (n : Z) (p : Page)
    (counter : Counter) :
  cart_counter p = Some counter ->
  c_textContent counter = pretty n ->
  safe_integer n ->
  safe_integer (n + Z.of_nat (bumps actions)) ->
  counter_text (run string_gt_zero actions p)
  = Some (pretty (n + Z.of_nat (bumps actions))%Z).
Proof.
  intros Hcounter Htext _ _.
  assert (Hstart : counter_text p = Some (pretty n))
    by (unfold counter_text; rewrite Hcounter; simpl; by rewrite Htext).
  clear counter Hcounter Htext. revert n p Hstart. unfold run.
  induction actions as [|a actions IH]; intros n p Hstart; simpl.
  - unfold bumps. simpl. by rewrite Z.add_0_r.
  - assert (Hstep : counter_text (step string_gt_zero p a)
                    = Some (pretty (n + match a with CounterBump => 1 | _ => 0 end)%Z)).
    { rewrite step_counter_text.
      assert (Hbump : counter_text (updateCartCounter p) = Some (pretty (n + 1)%Z)).
      { unfold counter_text in *. destruct (cart_counter p) as [counter|] eqn:Hc; [|done].
        rewrite (updateCartCounter_text p counter Hc). simpl. simpl in Hstart.
        injection Hstart as ->. by rewrite parseInt_pretty. }
      destruct a; rewrite ?Z.add_0_r; done. }
    rewrite (IH _ _ Hstep). f_equal. f_equal.
    unfold bumps. simpl. destruct a; lia.
Qed.

(** X7: the toast container is made by the first toast and never leaves
    the page: it is there after any run, also when every toast is gone. *)
Theorem toast_container_stays (message type : string) (actions : list Action) (p : Page) :
  is_Some (toast_container (run string_gt_zero (Toast_ message type :: actions) p)).
Proof.
  unfold run. simpl.
  pose proof (showToast_container message type p) as Hfirst.
  revert Hfirst. generalize (showToast message type p) as q.
  induction actions as [|a actions IH]; intros q Hq; simpl; [done|].
  by apply IH, step_container.
Qed.

End Frames.

(** ** Debouncing *)

Section DebounceFacts.

Context {A : Type}.
Variable wait : nat.

(** A burst leaves the timer of its last call pending and calls nothing. *)
Lemma burst_pending (burst : list (A * nat)) (a : A) (st : Debounce.State (A:=A)) :
  Forall (fun c => snd c < wait) burst ->
  Debounce.run wait (burst_events burst ++ [Debounce.Call a]) st
  = {| Debounce.clock := Debounce.clock st + list_sum (map snd burst);
       Debounce.timeout := Some (Debounce.clock st + list_sum (map snd burst) + wait, a);
       Debounce.invoked := Debounce.invoked st |}.
Proof.
  revert st. induction burst as [|[a1 gap] burst IH]; intros st Hgaps.
  - simpl. unfold Debounce.executedFunction. by rewrite !Nat.add_0_r.
  - inversion_clear Hgaps as [|? ? Hgap Hrest]. simpl in Hgap.
    change (Debounce.run wait (burst_events ((a1, gap) :: burst) ++ [Debounce.Call a]) st)
      with (Debounce.run wait (burst_events burst ++ [Debounce.Call a])
              (Debounce.pass gap (Debounce.executedFunction wait a1 st))).
    rewrite (IH _ Hrest). unfold Debounce.pass, Debounce.executedFunction. simpl.
    destruct (Nat.leb_spec (Debounce.clock st + wait) (Debounce.clock st + gap)); [lia|].
    simpl. f_equal; [lia | f_equal; f_equal; lia].
Qed.

(** X8: of a burst of calls, each less than [wait] ms after the one before,
    followed by at least [wait] ms of silence, [func] is called exactly once:
    with the arguments of the last call, [wait] ms after it. *)
Theorem debounce_burst_calls_once (burst : list (A * nat)) (a : A) (quiet : nat)
    (st : Debounce.State (A:=A)) :
  Forall (fun c => snd c < wait) burst ->
  wait <= quiet ->
  let st' := Debounce.run wait
               (burst_events burst ++ [Debounce.Call a; Debounce.Idle quiet]) st in
  Debounce.invoked st'
  = (Debounce.invoked st
     ++ [(Debounce.clock st + list_sum (map snd burst) + wait, a)])%list
  /\ Debounce.timeout st' = None.
Proof.
  intros Hgaps Hquiet st'. subst st'.
  change [Debounce.Call a; Debounce.Idle quiet]
    with ([Debounce.Call a] ++ [Debounce.Idle quiet])%list.
  rewrite app_assoc. unfold Debounce.run. rewrite fold_left_app.
  fold (Debounce.run wait (burst_events burst ++ [Debounce.Call a]) st).
  rewrite (burst_pending burst a st Hgaps). simpl. unfold Debounce.pass. simpl.
  destruct (Nat.leb_spec
              (Debounce.clock st + list_sum (map snd burst) + wait)
              (Debounce.clock st + list_sum (map snd burst) + quiet)); [done | lia].
Qed.

Lemma Debounced_step (events : list (Debounce.Event (A:=A))) (st : Debounce.State (A:=A))
    (e : Debounce.Event (A:=A)) :
  Debounced wait events st -> Debounced wait (events ++ [e]) (Debounce.step wait st e).
Proof.
  intros (Hcount & Hclock & Hpending & Hinvoked).
  unfold Debounced, call_args, idle_time in *.
  rewrite flat_map_app, map_app, list_sum_app, length_app.
  destruct e as [a | dt].
  - simpl. split; [destruct (Debounce.timeout st); simpl in *; lia|].
    split; [lia|]. split.
    + intros due a' [= <- <-]. split; [|lia]. rewrite in_app_iff. right. by left.
    + intros t a' Hin. destruct (Hinvoked t a' Hin) as [Ha Ht].
      split; [|done]. rewrite in_app_iff. by left.
  - cbn [Debounce.step flat_map app length list_sum map].
    rewrite !Nat.add_0_r, app_nil_r. unfold Debounce.pass.
    destruct (Debounce.timeout st) as [[due a]|] eqn:Htimer.
    + destruct (Hpending due a eq_refl) as [Ha Hdue].
      destruct (Nat.leb_spec due (Debounce.clock st + dt)) as [Hfire | Hkeep]; simpl.
      * rewrite length_app. simpl. split; [lia|]. split; [lia|]. split; [done|].
        intros t a' Hin. apply in_app_iff in Hin as [Hin | [[= <- <-] | []]].
        -- destruct (Hinvoked t a' Hin) as [Ha' Ht]. split; [done | lia].
        -- split; [done | lia].
      * rewrite Htimer. split; [lia|]. split; [lia|]. split.
        -- intros due' a' [= <- <-]. split; [done | lia].
        -- intros t a' Hin. destruct (Hinvoked t a' Hin) as [Ha' Ht]. split; [done | lia].
    + simpl. rewrite Htimer. split; [lia|]. split; [lia|]. split; [done|].
      intros t a' Hin. destruct (Hinvoked t a' Hin) as [Ha' Ht]. split; [done | lia].
Qed.

Lemma Debounced_run (events : list (Debounce.Event (A:=A))) (st : Debounce.State (A:=A))
    (before : list (Debounce.Event (A:=A))) :
  Debounced wait before st -> Debounced wait (before ++ events) (Debounce.run wait events st).
Proof.
  revert st before. induction events as [|e events IH]; intros st before Hst.
  - by rewrite app_nil_r.
  - change (before ++ e :: events)%list with (before ++ [e] ++ events)%list.
    rewrite app_assoc. apply IH. by apply Debounced_step.
Qed.

(** X9: whatever the calls and the pauses, [func] is called at most once
    per call of the debounced function (a call still waiting counts), every
    time with the arguments of one of those calls, and never in the first
    [wait] ms. *)
Theorem debounce_never_calls_more (events : list (Debounce.Event (A:=A))) :
  let st := Debounce.run wait events Debounce.fresh in
  length (Debounce.invoked st) + (if Debounce.timeout st is Some _ then 1 else 0)
  <= length (call_args events)
  /\ Forall (fun c => In (snd c) (call_args events) /\ wait <= fst c) (Debounce.invoked st).
Proof.
  intros st.
  assert (Hst : Debounced wait events st).
  { apply (Debounced_run events Debounce.fresh []).
    repeat split; simpl; try lia; try done. }
  destruct Hst as (Hcount & _ & _ & Hinvoked). split; [done|].
  apply Forall_forall. intros [t a] Hin.
  destruct (Hinvoked t a) as [Ha Ht]; [by apply list_elem_of_In|]. simpl. split; [done | lia].
Qed.

End DebounceFacts.

(** ** Sorting a table *)

Section TableFacts.

Variable localeCompare : string -> string -> Z.

Lemma insert_Permutation b x l :
  Permutation (Table.insert localeCompare b x l) (x :: l).
Proof.
  induction l as [|y l IH]; simpl; [done|].
  destruct (_ <=? 0)%Z; [done|]. rewrite IH. apply perm_swap.
Qed.

Lemma sort_Permutation b l : Permutation (Table.sort localeCompare b l) l.
Proof.
  induction l as [|x l IH]; simpl; [done|].
  rewrite insert_Permutation. by constructor.
Qed.

Lemma keyed_rows column l keys :
  Table.keyed column l = Some keys ->
  map snd keys = l /\ Forall (fun k => fst k = sort_key column (snd k)) keys.
Proof.
  revert keys. induction l as [|row l IH]; intros keys; simpl.
  - intros [= <-]. by split.
  - destruct (row !! column) as [cell|] eqn:Hcell; [|done].
    destruct (Table.keyed column l) as [rest|]; [|done].
    intros [= <-]. destruct (IH rest eq_refl) as [Hrows Hkeys]. split.
    + simpl. by rewrite Hrows.
    + constructor; [|done]. unfold sort_key. simpl. by rewrite Hcell.
Qed.

Lemma keyed_None column l :
  Table.keyed column l = None <-> Exists (fun row => length row <= column) l.
Proof.
  induction l as [|row l IH]; simpl.
  - split; [done | by intros ?%Exists_nil].
  - rewrite Exists_cons, <- IH. destruct (row !! column) as [cell|] eqn:Hcell.
    + apply lookup_lt_Some in Hcell.
      destruct (Table.keyed column l) as [rest|].
      * split; [done|]. intros [Hshort | Hnone]; [lia | done].
      * split; [by right | done].
    + apply lookup_ge_None in Hcell. split; [by left | done].
Qed.

Lemma remark_lookup i mark headers j :
  Table.remark i mark headers !! j
  = (fun h =>
       {| Table.cellIndex := Table.cellIndex h;
          Table.classList :=
            if Nat.eqb i j
            then Table.classList h ∖ {[ "asc"; "desc" ]} ∪ {[ mark ]}
            else Table.classList h ∖ {[ "asc"; "desc" ]} |}) <$> headers !! j.
Proof. unfold Table.remark. by rewrite list_lookup_imap. Qed.

Lemma remark_cellIndex i mark headers :
  map Table.cellIndex (Table.remark i mark headers) = map Table.cellIndex headers.
Proof.
  apply list_eq. intros j.
  rewrite !list_lookup_fmap, remark_lookup. by destruct (headers !! j).
Qed.

(** X10: a click that sorts never loses or repeats a row, and leaves every
    header where it is. *)
Theorem click_permutes_rows (i : nat) (st st' : Table.State) :
  Table.click localeCompare i st = Some st' ->
  Permutation (Table.rows st') (Table.rows st)
  /\ map Table.cellIndex (Table.sortable st') = map Table.cellIndex (Table.sortable st).
Proof.
  unfold Table.click. destruct (Table.sortable st !! i) as [this|]; [|by intros [= <-]].
  destruct (length (Table.rows st) <? 2)%nat.
  - intros [= <-]. simpl. split; [done | apply remark_cellIndex].
  - destruct (Table.keyed (Table.cellIndex this) (Table.rows st)) as [keys|] eqn:Hkeys;
      [|done].
    intros [= <-]. simpl. split; [|apply remark_cellIndex].
    destruct (keyed_rows _ _ _ Hkeys) as [<- _].
    apply Permutation_map, sort_Permutation.
Qed.

(** X11: the handler throws exactly when there are at least two rows and
    one of them has no cell in the clicked column; with fewer than two rows
    the comparator never runs. *)
Theorem click_throws_on_short_row (i : nat) (st : Table.State) (this : Table.Sortable) :
  Table.sortable st !! i = Some this ->
  Table.click localeCompare i st = None
  <-> 2 <= length (Table.rows st)
      /\ Exists (fun row => length row <= Table.cellIndex this) (Table.rows st).
Proof.
  intros Hthis. unfold Table.click. rewrite Hthis.
  destruct (Nat.ltb_spec (length (Table.rows st)) 2) as [Hfew | Hmany].
  - split; [done | lia].
  - rewrite <- keyed_None.
    destruct (Table.keyed (Table.cellIndex this) (Table.rows st)); simpl; split;
      try done; intros [_ ?]; done.
Qed.

(** [localeCompare] orders the strings: any two compare, and the order is
    transitive. *)
Hypothesis total : forall a b, (localeCompare a b <= 0)%Z \/ (localeCompare b a <= 0)%Z.
Hypothesis transitive :
  forall a b c, (localeCompare a b <= 0)%Z -> (localeCompare b c <= 0)%Z ->
                (localeCompare a c <= 0)%Z.

Lemma compare_total b x y :
  (Table.compare localeCompare b x y <= 0)%Z \/ (Table.compare localeCompare b y x <= 0)%Z.
Proof. unfold Table.compare. destruct b; apply total. Qed.

Lemma insert_Sorted b x l :
  Sorted (fun k1 k2 => (Table.compare localeCompare b (fst k1) (fst k2) <= 0)%Z) l ->
  Sorted (fun k1 k2 => (Table.compare localeCompare b (fst k1) (fst k2) <= 0)%Z)
    (Table.insert localeCompare b x l).
Proof.
  induction l as [|y l IH]; intros Hl; simpl.
  - repeat constructor.
  - destruct (Z.leb_spec (Table.compare localeCompare b (fst x) (fst y)) 0) as [Hle | Hgt].
    + constructor; [done | by constructor].
    + apply Sorted_inv in Hl as [Hl Hy]. constructor; [by apply IH|].
      assert (Hyx : (Table.compare localeCompare b (fst y) (fst x) <= 0)%Z).
      { destruct (compare_total b (fst x) (fst y)); [lia | done]. }
      destruct l as [|z l]; simpl.
      * by constructor.
      * destruct (_ <=? 0)%Z; constructor; [done|]. by apply HdRel_inv in Hy.
Qed.

Lemma sort_Sorted b l :
  Sorted (fun k1 k2 => (Table.compare localeCompare b (fst k1) (fst k2) <= 0)%Z)
    (Table.sort localeCompare b l).
Proof. induction l as [|x l IH]; simpl; [constructor | by apply insert_Sorted]. Qed.

Lemma Sorted_rows b column keys :
  Forall (fun k => fst k = sort_key column (snd k)) keys ->
  Sorted (fun k1 k2 => (Table.compare localeCompare b (fst k1) (fst k2) <= 0)%Z) keys ->
  Sorted (in_order localeCompare b column) (map snd keys).
Proof.
  induction keys as [|k keys IH]; intros Hkeys Hsorted; simpl; [constructor|].
  apply Forall_cons in Hkeys as [Hk Hkeys]. apply Sorted_inv in Hsorted as [Hsorted Hhd].
  constructor; [by apply IH|].
  destruct keys as [|k' keys]; simpl; constructor.
  apply Forall_cons in Hkeys as [Hk' _]. apply HdRel_inv in Hhd.
  unfold in_order. by rewrite <- Hk, <- Hk'.
Qed.

Lemma insert_ties b x l k :
  List.filter (fun kr => tied localeCompare k (fst kr)) (Table.insert localeCompare b x l)
  = if tied localeCompare k (fst x)
    then x :: List.filter (fun kr => tied localeCompare k (fst kr)) l
    else List.filter (fun kr => tied localeCompare k (fst kr)) l.
Proof.
  induction l as [|y l IH]; simpl; [done|].
  destruct (Z.leb_spec (Table.compare localeCompare b (fst x) (fst y)) 0) as [Hle | Hgt].
  - done.
  - simpl. rewrite IH.
    destruct (tied localeCompare k (fst x)) eqn:Hx, (tied localeCompare k (fst y)) eqn:Hy;
      try done.
    exfalso. unfold tied in Hx, Hy.
    apply andb_true_iff in Hx as [Hxk Hkx], Hy as [Hyk Hky].
    apply Z.leb_le in Hxk, Hkx, Hyk, Hky.
    pose proof (transitive _ _ _ Hkx Hyk). pose proof (transitive _ _ _ Hky Hxk).
    unfold Table.compare in Hgt. destruct b; lia.
Qed.

Lemma sort_ties b l k :
  List.filter (fun kr => tied localeCompare k (fst kr)) (Table.sort localeCompare b l)
  = List.filter (fun kr => tied localeCompare k (fst kr)) l.
Proof.
  induction l as [|x l IH]; simpl; [done|].
  rewrite insert_ties, IH. by destruct (tied localeCompare k (fst x)).
Qed.

Lemma ties_rows column keys k :
  Forall (fun kr => fst kr = sort_key column (snd kr)) keys ->
  List.filter (fun row => tied localeCompare k (sort_key column row)) (map snd keys)
  = map snd (List.filter (fun kr => tied localeCompare k (fst kr)) keys).
Proof.
  induction keys as [|kr keys IH]; intros Hkeys; simpl; [done|].
  apply Forall_cons in Hkeys as [Hkr Hkeys]. rewrite <- Hkr, (IH Hkeys).
  by destruct (tied localeCompare k (fst kr)).
Qed.

(** X12: the sort is stable.  For a transitive [localeCompare], the rows
    whose trimmed text in the clicked column compares equal to a given text
    keep the order they had before the click. *)
Theorem click_keeps_ties_in_order (i : nat) (st st' : Table.State) (this : Table.Sortable)
    (text : string) :
  Table.sortable st !! i = Some this ->
  Table.click localeCompare i st = Some st' ->
  List.filter (fun row => tied localeCompare text (sort_key (Table.cellIndex this) row))
              (Table.rows st')
  = List.filter (fun row => tied localeCompare text (sort_key (Table.cellIndex this) row))
                (Table.rows st).
Proof.
  intros Hthis Hclick. unfold Table.click in Hclick. rewrite Hthis in Hclick.
  destruct (length (Table.rows st) <? 2)%nat.
  - by injection Hclick as <-.
  - destruct (Table.keyed (Table.cellIndex this) (Table.rows st)) as [keys|] eqn:Hkeys;
      [|done].
    injection Hclick as <-. simpl.
    destruct (keyed_rows _ _ _ Hkeys) as [Hrows Hfst].
    rewrite <- Hrows, !ties_rows, sort_ties; [done | done |].
    apply Forall_forall. intros kr Hkr.
    apply list_elem_of_In, (Permutation_in _ (sort_Permutation _ _)), list_elem_of_In in Hkr.
    revert kr Hkr. by apply Forall_forall.
Qed.

Lemma in_order_Transitive b column :
  Relations_1.Transitive (in_order localeCompare b column).
Proof.
  intros r1 r2 r3. unfold in_order, Table.compare. destruct b; intros H12 H23.
  - by apply (transitive _ (sort_key column r2)).
  - by apply (transitive _ (sort_key column r2)).
Qed.

(** X13: the mark a click leaves names the other direction.  A click on a
    header without the [asc] mark leaves the rows in descending order of the
    column and marks the header [asc]; a click on a header marked [asc] leaves
    them ascending and marks it [desc].  No other sortable header keeps a
    mark. *)
Theorem click_sorts_against_the_mark (i : nat) (st st' : Table.State)
    (this : Table.Sortable) :
  Table.sortable st !! i = Some this ->
  Table.click localeCompare i st = Some st' ->
  let isAscending := marked "asc" this in
  StronglySorted (in_order localeCompare isAscending (Table.cellIndex this)) (Table.rows st')
  /\ (exists this',
        Table.sortable st' !! i = Some this'
        /\ marked "asc" this' = negb isAscending
        /\ marked "desc" this' = isAscending)
  /\ (forall j other, j <> i -> Table.sortable st' !! j = Some other ->
      marked "asc" other = false /\ marked "desc" other = false).
Proof.
  intros Hthis Hclick isAscending. unfold Table.click in Hclick.
  rewrite Hthis in Hclick. fold (marked "asc" this) in Hclick. fold isAscending in Hclick.
  assert (Hrows : Sorted (in_order localeCompare isAscending (Table.cellIndex this))
                    (Table.rows st')
                  /\ Table.sortable st'
                     = Table.remark i (if isAscending then "desc" else "asc")
                         (Table.sortable st)).
  { destruct (Nat.ltb_spec (length (Table.rows st)) 2) as [Hfew | Hmany].
    - injection Hclick as <-. split; [|done]. simpl.
      destruct (Table.rows st) as [|r1 [|r2 rest]]; simpl in Hfew; try lia;
        repeat constructor.
    - destruct (Table.keyed (Table.cellIndex this) (Table.rows st)) as [keys|] eqn:Hkeys;
        [|done].
      injection Hclick as <-. split; [|done]. simpl.
      destruct (keyed_rows _ _ _ Hkeys) as [_ Hfst].
      apply Sorted_rows; [|apply sort_Sorted].
      apply Forall_forall. intros k Hk.
      apply list_elem_of_In, (Permutation_in _ (sort_Permutation _ _)), list_elem_of_In in Hk.
      revert k Hk. by apply Forall_forall. }
  destruct Hrows as [Hsorted ->].
  split; [apply Sorted_StronglySorted; [apply in_order_Transitive | done]|]. split.
  - eexists. rewrite remark_lookup, Hthis, Nat.eqb_refl. split; [reflexivity|].
    unfold marked. simpl.
    destruct isAscending; simpl; split;
      first [apply bool_decide_eq_true | apply bool_decide_eq_false]; set_solver.
  - intros j other Hj. rewrite remark_lookup.
    destruct (Table.sortable st !! j) as [h|]; [|done]. intros [= <-].
    apply Nat.eqb_neq in Hj. rewrite Nat.eqb_sym in Hj. rewrite Hj.
    unfold marked. simpl. split; apply bool_decide_eq_false; set_solver.
Qed.

End TableFacts.

(** ** Selecting rows *)

Lemma count_occ_all (checked : bool) (l : list bool) :
  count_occ bool_dec (map (fun _ => checked) l) true = if checked then length l else 0.
Proof. induction l as [|b l IH]; destruct checked; simpl in *; auto. Qed.

Lemma updateBulkActions_panel (st : Selection.State) (panel : Selection.BulkActions)
    (text : string) (boxes : list bool) (all : option bool) :
  Selection.bulkActions st = Some panel ->
  Selection.selectedCount panel = Some text ->
  let st1 := {| Selection.selectAll := all; Selection.rowCheckboxes := boxes;
                Selection.bulkActions := Selection.bulkActions st |} in
  snd (Selection.updateBulkActions st1) = false
  /\ Selection.bulkActions (fst (Selection.updateBulkActions st1))
     = Some (if (0 <? count_occ bool_dec boxes true)%nat
             then {| Selection.display := "block";
                     Selection.selectedCount :=
                       Some (pretty (count_occ bool_dec boxes true)) |}
             else {| Selection.display := "none";
                     Selection.selectedCount := Some text |})
  /\ Selection.rowCheckboxes (fst (Selection.updateBulkActions st1)) = boxes.
Proof.
  intros Hpanel Htext. unfold Selection.updateBulkActions. simpl.
  rewrite Hpanel, Htext. destruct (0 <? _)%nat; simpl; by rewrite ?Htext.
Qed.

(** X14: after every change of a box on a page whose listeners are
    installed and whose panel has its counter, the panel is displayed exactly
    when a row is selected, and then its counter shows how many are.  When the
    last row is deselected the panel is hidden and the counter keeps its old
    text. *)
Theorem bulk_panel_follows_the_boxes (c : Selection.Change) (st : Selection.State)
    (panel : Selection.BulkActions) (text : string) :
  Selection.wired st = true ->
  Selection.bulkActions st = Some panel ->
  Selection.selectedCount panel = Some text ->
  let st' := fst (Selection.change c st) in
  let selected := count_occ bool_dec (Selection.rowCheckboxes st') true in
  snd (Selection.change c st) = false
  /\ Selection.bulkActions st'
     = Some (if (0 <? selected)%nat
             then {| Selection.display := "block";
                     Selection.selectedCount := Some (pretty selected) |}
             else {| Selection.display := "none";
                     Selection.selectedCount := Some text |})
  /\ Selection.rowCheckboxes st'
     = match c with
       | Selection.SelectAll checked => map (fun _ => checked) (Selection.rowCheckboxes st)
       | Selection.Row i => alter negb i (Selection.rowCheckboxes st)
       end.
Proof.
  intros Hwired Hpanel Htext.
  pose proof (fun boxes all => updateBulkActions_panel st panel text boxes all Hpanel Htext)
    as Hupdate.
  destruct c as [checked | i]; unfold Selection.change; rewrite Hwired.
  - unfold Selection.wired in Hwired. destruct (Selection.selectAll st); [|done].
    destruct (Hupdate (map (fun _ => checked) (Selection.rowCheckboxes st)) (Some checked))
      as (Hthrown & Hbulk & Hboxes).
    cbn zeta. rewrite Hboxes. done.
  - destruct (Hupdate (alter negb i (Selection.rowCheckboxes st)) (Selection.selectAll st))
      as (Hthrown & Hbulk & Hboxes).
    cbn zeta. rewrite Hboxes. done.
Qed.

(** X15: a select-all change selects every row or none: the counter then
    shows the number of rows, or the panel is hidden. *)
Theorem select_all_counts_every_row (checked : bool) (st : Selection.State)
    (panel : Selection.BulkActions) (text : string) :
  Selection.wired st = true ->
  Selection.bulkActions st = Some panel ->
  Selection.selectedCount panel = Some text ->
  Selection.bulkActions (fst (Selection.change (Selection.SelectAll checked) st))
  = Some (if checked
          then {| Selection.display := "block";
                  Selection.selectedCount :=
                    Some (pretty (length (Selection.rowCheckboxes st))) |}
          else {| Selection.display := "none"; Selection.selectedCount := Some text |}).
Proof.
  intros Hwired Hpanel Htext.
  unfold Selection.change. rewrite Hwired.
  unfold Selection.wired in Hwired. destruct (Selection.selectAll st); [|done].
  destruct (updateBulkActions_panel st panel text
              (map (fun _ => checked) (Selection.rowCheckboxes st)) (Some checked)
              Hpanel Htext) as (_ & Hbulk & _).
  cbn zeta in Hbulk. rewrite Hbulk, count_occ_all.
  destruct checked; [|done]. by rewrite Hwired.
Qed.

(** X16: a panel without a [.selected-count] is still displayed when a row
    is selected, and the listener then throws; it is hidden without an error
    when none is. *)
Theorem bulk_panel_without_counter_throws (c : Selection.Change) (st : Selection.State)
    (panel : Selection.BulkActions) :
  Selection.wired st = true ->
  Selection.bulkActions st = Some panel ->
  Selection.selectedCount panel = None ->
  let st' := fst (Selection.change c st) in
  let selected := count_occ bool_dec (Selection.rowCheckboxes st') true in
  snd (Selection.change c st) = (0 <? selected)%nat
  /\ Selection.bulkActions st'
     = Some {| Selection.display := if (0 <? selected)%nat then "block" else "none";
               Selection.selectedCount := None |}.
Proof.
  intros Hwired Hpanel Hcount.
  assert (Hupdate : forall boxes all,
    let st1 := {| Selection.selectAll := all; Selection.rowCheckboxes := boxes;
                  Selection.bulkActions := Selection.bulkActions st |} in
    let selected := count_occ bool_dec (Selection.rowCheckboxes
                                          (fst (Selection.updateBulkActions st1))) true in
    snd (Selection.updateBulkActions st1) = (0 <? selected)%nat
    /\ Selection.bulkActions (fst (Selection.updateBulkActions st1))
       = Some {| Selection.display := if (0 <? selected)%nat then "block" else "none";
                 Selection.selectedCount := None |}).
  { intros boxes all. unfold Selection.updateBulkActions. simpl.
    rewrite Hpanel, Hcount. destruct (0 <? _)%nat eqn:Hsel; simpl; by rewrite ?Hsel, ?Hcount. }
  destruct c as [checked | i]; unfold Selection.change; rewrite Hwired.
  - unfold Selection.wired in Hwired. destruct (Selection.selectAll st); [|done].
    apply Hupdate.
  - apply Hupdate.
Qed.

(** ** Regular expressions *)

Lemma Matches_Cat (r1 r2 : Regex.re) (l : list string) :
  Matches (Regex.Cat r1 r2) l
  <-> exists l1 l2, l = (l1 ++ l2)%list /\ Matches r1 l1 /\ Matches r2 l2.
Proof.
  split.
  - intros H. inversion H; subst. eauto.
  - intros (l1 & l2 & -> & H1 & H2). by constructor.
Qed.

Lemma nullable_Matches (r : Regex.re) : Regex.nullable r = true <-> Matches r [].
Proof.
  induction r as [| |f|r1 IH1 r2 IH2|r1 IH1 r2 IH2|r IH]; simpl; split; intros H.
  - discriminate.
  - inversion H.
  - constructor.
  - done.
  - discriminate.
  - inversion H.
  - apply andb_true_iff in H as [H1 H2].
    change (@nil string) with (@nil string ++ [])%list.
    constructor; [by apply IH1 | by apply IH2].
  - apply Matches_Cat in H as (l1 & l2 & Heq & H1 & H2).
    symmetry in Heq. apply app_eq_nil in Heq as [-> ->].
    apply andb_true_iff; split; [by apply IH1 | by apply IH2].
  - apply orb_true_iff in H as [H|H]; [apply MAltL; by apply IH1 | apply MAltR; by apply IH2].
  - apply orb_true_iff. inversion H; subst; [left; by apply IH1 | right; by apply IH2].
  - constructor.
  - done.
Qed.

Lemma Matches_Star_cons (r : Regex.re) (u : string) (l : list string) :
  Matches (Regex.Star r) (u :: l) ->
  exists l1 l2, l = (l1 ++ l2)%list /\ Matches r (u :: l1) /\ Matches (Regex.Star r) l2.
Proof.
  intros H. remember (Regex.Star r) as r' eqn:Hr. remember (u :: l) as t eqn:Ht.
  revert Hr Ht. induction H as [| | | | | |r0 l1 l2 H1 _ H2 IH2]; intros Hr Ht; try discriminate.
  injection Hr as ->. destruct l1 as [|u1 l1]; simpl in Ht.
  - by apply IH2.
  - injection Ht as -> <-. by exists l1, l2.
Qed.

Lemma deriv_Matches (r : Regex.re) (u : string) (l : list string) :
  Matches (Regex.deriv u r) l <-> Matches r (u :: l).
Proof.
  revert l. induction r as [| |f|r1 IH1 r2 IH2|r1 IH1 r2 IH2|r IH]; intros l; simpl.
  - split; intros H; inversion H.
  - split; intros H; inversion H.
  - destruct (f u) eqn:Hf; split; intros H.
    + inversion H; subst. by constructor.
    + inversion H; subst. constructor.
    + inversion H.
    + inversion H; subst. congruence.
  - assert (Hcat : Matches (Regex.Cat (Regex.deriv u r1) r2) l
                   <-> exists l1 l2, l = (l1 ++ l2)%list /\ Matches r1 (u :: l1)
                                     /\ Matches r2 l2).
    { split.
      - intros H. apply Matches_Cat in H as (l1 & l2 & -> & H1 & H2).
        exists l1, l2. split; [done|]. split; [by apply IH1 | done].
      - intros (l1 & l2 & -> & H1 & H2). constructor; [by apply IH1 | done]. }
    assert (Hsplit : Matches (Regex.Cat r1 r2) (u :: l)
                     <-> (exists l1 l2, l = (l1 ++ l2)%list /\ Matches r1 (u :: l1)
                                        /\ Matches r2 l2)
                         \/ (Matches r1 [] /\ Matches r2 (u :: l))).
    { split.
      - intros H. apply Matches_Cat in H as (l1 & l2 & Heq & H1 & H2).
        destruct l1 as [|u1 l1]; simpl in Heq.
        + subst. by right.
        + injection Heq as -> ->. left. by exists l1, l2.
      - intros [(l1 & l2 & -> & H1 & H2) | [H1 H2]].
        + change (u :: l1 ++ l2)%list with ((u :: l1) ++ l2)%list. by constructor.
        + change (u :: l) with ([] ++ u :: l)%list. by constructor. }
    rewrite Hsplit. destruct (Regex.nullable r1) eqn:Hn.
    + split.
      * intros H. inversion H; subst; [left; by apply Hcat | right].
        split; [by apply nullable_Matches | by apply IH2].
      * intros [H | [_ H]]; [apply MAltL; by apply Hcat | apply MAltR; by apply IH2].
    + rewrite Hcat. split; [by left|]. intros [H | [H _]]; [done|].
      apply nullable_Matches in H. congruence.
  - split; intros H; inversion H; subst;
      first [apply MAltL; by apply IH1 | apply MAltR; by apply IH2].
  - split.
    + intros H. apply Matches_Cat in H as (l1 & l2 & -> & H1 & H2).
      change (u :: l1 ++ l2)%list with ((u :: l1) ++ l2)%list.
      constructor; [by apply IH | done].
    + intros H. apply Matches_Star_cons in H as (l1 & l2 & -> & H1 & H2).
      constructor; [by apply IH | done].
Qed.

(** The matcher decides the language of the pattern. *)
Lemma matches_Matches (r : Regex.re) (l : list string) :
  Regex.matches r l = true <-> Matches r l.
Proof.
  revert r. induction l as [|u l IH]; intros r; simpl.
  - apply nullable_Matches.
  - rewrite IH. apply deriv_Matches.
Qed.

Lemma Matches_Class_Cat (f : string -> bool) (r : Regex.re) (l : list string) :
  Matches (Regex.Cat (Regex.Class f) r) l
  <-> exists u l', l = u :: l' /\ f u = true /\ Matches r l'.
Proof.
  split.
  - intros H. apply Matches_Cat in H as (l1 & l2 & -> & H1 & H2).
    inversion H1; subst. simpl. eauto.
  - intros (u & l' & -> & Hf & Hr).
    change (u :: l') with ([u] ++ l')%list. constructor; [by constructor | done].
Qed.

Lemma Matches_times_Class (f : string -> bool) (n : nat) (l : list string) :
  Matches (Regex.times n (Regex.Class f)) l
  <-> length l = n /\ forallb f l = true.
Proof.
  revert l. induction n as [|n IH]; intros l; simpl.
  - split.
    + intros H. inversion H. done.
    + intros [Hlen _]. destruct l; [constructor | discriminate].
  - rewrite Matches_Class_Cat. split.
    + intros (u & l' & -> & Hf & Hr). apply IH in Hr as [Hlen Hall].
      simpl. rewrite Hf, Hall, Hlen. done.
    + intros [Hlen Hall]. destruct l as [|u l']; [discriminate|].
      simpl in *. apply andb_true_iff in Hall as [Hf Hall].
      exists u, l'. split; [done|]. split; [done|]. apply IH. split; [lia | done].
Qed.

Lemma Matches_Star_Class (f : string -> bool) (l : list string) :
  Matches (Regex.Star (Regex.Class f)) l <-> forallb f l = true.
Proof.
  split.
  - intros H. remember (Regex.Star (Regex.Class f)) as r eqn:Hr. revert Hr.
    induction H as [| | | | | |r0 l1 l2 H1 _ H2 IH2]; intros Hr; try discriminate; [done|].
    injection Hr as ->. inversion H1; subst. simpl.
    rewrite IH2 by done. by rewrite andb_true_r.
  - induction l as [|u l IH]; simpl; intros H; [constructor|].
    apply andb_true_iff in H as [Hf Hall].
    change (u :: l) with ([u] ++ l)%list. constructor; [by constructor | auto].
Qed.

Lemma Matches_plus_Class (f : string -> bool) (l : list string) :
  Matches (Regex.plus (Regex.Class f)) l <-> l <> [] /\ forallb f l = true.
Proof.
  unfold Regex.plus. rewrite Matches_Class_Cat. split.
  - intros (u & l' & -> & Hf & Hr). apply Matches_Star_Class in Hr.
    simpl. by rewrite Hf, Hr.
  - intros [Hne Hall]. destruct l as [|u l']; [done|]. simpl in Hall.
    apply andb_true_iff in Hall as [Hf Hall].
    exists u, l'. split; [done|]. split; [done|]. by apply Matches_Star_Class.
Qed.

(** ** Validating forms *)

(** Pieces that are digits are the bytes of a string of digits. *)
Lemma glue_digits (l : list string) :
  forallb Regex.digit l = true ->
  String.length (glue l) = length l /\ all_chars Html.is_digit (glue l) = true.
Proof.
  induction l as [|u l IH]; simpl; [done|]. intros Hall.
  apply andb_true_iff in Hall as [Hu Hall]. destruct (IH Hall) as [Hlen Hdigits].
  unfold Regex.digit, Regex.byte_of in Hu. destruct u as [|c [|c' u]]; try done.
  simpl. rewrite Hlen. split; [done|]. unfold Html.is_digit. by rewrite Hu.
Qed.

Lemma digit_not_space (c : ascii) (s : string) :
  48 <= nat_of_ascii c <= 57 -> space_width (String c s) = 0.
Proof.
  intros Hc. apply space_width_ascii; [|lia]. unfold is_space. cbn zeta.
  apply orb_false_iff. split.
  - apply andb_false_iff. right. apply Nat.leb_gt. lia.
  - apply Nat.eqb_neq. lia.
Qed.

Lemma units_digits (s : string) :
  all_chars Html.is_digit s = true ->
  forallb Regex.digit (JsText.units s) = true /\ length (JsText.units s) = String.length s.
Proof.
  induction s as [|c s IH]; [done|]. cbn [all_chars]. intros Hall.
  apply andb_true_iff in Hall as [Hc Hall]. destruct (IH Hall) as [Hdigits Hlen].
  pose proof Hc as Hc'. unfold Html.is_digit in Hc'. cbn zeta in Hc'.
  apply andb_true_iff in Hc' as [Hlo Hhi]. apply Nat.leb_le in Hlo, Hhi.
  rewrite units_cons by (apply digit_not_space; lia).
  cbn [forallb length String.length]. rewrite Hdigits, Hlen. split; [|done].
  rewrite andb_true_r. exact Hc.
Qed.

Lemma phoneRegex_shape (s : string) :
  Regex.test Validation.phoneRegex s = true <-> phone_shape s.
Proof.
  unfold Regex.test. rewrite matches_Matches.
  unfold Validation.phoneRegex, Regex.char, Regex.range, phone_shape.
  rewrite Matches_Class_Cat. split.
  - intros (u1 & l1 & Hunits & H1 & H).
    apply Matches_Class_Cat in H as (u2 & rest & -> & Hc & H).
    apply Matches_times_Class in H as [Hlen Hall].
    apply String.eqb_eq in H1 as <-.
    unfold Regex.byte_of in Hc. destruct u2 as [|c [|c' u2]]; try done.
    apply andb_true_iff in Hc as [Hlo Hhi]. apply Nat.leb_le in Hlo, Hhi.
    change (nat_of_ascii "3") with 51 in Hlo. change (nat_of_ascii "9") with 57 in Hhi.
    destruct (glue_digits rest Hall) as [Hglue Hdigits].
    exists c, (glue rest). split; [|by rewrite Hglue].
    rewrite <- (glue_units s), Hunits. done.
  - intros (c & rest & -> & Hc & Hlen & Hall).
    destruct (units_digits rest Hall) as [Hdigits Hcount].
    exists "1", (String c EmptyString :: JsText.units rest). split.
    + rewrite units_cons by (apply digit_not_space; change (nat_of_ascii "1") with 49; lia).
      by rewrite units_cons by (apply digit_not_space; lia).
    + split; [apply String.eqb_refl|]. apply Matches_Class_Cat.
      exists (String c EmptyString), (JsText.units rest). split; [done|]. split.
      * cbn [Regex.byte_of]. apply andb_true_iff. split; apply Nat.leb_le.
        -- change (nat_of_ascii "3") with 51. lia.
        -- change (nat_of_ascii "9") with 57. lia.
      * apply Matches_times_Class. split; [lia | done].
Qed.

Lemma emailRegex_shape (s : string) :
  Regex.test Validation.emailRegex s = true <-> email_shape s.
Proof.
  unfold Regex.test. rewrite matches_Matches.
  unfold Validation.emailRegex, Regex.char, email_shape, email_part.
  rewrite Matches_Cat. split.
  - intros (user & l1 & Hunits & Huser & H).
    apply Matches_Class_Cat in H as (u & l2 & -> & Hat & H).
    apply String.eqb_eq in Hat as <-.
    apply Matches_Cat in H as (host & l3 & -> & Hhost & H).
    apply Matches_Class_Cat in H as (u & tld & -> & Hdot & Htld).
    apply String.eqb_eq in Hdot as <-.
    apply Matches_plus_Class in Huser, Hhost, Htld.
    exists user, host, tld. done.
  - intros (user & host & tld & Hunits & Huser & Hhost & Htld).
    exists user, (["@"] ++ host ++ ["."] ++ tld)%list. split; [done|].
    split; [by apply Matches_plus_Class|].
    apply Matches_Class_Cat. exists "@", (host ++ ["."] ++ tld)%list.
    split; [done|]. split; [done|].
    apply Matches_Cat. exists host, (["."] ++ tld)%list. split; [done|].
    split; [by apply Matches_plus_Class|].
    apply Matches_Class_Cat. exists ".", tld.
    split; [done|]. split; [done|]. by apply Matches_plus_Class.
Qed.

Lemma eqb_empty (s : string) : String.eqb s "" = true <-> s = "".
Proof. apply String.eqb_eq. Qed.

Lemma check_acceptable (field : Validation.Field) :
  fst (Validation.check field) = true <-> acceptable field.
Proof.
  unfold Validation.check, acceptable. cbn zeta.
  pose proof (emailRegex_shape (JsText.trim (Validation.value field))) as Hemail.
  pose proof (phoneRegex_shape (JsText.trim (Validation.value field))) as Hphone.
  pose proof (eqb_empty (JsText.trim (Validation.value field))) as Hempty.
  pose proof (String.eqb_eq (Validation.type field) "email") as Htype.
  pose proof (String.eqb_eq (Validation.name field) "phone") as Hname.
  destruct (Validation.required field),
    (String.eqb (JsText.trim (Validation.value field)) ""),
    (String.eqb (Validation.type field) "email"),
    (String.eqb (Validation.name field) "phone"),
    (Regex.test Validation.emailRegex (JsText.trim (Validation.value field))),
    (Regex.test Validation.phoneRegex (JsText.trim (Validation.value field)));
    simpl; (split; [intros H | intros (H1 & H2 & H3)]); try done;
    try (repeat split; intros; intuition congruence);
    try (exfalso; intuition congruence).
Qed.

Lemma validateField_result (field : Validation.Field) (feedback : Validation.Feedback) :
  (Validation.validateField field feedback).1.1 = fst (Validation.check field).
Proof.
  unfold Validation.validateField. destruct (Validation.check field) as [ok message].
  destruct (feedback !! Validation.parentNode field); [destruct ok|]; done.
Qed.

Lemma validateForm_from_result (isValid : bool) (form : list Validation.Field)
    (feedback : Validation.Feedback) :
  (Validation.validateForm_from isValid form feedback).1.1
  = isValid && forallb (fun field => implb (Validation.required field)
                                       (fst (Validation.check field))) form.
Proof.
  revert isValid feedback. induction form as [|field form IH]; intros isValid feedback; simpl.
  - by rewrite andb_true_r.
  - destruct (Validation.required field) eqn:Hreq; simpl.
    + pose proof (validateField_result field feedback) as Hres.
      destruct (Validation.validateField field feedback) as [[ok field'] feedback'].
      simpl in Hres. subst ok.
      specialize (IH (if negb (Validation.check field).1 then false else isValid) feedback').
      destruct (Validation.validateForm_from _ form feedback') as [[result rest'] feedback''].
      simpl in *. rewrite IH. by destruct (Validation.check field).1, isValid.
    + specialize (IH isValid feedback).
      destruct (Validation.validateForm_from isValid form feedback) as [[result rest'] feedback'].
      done.
Qed.

Lemma validateField_feedback (field : Validation.Field) (feedback : Validation.Feedback) :
  (Validation.validateField field feedback).2
  = match feedback !! Validation.parentNode field with
    | Some _ => <[Validation.parentNode field :=
                   if fst (Validation.check field) then "" else snd (Validation.check field)]>
                  feedback
    | None => feedback
    end.
Proof.
  unfold Validation.validateField. destruct (Validation.check field) as [ok message].
  destruct (feedback !! Validation.parentNode field); [destruct ok|]; done.
Qed.

Lemma validateForm_from_feedback (isValid : bool) (form : list Validation.Field)
    (feedback : Validation.Feedback) (parent : nat) :
  forallb (fun field => negb (Validation.required field
                              && Nat.eqb (Validation.parentNode field) parent)) form = true ->
  (Validation.validateForm_from isValid form feedback).2 !! parent = feedback !! parent.
Proof.
  revert isValid feedback. induction form as [|field form IH]; intros isValid feedback; simpl.
  - done.
  - intros Hform. apply andb_true_iff in Hform as [Hfield Hform].
    destruct (Validation.required field) eqn:Hreq; simpl in Hfield.
    + pose proof (validateField_feedback field feedback) as Hfb.
      destruct (Validation.validateField field feedback) as [[ok field'] feedback'].
      cbn [fst snd] in Hfb.
      specialize (IH (if negb ok then false else isValid) feedback' Hform).
      destruct (Validation.validateForm_from _ form feedback') as [[result rest'] feedback''].
      cbn [fst snd] in *. rewrite IH, Hfb.
      apply negb_true_iff, Nat.eqb_neq in Hfield.
      destruct (feedback !! Validation.parentNode field); [|done].
      by rewrite lookup_insert_ne.
    + specialize (IH isValid feedback Hform).
      destruct (Validation.validateForm_from isValid form feedback) as [[result rest'] feedback'].
      done.
Qed.

Lemma validateForm_from_keeps_feedback (isValid : bool) (form : list Validation.Field)
    (feedback : Validation.Feedback) (parent : nat) :
  is_Some ((Validation.validateForm_from isValid form feedback).2 !! parent)
  <-> is_Some (feedback !! parent).
Proof.
  revert isValid feedback. induction form as [|field form IH]; intros isValid feedback; simpl.
  - done.
  - destruct (Validation.required field) eqn:Hreq.
    + pose proof (validateField_feedback field feedback) as Hfb.
      destruct (Validation.validateField field feedback) as [[ok field'] feedback'].
      cbn [fst snd] in Hfb.
      specialize (IH (if negb ok then false else isValid) feedback').
      destruct (Validation.validateForm_from _ form feedback') as [[result rest'] feedback''].
      cbn [fst snd] in *. rewrite IH, Hfb.
      destruct (feedback !! Validation.parentNode field) eqn:Hparent; [|done].
      destruct (decide (Validation.parentNode field = parent)) as [<-|Hne].
      * rewrite lookup_insert_eq, Hparent. split; eauto.
      * by rewrite lookup_insert_ne.
    + specialize (IH isValid feedback).
      destruct (Validation.validateForm_from isValid form feedback) as [[result rest'] feedback'].
      done.
Qed.

Lemma check_message (field : Validation.Field) :
  (fst (Validation.check field) = true /\ snd (Validation.check field) = "")
  \/ (fst (Validation.check field) = false /\ snd (Validation.check field) <> "").
Proof.
  unfold Validation.check. cbn zeta.
  repeat match goal with |- context [if ?b then _ else _] => destruct b end;
    simpl; auto.
Qed.

(** A required field that holds a no-break space, or an ideographic space,
    is empty for [validateField]; an address with a no-break space in it is
    refused, one with an accented letter is taken. *)
Example validation_white_space_examples :
  let field v t := {| Validation.value := v; Validation.required := true;
                      Validation.type := t; Validation.name := "contact";
                      Validation.classList := ∅; Validation.parentNode := 0 |} in
  Validation.check (field nbsp "text") = (false, "此字段为必填项")
  /\ Validation.check (field ideographic_space "text") = (false, "此字段为必填项")
  /\ Validation.check (field ("a" ++ nbsp ++ "b@c.d") "email") = (false, "请输入有效的邮箱地址")
  /\ Validation.check (field " zoé@c.d " "email") = (true, "").
Proof. repeat split; vm_compute; reflexivity. Qed.

(** X17: [validateField] accepts a field exactly when its trimmed value is
    not empty if the field is required, has the shape of an address if the
    field is of type email and filled in, and is a mobile number if the field
    is named phone and filled in.  The white space that [trim] takes and that
    an address must not hold is that of the language. *)
Theorem validateField_accepts (field : Validation.Field) (feedback : Validation.Feedback) :
  (Validation.validateField field feedback).1.1 = true <-> acceptable field.
Proof. rewrite validateField_result. apply check_acceptable. Qed.

(** X18: where the parent of the field has a feedback element, the field
    leaves [validateField] marked valid or invalid as the result says, never
    both, and the feedback is emptied exactly on success; the feedback of
    other parents stays.  Where there is none, nothing is marked at all,
    whatever the result. *)
Theorem validateField_marks (field : Validation.Field) (feedback : Validation.Feedback) :
  let ok := (Validation.validateField field feedback).1.1 in
  let field' := (Validation.validateField field feedback).1.2 in
  let feedback' := (Validation.validateField field feedback).2 in
  match feedback !! Validation.parentNode field with
  | Some _ =>
      ("is-valid" ∈ Validation.classList field' <-> ok = true)
      /\ ("is-invalid" ∈ Validation.classList field' <-> ok = false)
      /\ (feedback' !! Validation.parentNode field = Some "" <-> ok = true)
      /\ (forall parent, parent <> Validation.parentNode field ->
          feedback' !! parent = feedback !! parent)
  | None => field' = field /\ feedback' = feedback
  end.
Proof.
  cbn zeta. unfold Validation.validateField.
  destruct (check_message field) as [[Hok Hmessage] | [Hok Hmessage]];
    destruct (Validation.check field) as [ok message]; simpl in Hok, Hmessage; subst;
    (destruct (feedback !! Validation.parentNode field) eqn:Hparent; [|done]); simpl;
    rewrite lookup_insert_eq;
    (split; [set_solver|]); (split; [set_solver|]);
    (split; [split; [try done; congruence | try done]|]);
    intros parent Hne; by rewrite lookup_insert_ne.
Qed.

(** X19: a submit is let through exactly when every required field of the
    form is acceptable; fields that are not required are not looked at, so a
    malformed optional address does not stop the form.  The form is marked
    [was-validated] either way. *)
Theorem submit_checks_required_fields (form : list Validation.Field) (classes : gset string)
    (feedback : Validation.Feedback) :
  let prevented := (Validation.submit form classes feedback).1.1.1 in
  let classes' := (Validation.submit form classes feedback).2 in
  (prevented = false
   <-> forall field, In field form -> Validation.required field = true -> acceptable field)
  /\ "was-validated" ∈ classes'.
Proof.
  cbn zeta. unfold Validation.submit, Validation.validateForm.
  pose proof (validateForm_from_result true form feedback) as Hres.
  destruct (Validation.validateForm_from true form feedback) as [[ok form'] feedback'].
  simpl in *. split; [|set_solver].
  rewrite negb_false_iff, Hres, forallb_forall. split.
  - intros H field Hin Hreq. apply check_acceptable.
    specialize (H field Hin). by rewrite Hreq in H.
  - intros H field Hin. destruct (Validation.required field) eqn:Hreq; [|done].
    simpl. apply check_acceptable. auto.
Qed.

(** X20: fields of one parent share its feedback element, and every
    required field writes it: after [validateForm] the element shows the
    verdict on the last required field of the parent alone, so a valid field
    wipes the message of an invalid one before it. *)
Theorem validateForm_feedback_is_of_last_field (before after : list Validation.Field)
    (field : Validation.Field) (feedback : Validation.Feedback) :
  Validation.required field = true ->
  is_Some (feedback !! Validation.parentNode field) ->
  forallb (fun other => negb (Validation.required other
                              && Nat.eqb (Validation.parentNode other)
                                         (Validation.parentNode field))) after = true ->
  (Validation.validateForm (before ++ field :: after) feedback).2
    !! Validation.parentNode field
  = Some (if fst (Validation.check field) then "" else snd (Validation.check field)).
Proof.
  intros Hreq Hparent Hafter. unfold Validation.validateForm.
  generalize true as isValid. revert feedback Hparent.
  induction before as [|first before IH]; intros feedback Hparent isValid; simpl.
  - rewrite Hreq.
    pose proof (validateField_feedback field feedback) as Hfb.
    destruct (Validation.validateField field feedback) as [[ok field'] feedback'].
    simpl in Hfb.
    pose proof (validateForm_from_feedback (if negb ok then false else isValid) after feedback'
                  (Validation.parentNode field) Hafter) as Hrest.
    destruct (Validation.validateForm_from _ after feedback') as [[result rest'] feedback''].
    simpl in *. rewrite Hrest, Hfb. destruct Hparent as [text ->].
    by rewrite lookup_insert_eq.
  - destruct (Validation.required first) eqn:Hfirst.
    + pose proof (validateForm_from_keeps_feedback false [first] feedback
                    (Validation.parentNode field)) as Hkeep.
      simpl in Hkeep. rewrite Hfirst in Hkeep.
      destruct (Validation.validateField first feedback) as [[ok first'] feedback'].
      simpl in Hkeep. apply Hkeep in Hparent.
      specialize (IH feedback' Hparent (if negb ok then false else isValid)).
      destruct (Validation.validateForm_from _ (before ++ field :: after) feedback')
        as [[result rest'] feedback''].
      done.
    + specialize (IH feedback Hparent isValid).
      destruct (Validation.validateForm_from isValid (before ++ field :: after) feedback)
        as [[result rest'] feedback'].
      done.
Qed.

(** ** Status updates *)

Section StatusFacts.

Variable formData : list (string * string) -> string.

Lemma add_inputs_inputs (entries : list (string * JSValue)) (form : Status.Form) :
  Status.f_inputs (Status.add_inputs entries form)
  = (Status.f_inputs form ++ data_inputs entries)%list.
Proof.
  revert form. induction entries as [|[key value] entries IH]; intros form.
  - simpl. by rewrite app_nil_r.
  - unfold Status.add_inputs in *. simpl. rewrite IH. simpl.
    by rewrite <- app_assoc.
Qed.

Lemma status_form_inputs (p : Page) (entries : list (string * JSValue)) :
  Status.f_inputs (Status.add_inputs entries (Status.createCsrfForm p))
  = status_inputs p entries.
Proof. by rewrite add_inputs_inputs. Qed.

Lemma appendForm_getCsrfToken (form : Status.Form) (d : Status.Document) :
  getCsrfToken (Status.page (Status.appendForm form d))
  = match getCsrfToken (Status.page d) with
    | Some token => Some token
    | None =>
        match List.find (startsWith "csrftoken=") (split "; " (cookie (Status.page d))) with
        | Some _ => None
        | None => Status.named "csrfmiddlewaretoken" (Status.f_inputs form)
        end
    end.
Proof.
  unfold getCsrfToken, Status.appendForm.
  cbn [Status.page cookie csrf_field].
  destruct (List.find _ _) as [row|].
  - by destruct (nth_error (split "=" row) 1).
  - destruct (csrf_field (Status.page d)); [done|].
    by destruct (Status.named _ _).
Qed.

(** X21: the request of [updateStatus] is always dispatched, as a POST to
    the URL that keeps the default header [X-Requested-With] and sets no
    [Content-Type]; its body is made of the form, which is appended to the
    document and holds the hidden token field of the page, if there is one,
    and then the entries of the data in their order. *)
Theorem updateStatus_request_keeps_default_header (url : string)
    (entries : list (string * JSValue)) (d : Status.Document) :
  exists request form,
    Status.updateStatus_request formData url entries d
    = (Status.appendForm form d, Fulfilled request)
    /\ Status.f_inputs form = status_inputs (Status.page d) entries
    /\ r_url request = url
    /\ method (r_options request) = Some "POST"
    /\ body (r_options request) = Some (formData (Status.f_inputs form))
    /\ request_header "X-Requested-With" request = Some "XMLHttpRequest"
    /\ request_header "Content-Type" request = None.
Proof.
  unfold Status.updateStatus_request. cbn zeta.
  set (form := Status.add_inputs entries (Status.createCsrfForm (Status.page d))).
  set (p := Status.page (Status.appendForm form d)).
  assert (Hinputs : Status.f_inputs form = status_inputs (Status.page d) entries)
    by apply status_form_inputs.
  unfold ajax_request. rewrite spread_default_method, spread_default_headers.
  unfold method_of. simpl method. simpl headers. simpl default.
  change (toUpperCase "POST" =? "POST")%string with true. cbn iota.
  destruct (getCsrfToken p) as [token|]; [destruct (negb (token =? "")%string)|];
    eexists _, form; (split; [reflexivity|]); (split; [exact Hinputs|]);
    unfold request_header; simpl; repeat split; try done.
  all: by rewrite ?lookup_insert_ne by done.
Qed.

(** X22: on a page with no token of its own, neither in the cookie nor in a
    hidden field, a [csrfmiddlewaretoken] entry of the data is found by
    [getCsrfToken] in the form just appended, and goes out as the
    [X-CSRFToken] header. *)
Theorem updateStatus_data_token_becomes_header (url token : string)
    (entries : list (string * JSValue)) (d : Status.Document) :
  List.find (startsWith "csrftoken=") (split "; " (cookie (Status.page d))) = None ->
  csrf_field (Status.page d) = None ->
  Status.named "csrfmiddlewaretoken" (data_inputs entries) = Some token ->
  token <> EmptyString ->
  exists request,
    snd (Status.updateStatus_request formData url entries d) = Fulfilled request
    /\ request_header "X-CSRFToken" request = Some token.
Proof.
  intros Hcookie Hfield Hnamed Hne.
  unfold Status.updateStatus_request. cbn zeta.
  set (form := Status.add_inputs entries (Status.createCsrfForm (Status.page d))).
  assert (Htoken : getCsrfToken (Status.page (Status.appendForm form d)) = Some token).
  { rewrite appendForm_getCsrfToken. unfold getCsrfToken at 1.
    rewrite Hcookie, Hfield. unfold form.
    rewrite status_form_inputs. unfold status_inputs. by rewrite Hfield. }
  unfold ajax_request. rewrite spread_default_method, spread_default_headers, Htoken.
  unfold method_of. simpl method. simpl headers. simpl default.
  change (toUpperCase "POST" =? "POST")%string with true. cbn iota.
  apply String.eqb_neq in Hne. rewrite Hne. simpl.
  eexists. split; [reflexivity|]. unfold request_header. simpl.
  by rewrite lookup_insert_eq.
Qed.

(** X23: on a transport failure [updateStatus] adds exactly one
    notification, the generic one of [Utils.ajax]; nothing is reloaded and
    the promise rejects with the error of the failure. *)
Theorem updateStatus_failure_notifies_once (successMessage : JSValue) (o : FetchOutcome)
    (e : Error) (d : Status.Document) :
  TransportFailure o e ->
  exists d',
    Status.updateStatus_settle successMessage o d = (d', Rejected e)
    /\ notifications (Status.page d')
       = (notifications (Status.page d)
          ++ [(next_id (Status.page d), notification_node "请求失败，请重试" "error")])%list
    /\ Status.reloads d' = Status.reloads d
    /\ Status.forms d' = Status.forms d.
Proof.
  intros Hfail. unfold Status.updateStatus_settle.
  rewrite (ajax_settle_failure _ _ _ Hfail). eexists. split; [reflexivity|]. done.
Qed.

(** X24: when the server answers with JSON, [updateStatus] reloads the
    page exactly when the answer has a truthy [success], after one
    notification of the success message; an answer without it gives one
    error notification with the server's message, or the default one, and the
    promise is fulfilled all the same; for the answer [null] nothing is
    shown and the promise rejects with a TypeError. *)
Theorem updateStatus_reloads_on_success (successMessage : JSValue) (r : Response)
    (response : JSValue) (d : Status.Document) :
  ok r = true ->
  json r = Some response ->
  let d' := fst (Status.updateStatus_settle successMessage (Responded r) d) in
  let result := snd (Status.updateStatus_settle successMessage (Responded r) d) in
  let succeeded := js_truthy (js_prop "success" response) in
  Status.forms d' = Status.forms d
  /\ if js_nullish response then
       result = Rejected TypeError
       /\ notifications (Status.page d') = notifications (Status.page d)
       /\ Status.reloads d' = Status.reloads d
     else
       result = Fulfilled response
       /\ Status.reloads d' = (if succeeded then S (Status.reloads d) else Status.reloads d)
       /\ notifications (Status.page d')
          = (notifications (Status.page d)
             ++ [(next_id (Status.page d),
                  if succeeded
                  then notification_node (js_to_string successMessage) "success"
                  else notification_node
                         (js_to_string (js_or (js_prop "error" response) (JStr "操作失败")))
                         "error")])%list.
Proof.
  intros Hok Hjson. cbn zeta. unfold Status.updateStatus_settle.
  rewrite (ajax_settle_success _ _ _ Hok Hjson).
  destruct (js_nullish response); [done|].
  destruct (js_truthy (js_prop "success" response)); done.
Qed.

End StatusFacts.

(** ** The heart button *)

(** X25: a click leaves the icon with exactly one of the two hearts, the
    outline one if it had none before, and red exactly when it is the filled
    one; the other classes stay; and one toast is shown, the success one when
    the heart is now filled. *)
Theorem heart_click_toggles (classes : gset string) (p : Page) :
  exists classes' p',
    Favourite.click (Some classes) p = Some (classes', p')
    /\ ("bi-heart-fill" ∈ classes' <-> "bi-heart" ∈ classes)
    /\ ("bi-heart" ∈ classes' <-> "bi-heart" ∉ classes)
    /\ ("text-danger" ∈ classes' <-> "bi-heart" ∈ classes)
    /\ (forall class, class <> "bi-heart" -> class <> "bi-heart-fill" ->
        class <> "text-danger" -> class ∈ classes' <-> class ∈ classes)
    /\ toasts p'
       = (toasts p
          ++ [(next_id p,
               if bool_decide ("bi-heart" ∈ classes)
               then toast_node "已添加到收藏夹 ❤️" "success"
               else toast_node "已从收藏夹移除" "info")])%list.
Proof.
  unfold Favourite.click. case_bool_decide as Hheart.
  - eexists _, _. split; [reflexivity|].
    split; [set_solver|]. split; [set_solver|]. split; [set_solver|].
    split; [set_solver|]. apply showToast_appends.
  - eexists _, _. split; [reflexivity|].
    split; [set_solver|]. split; [set_solver|]. split; [set_solver|].
    split; [set_solver|]. apply showToast_appends.
Qed.

(** ** Searching and filtering *)

Lemma column_from_spec (i : nat) (headers : list Filtering.Header) (columnName : string) :
  match Filtering.column_from i headers columnName with
  | Some j =>
      exists k header,
        j = (i + k)%nat /\ headers !! k = Some header
        /\ Filtering.names columnName header = true
        /\ forall k' header', (k' < k)%nat -> headers !! k' = Some header' ->
                              Filtering.names columnName header' = false
  | None => forall header, In header headers -> Filtering.names columnName header = false
  end.
Proof.
  revert i. induction headers as [|first rest IH]; intros i; simpl; [by intros ?|].
  destruct (Filtering.names columnName first) eqn:Hfirst.
  - exists 0%nat, first. split; [lia|]. split; [done|]. split; [done|]. intros; lia.
  - specialize (IH (S i)). destruct (Filtering.column_from (S i) rest columnName) as [j|].
    + destruct IH as (k & header & -> & Hk & Hnames & Hleast).
      exists (S k), header. split; [lia|]. split; [done|]. split; [done|].
      intros [|k'] header' Hlt Hk'; simpl in Hk'; [by injection Hk' as <-|].
      apply (Hleast k'); [lia | done].
    + intros header [<- | Hin]; [done | by apply IH].
Qed.

(** X26: [getColumnIndex] gives the index of the first header that names
    the column, by its [data-column] or within its text; when no header does
    it gives 0, the index of the first column, all the same. *)
Theorem getColumnIndex_first_or_zero (headers : list Filtering.Header) (columnName : string) :
  let i := Filtering.getColumnIndex headers columnName in
  (exists header,
     headers !! i = Some header
     /\ Filtering.names columnName header = true
     /\ forall k header', (k < i)%nat -> headers !! k = Some header' ->
                          Filtering.names columnName header' = false)
  \/ (i = 0%nat
      /\ forall header, In header headers -> Filtering.names columnName header = false).
Proof.
  cbn zeta. unfold Filtering.getColumnIndex.
  pose proof (column_from_spec 0 headers columnName) as Hspec.
  destruct (Filtering.column_from 0 headers columnName) as [j|]; simpl.
  - destruct Hspec as (k & header & -> & Hk & Hnames & Hleast). left. by exists header.
  - by right.
Qed.

Lemma filters_of_empty (selects : list Filtering.Select) :
  Forall (fun select => Filtering.s_value select = "") selects ->
  Filtering.filters_of selects = ∅.
Proof.
  unfold Filtering.filters_of. generalize (∅ : gmap string string) as filters.
  induction selects as [|select selects IH]; intros filters Hall; simpl; [done|].
  inversion Hall as [|? ? Hvalue Hrest]; subst. rewrite Hvalue. simpl. by apply IH.
Qed.

(** X27: with an empty search box, or none, and no filter chosen, every
    row of the table is shown. *)
Theorem performSearch_shows_all (st : Filtering.State) (rows : list Filtering.Row) :
  Filtering.table st = Some rows ->
  default "" (Filtering.searchInput st) = "" ->
  Forall (fun select => Filtering.s_value select = "") (Filtering.filterSelects st) ->
  exists rows',
    Filtering.table (Filtering.performSearch st) = Some rows'
    /\ forallb shown rows' = true
    /\ map Filtering.cells rows' = map Filtering.cells rows.
Proof.
  intros Htable Hterm Hselects. unfold Filtering.performSearch. rewrite Htable.
  eexists. split; [reflexivity|]. rewrite (filters_of_empty _ Hselects).
  assert (Hsearch : match Filtering.searchInput st with
                    | Some value => Filtering.toLowerCase value
                    | None => ""
                    end = "").
  { destruct (Filtering.searchInput st) as [value|]; [|done]. simpl in Hterm. by subst. }
  rewrite Hsearch. split.
  - apply forallb_forall. intros row Hin. apply in_map_iff in Hin as (row0 & <- & _).
    unfold shown, Filtering.showRow. simpl.
    rewrite bool_decide_eq_true_2 by apply map_Forall_empty. done.
  - rewrite map_map. done.
Qed.

(** X28: a single filter on a column that no header names is applied to
    the first column: with no search term, the rows shown are those whose
    first cell, trimmed, is the chosen value, and those without cells. *)
Theorem performSearch_unknown_column_filters_first (st : Filtering.State)
    (rows : list Filtering.Row) (select : Filtering.Select) :
  Filtering.table st = Some rows ->
  default "" (Filtering.searchInput st) = "" ->
  Filtering.filterSelects st = [select] ->
  Filtering.s_value select <> "" ->
  Filtering.s_name select <> "__proto__" ->
  (forall header, In header (Filtering.headers st) ->
                  Filtering.names (Filtering.s_name select) header = false) ->
  Filtering.table (Filtering.performSearch st)
  = Some (map (fun row =>
                 {| Filtering.textContent := Filtering.textContent row;
                    Filtering.cells := Filtering.cells row;
                    Filtering.display :=
                      match Filtering.cells row with
                      | first :: _ =>
                          if String.eqb (JsText.trim first) (Filtering.s_value select)
                          then "" else "none"
                      | [] => ""
                      end |}) rows).
Proof.
  intros Htable Hterm Hselects Hvalue Hname Hheaders.
  unfold Filtering.performSearch. rewrite Htable, Hselects. cbn [Filtering.table].
  assert (Hsearch : match Filtering.searchInput st with
                    | Some value => Filtering.toLowerCase value
                    | None => ""
                    end = "").
  { destruct (Filtering.searchInput st) as [value|]; [|done]. simpl in Hterm. by subst. }
  rewrite Hsearch. unfold Filtering.filters_of. simpl.
  apply String.eqb_neq in Hvalue, Hname. rewrite Hvalue, Hname. simpl.
  rewrite insert_empty.
  assert (Hindex : Filtering.getColumnIndex (Filtering.headers st) (Filtering.s_name select) = 0%nat).
  { unfold Filtering.getColumnIndex.
    pose proof (column_from_spec 0 (Filtering.headers st) (Filtering.s_name select)) as Hspec.
    destruct (Filtering.column_from 0 _ _) as [j|]; [|done].
    destruct Hspec as (k & header & _ & Hk & Hnames & _).
    apply list_elem_of_lookup_2, list_elem_of_In, Hheaders in Hk. congruence. }
  f_equal. apply map_ext. intros row. f_equal. unfold Filtering.showRow. simpl.
  destruct (Filtering.cells row) as [|first rest] eqn:Hcells.
  - rewrite bool_decide_eq_true_2; [done|].
    apply map_Forall_singleton. unfold Filtering.passes. by rewrite Hcells.
  - destruct (String.eqb_spec (JsText.trim first) (Filtering.s_value select)) as [Heq|Hne].
    + rewrite bool_decide_eq_true_2; [done|].
      apply map_Forall_singleton. unfold Filtering.passes. by rewrite Hindex, Hcells.
    + rewrite bool_decide_eq_false_2; [done|].
      rewrite map_Forall_singleton. unfold Filtering.passes. by rewrite Hindex, Hcells.
Qed.

(** ** Exporting a table *)

Lemma read_from_app (r : option Reader) (s1 s2 : string) :
  read_from r (s1 ++ s2) = read_from (read_from r s1) s2.
Proof. revert r. induction s1 as [|c s1 IH]; intros r; simpl; [done | apply IH]. Qed.

Lemma append_snoc_char (s : string) (c : ascii) (s' : string) :
  (s ++ String c "") ++ s' = s ++ String c s'.
Proof. induction s as [|a s IH]; simpl; [done | by rewrite IH]. Qed.

Lemma read_double_quotes (rows : list (list string)) (row : list string)
    (field text : string) :
  read_from (Some {| records := rows; fields := row; reading := Inside field |})
            (Csv.double_quotes text)
  = Some {| records := rows; fields := row; reading := Inside (field ++ text) |}.
Proof.
  revert field. induction text as [|c text IH]; intros field; simpl.
  - by rewrite append_empty.
  - destruct (Ascii.eqb c Csv.quote) eqn:Hc; simpl; unfold read_char; simpl; rewrite Hc;
      simpl; rewrite ?Hc, IH, append_snoc_char; done.
Qed.

Lemma read_cell (rows : list (list string)) (row : list string) (text : string) :
  read_from (Some {| records := rows; fields := row; reading := Outside |})
            (Csv.cell_csv text)
  = Some {| records := rows; fields := row; reading := Closed (JsText.trim text) |}.
Proof.
  unfold Csv.cell_csv, dq. simpl. unfold read_char at 1. simpl.
  rewrite read_from_app, read_double_quotes. simpl. done.
Qed.

Lemma read_row (rows : list (list string)) (row : list string) (col : string)
    (cols : list string) :
  exists row' field,
    read_from (Some {| records := rows; fields := row; reading := Outside |})
              (String.concat "," (map Csv.cell_csv (col :: cols)))
    = Some {| records := rows; fields := row'; reading := Closed field |}
    /\ (row' ++ [field] = row ++ map JsText.trim (col :: cols))%list.
Proof.
  revert row col. induction cols as [|col' cols IH]; intros row col.
  - exists row, (JsText.trim col).
    change (String.concat "," (map Csv.cell_csv [col])) with (Csv.cell_csv col).
    by rewrite read_cell.
  - destruct (IH (row ++ [JsText.trim col])%list col') as (row' & field & Hread & Hrow).
    exists row', field. split.
    + change (String.concat "," (map Csv.cell_csv (col :: col' :: cols)))
        with (Csv.cell_csv col
              ++ "," ++ String.concat "," (map Csv.cell_csv (col' :: cols))).
      rewrite read_from_app, read_cell. simpl. exact Hread.
    + rewrite Hrow. simpl. by rewrite <- app_assoc.
Qed.

Lemma read_rows (rows : list (list string)) (first : list string)
    (rest : list (list string)) :
  Forall (fun cols => cols <> []) (first :: rest) ->
  exists rows' row' field,
    read_from (Some {| records := rows; fields := []; reading := Outside |})
              (Csv.csvContent (first :: rest))
    = Some {| records := rows'; fields := row'; reading := Closed field |}
    /\ (rows' ++ [row' ++ [field]] = rows ++ map (map JsText.trim) (first :: rest))%list.
Proof.
  revert rows first. induction rest as [|second rest IH]; intros rows first Hall.
  - inversion Hall as [|? ? Hfirst _]; subst.
    destruct first as [|col cols]; [done|].
    destruct (read_row rows [] col cols) as (row' & field & Hread & Hrow).
    exists rows, row', field. unfold Csv.csvContent. simpl map. simpl String.concat at 1.
    split; [exact Hread|]. by rewrite Hrow.
  - inversion Hall as [|? ? Hfirst Hrest]; subst.
    destruct first as [|col cols]; [done|].
    destruct (read_row rows [] col cols) as (row1 & field1 & Hread1 & Hrow1).
    destruct (IH (rows ++ [row1 ++ [field1]])%list second Hrest)
      as (rows' & row' & field & Hread & Hrows).
    exists rows', row', field. split.
    + unfold Csv.csvContent in *.
      change (String.concat nl (map (fun cols0 => String.concat "," (map Csv.cell_csv cols0))
                                    ((col :: cols) :: second :: rest)))
        with (String.concat "," (map Csv.cell_csv (col :: cols))
              ++ nl ++ String.concat nl
                         (map (fun cols0 => String.concat "," (map Csv.cell_csv cols0))
                              (second :: rest))).
      rewrite read_from_app, Hread1. simpl. exact Hread.
    + rewrite Hrows, Hrow1. simpl. by rewrite <- app_assoc.
Qed.

(** X29: the exported file reads back.  For a table with at least one row,
    each with at least one cell, a reader of quoted comma-separated values
    finds in the file the rows of the table, cell by cell, with the trimmed
    text of each cell: quotes, commas and line feeds in a cell do no harm. *)
Theorem exportTable_reads_back (rows : list (list string)) :
  rows <> [] ->
  Forall (fun cols => cols <> []) rows ->
  Csv.exportTable (Some rows) ≫= read_csv = Some (map (map JsText.trim) rows).
Proof.
  intros Hrows Hall. destruct rows as [|first rest]; [done|].
  destruct (read_rows [] first rest Hall) as (rows' & row' & field & Hread & Heq).
  simpl. unfold read_csv. rewrite Hread. simpl. by rewrite Heq.
Qed.

(** ** The theorems at work *)

Lemma getCsrfToken_reads_cookie_first_witness :
  getCsrfToken (loaded "sessionid=xyz; csrftoken=abc123" (Some "field-token") None None)
  = Some "abc123".
Proof.
  apply (getCsrfToken_reads_cookie_first
           (loaded "sessionid=xyz; csrftoken=abc123" (Some "field-token") None None)
           ["sessionid=xyz"; "csrftoken=abc123"] "abc123");
    reflexivity.
Defined.

Lemma getCsrfToken_falls_back_to_field_witness :
  getCsrfToken (loaded "sessionid=xyz; theme=dark" (Some "field-token") None None)
  = Some "field-token".
Proof.
  apply (getCsrfToken_falls_back_to_field
           (loaded "sessionid=xyz; theme=dark" (Some "field-token") None None)
           ["sessionid=xyz"; "theme=dark"]);
    [reflexivity | discriminate | reflexivity | reflexivity].
Defined.

Lemma empty_cookie_token_hides_field_witness :
  let p := loaded "csrftoken=; sessionid=xyz" (Some "field-token") None None in
  let options := {| method := Some "POST"; headers := None; body := None |} in
  getCsrfToken p = Some EmptyString
  /\ ajax_request p "/orders/1/" options
     = Fulfilled {| r_url := "/orders/1/"; r_options := spread defaultOptions options |}.
Proof.
  apply (empty_cookie_token_hides_field
           (loaded "csrftoken=; sessionid=xyz" (Some "field-token") None None)
           ["csrftoken="; "sessionid=xyz"] EmptyString "/orders/1/"
           {| method := Some "POST"; headers := None; body := None |});
    reflexivity.
Defined.

Lemma updateCartCounter_counts_witness :
  counter_text
    (run (fun _ => false)
       [CounterBump; Notify "saved" "success"; Wait 300; CounterBump]
       (loaded "" None None (Some {| c_textContent := pretty 9%Z; c_transform := "" |})))
  = Some (pretty 11%Z).
Proof.
  apply (updateCartCounter_counts (fun _ => false)
           [CounterBump; Notify "saved" "success"; Wait 300; CounterBump] 9
           (loaded "" None None (Some {| c_textContent := pretty 9%Z; c_transform := "" |}))
           {| c_textContent := pretty 9%Z; c_transform := "" |});
    [reflexivity | reflexivity | unfold safe_integer; lia
    | unfold safe_integer, bumps; simpl; lia].
Defined.

Lemma updateCartCounter_starts_at_one_witness :
  c_textContent
    <$> cart_counter
          (updateCartCounter
             (loaded "" None None (Some {| c_textContent := "-"; c_transform := "" |})))
  = Some "1".
Proof.
  apply (updateCartCounter_starts_at_one
           (loaded "" None None (Some {| c_textContent := "-"; c_transform := "" |}))
           {| c_textContent := "-"; c_transform := "" |});
    reflexivity.
Defined.

Lemma debounce_burst_calls_once_witness :
  let st := Debounce.run 300
              (burst_events [("c", 100); ("ca", 250)]
               ++ [Debounce.Call "cat"; Debounce.Idle 300])
              Debounce.fresh in
  Debounce.invoked st = [(650, "cat")] /\ Debounce.timeout st = None.
Proof.
  apply (debounce_burst_calls_once 300 [("c", 100); ("ca", 250)] "cat" 300 Debounce.fresh).
  - repeat constructor; simpl; lia.
  - lia.
Defined.

Lemma click_permutes_rows_witness :
  let by_length := fun a b : string =>
    (Z.of_nat (String.length a) - Z.of_nat (String.length b))%Z in
  let st := {| Table.sortable := [{| Table.cellIndex := 0; Table.classList := ∅ |}];
               Table.rows := [["pear"; "3"]; ["fig"; "12"]; ["banana"; "7"]] |} in
  exists st',
    Table.click by_length 0 st = Some st'
    /\ Permutation (Table.rows st') (Table.rows st)
    /\ map Table.cellIndex (Table.sortable st') = map Table.cellIndex (Table.sortable st).
Proof.
  intros by_length st. eexists. split; [reflexivity|].
  apply (click_permutes_rows by_length 0 st). reflexivity.
Defined.

Lemma click_throws_on_short_row_witness :
  let by_length := fun a b : string =>
    (Z.of_nat (String.length a) - Z.of_nat (String.length b))%Z in
  let st := {| Table.sortable := [{| Table.cellIndex := 1; Table.classList := ∅ |}];
               Table.rows := [["pear"; "3"]; ["fig"]] |} in
  Table.click by_length 0 st = None.
Proof.
  intros by_length st.
  apply (click_throws_on_short_row by_length 0 st
           {| Table.cellIndex := 1; Table.classList := ∅ |}); [reflexivity|].
  split; [simpl; lia|]. right. left. simpl. lia.
Defined.

Lemma click_sorts_against_the_mark_witness :
  let by_length := fun a b : string =>
    (Z.of_nat (String.length a) - Z.of_nat (String.length b))%Z in
  let this := {| Table.cellIndex := 0; Table.classList := ∅ |} in
  let st := {| Table.sortable := [this];
               Table.rows := [["pear"; "3"]; ["fig"; "12"]; ["banana"; "7"]] |} in
  exists st',
    Table.click by_length 0 st = Some st'
    /\ Table.rows st' = [["banana"; "7"]; ["pear"; "3"]; ["fig"; "12"]]
    /\ StronglySorted (in_order by_length false 0) (Table.rows st')
    /\ exists this',
         Table.sortable st' !! 0 = Some this'
         /\ marked "asc" this' = true /\ marked "desc" this' = false.
Proof.
  intros by_length this st. eexists. split; [reflexivity|]. split; [reflexivity|].
  destruct (click_sorts_against_the_mark by_length
              ltac:(intros; unfold by_length; lia) ltac:(intros; unfold by_length in *; lia)
              0 st _ this eq_refl eq_refl)
    as (Hsorted & Hmark & _).
  split; [exact Hsorted | exact Hmark].
Defined.

Lemma click_keeps_ties_in_order_witness :
  let by_length := fun a b : string =>
    (Z.of_nat (String.length a) - Z.of_nat (String.length b))%Z in
  let this := {| Table.cellIndex := 0; Table.classList := ∅ |} in
  let st := {| Table.sortable := [this];
               Table.rows := [["fig"; "12"]; ["pear"; "3"]; ["kiwi"; "7"]; ["plum"; "5"]] |} in
  exists st',
    Table.click by_length 0 st = Some st'
    /\ Table.rows st' = [["pear"; "3"]; ["kiwi"; "7"]; ["plum"; "5"]; ["fig"; "12"]]
    /\ List.filter (fun row => tied by_length "four" (sort_key 0 row)) (Table.rows st')
       = [["pear"; "3"]; ["kiwi"; "7"]; ["plum"; "5"]].
Proof.
  intros by_length this st. eexists. split; [reflexivity|]. split; [reflexivity|].
  apply (click_keeps_ties_in_order by_length
           ltac:(intros; unfold by_length in *; lia) 0 st _ this "four" eq_refl eq_refl).
Defined.

Lemma bulk_panel_follows_the_boxes_witness :
  let st := {| Selection.selectAll := Some false;
               Selection.rowCheckboxes := [false; true; false];
               Selection.bulkActions :=
                 Some {| Selection.display := "block";
                         Selection.selectedCount := Some "1" |} |} in
  Selection.bulkActions (fst (Selection.change (Selection.Row 0) st))
  = Some {| Selection.display := "block"; Selection.selectedCount := Some (pretty 2) |}
  /\ Selection.bulkActions (fst (Selection.change (Selection.Row 1) st))
     = Some {| Selection.display := "none"; Selection.selectedCount := Some "1" |}.
Proof.
  intros st. split.
  - apply (bulk_panel_follows_the_boxes (Selection.Row 0) st
             {| Selection.display := "block"; Selection.selectedCount := Some "1" |} "1");
      reflexivity.
  - apply (bulk_panel_follows_the_boxes (Selection.Row 1) st
             {| Selection.display := "block"; Selection.selectedCount := Some "1" |} "1");
      reflexivity.
Defined.

Lemma select_all_counts_every_row_witness :
  let st := {| Selection.selectAll := Some false;
               Selection.rowCheckboxes := [false; true; false];
               Selection.bulkActions :=
                 Some {| Selection.display := "block";
                         Selection.selectedCount := Some "1" |} |} in
  Selection.bulkActions (fst (Selection.change (Selection.SelectAll true) st))
  = Some {| Selection.display := "block"; Selection.selectedCount := Some (pretty 3) |}.
Proof.
  intros st.
  apply (select_all_counts_every_row true st
           {| Selection.display := "block"; Selection.selectedCount := Some "1" |} "1");
    reflexivity.
Defined.

Lemma bulk_panel_without_counter_throws_witness :
  let st := {| Selection.selectAll := Some false;
               Selection.rowCheckboxes := [false; false];
               Selection.bulkActions :=
                 Some {| Selection.display := "none"; Selection.selectedCount := None |} |} in
  snd (Selection.change (Selection.Row 1) st) = true
  /\ Selection.bulkActions (fst (Selection.change (Selection.Row 1) st))
     = Some {| Selection.display := "block"; Selection.selectedCount := None |}.
Proof.
  intros st.
  apply (bulk_panel_without_counter_throws (Selection.Row 1) st
           {| Selection.display := "none"; Selection.selectedCount := None |});
    reflexivity.
Defined.

Lemma validateForm_feedback_is_of_last_field_witness :
  let empty := {| Validation.value := "  "; Validation.required := true;
                  Validation.type := "text"; Validation.name := "first";
                  Validation.classList := ∅; Validation.parentNode := 0 |} in
  let filled := {| Validation.value := "Liu"; Validation.required := true;
                   Validation.type := "text"; Validation.name := "last";
                   Validation.classList := ∅; Validation.parentNode := 0 |} in
  (Validation.validateForm [empty; filled] {[ 0%nat := "" ]}).1.1 = false
  /\ (Validation.validateForm [empty; filled] {[ 0%nat := "" ]}).2 !! 0%nat = Some "".
Proof.
  intros empty filled. split; [reflexivity|].
  apply (validateForm_feedback_is_of_last_field [empty] [] filled {[ 0%nat := "" ]});
    [reflexivity | exists ""; reflexivity | reflexivity].
Defined.

Lemma updateStatus_data_token_becomes_header_witness :
  let formData := fun inputs : list (string * string) =>
    String.concat "&" (map (fun input => fst input ++ "=" ++ snd input) inputs) in
  let d := {| Status.page := loaded "" None None None; Status.forms := [];
              Status.reloads := 0 |} in
  exists request,
    snd (Status.updateStatus_request formData "/orders/7/status/"
           [("csrfmiddlewaretoken", JStr "tok"); ("status", JStr "shipped")] d)
    = Fulfilled request
    /\ request_header "X-CSRFToken" request = Some "tok".
Proof.
  intros formData d.
  apply (updateStatus_data_token_becomes_header formData "/orders/7/status/" "tok"
           [("csrfmiddlewaretoken", JStr "tok"); ("status", JStr "shipped")] d);
    [reflexivity | reflexivity | reflexivity | discriminate].
Defined.

Lemma updateStatus_failure_notifies_once_witness :
  let d := {| Status.page := loaded "" None None None; Status.forms := [];
              Status.reloads := 0 |} in
  exists d',
    Status.updateStatus_settle (JStr "saved") (Failed NetworkError) d
    = (d', Rejected NetworkError)
    /\ notifications (Status.page d')
       = [(0, notification_node "请求失败，请重试" "error")]
    /\ Status.reloads d' = 0
    /\ Status.forms d' = [].
Proof.
  intros d.
  apply (updateStatus_failure_notifies_once (JStr "saved") (Failed NetworkError)
           NetworkError d).
  apply network_failed.
Defined.

Lemma updateStatus_reloads_on_success_witness :
  let d := {| Status.page := loaded "" None None None; Status.forms := [];
              Status.reloads := 0 |} in
  let r := {| status := 200; json := Some (JObj [("success", JBool true)]) |} in
  Status.reloads (fst (Status.updateStatus_settle (JStr "saved") (Responded r) d)) = 1
  /\ notifications (Status.page (fst (Status.updateStatus_settle (JStr "saved")
                                        (Responded r) d)))
     = [(0, notification_node "saved" "success")].
Proof.
  intros d r.
  destruct (updateStatus_reloads_on_success (JStr "saved") r
              (JObj [("success", JBool true)]) d eq_refl eq_refl)
    as (_ & _ & Hreloads & Hnotes).
  split; [exact Hreloads | exact Hnotes].
Defined.

Lemma performSearch_shows_all_witness :
  let rows := [{| Filtering.textContent := "Pear 3"; Filtering.cells := ["Pear"; "3"];
                  Filtering.display := "none" |}] in
  let st := {| Filtering.searchInput := Some "";
               Filtering.filterSelects := [{| Filtering.s_name := "status"; Filtering.s_value := "" |}];
               Filtering.headers := [];
               Filtering.table := Some rows |} in
  exists rows',
    Filtering.table (Filtering.performSearch st) = Some rows'
    /\ forallb shown rows' = true
    /\ map Filtering.cells rows' = map Filtering.cells rows.
Proof.
  intros rows st. apply (performSearch_shows_all st rows); [reflexivity | reflexivity|].
  repeat constructor.
Defined.

Lemma performSearch_unknown_column_filters_first_witness :
  let rows := [{| Filtering.textContent := "Pear paid"; Filtering.cells := ["Pear"; "paid"];
                  Filtering.display := "" |};
               {| Filtering.textContent := "paid Fig"; Filtering.cells := [" paid "; "Fig"];
                  Filtering.display := "" |}] in
  let st := {| Filtering.searchInput := None;
               Filtering.filterSelects := [{| Filtering.s_name := "status";
                                           Filtering.s_value := "paid" |}];
               Filtering.headers := [{| Filtering.column := None; Filtering.h_textContent := "Name" |};
                                  {| Filtering.column := None; Filtering.h_textContent := "State" |}];
               Filtering.table := Some rows |} in
  map Filtering.display <$> Filtering.table (Filtering.performSearch st) = Some ["none"; ""].
Proof.
  intros rows st.
  rewrite (performSearch_unknown_column_filters_first st rows
             {| Filtering.s_name := "status"; Filtering.s_value := "paid" |});
    [reflexivity | reflexivity | reflexivity | reflexivity | discriminate | discriminate |].
  intros header [<- | [<- | []]]; reflexivity.
Defined.

Lemma exportTable_reads_back_witness :
  Csv.exportTable (Some [["Name"; " Price "]; ["Pear, large"; "3" ++ dq]]) ≫= read_csv
  = Some [["Name"; "Price"]; ["Pear, large"; "3" ++ dq]].
Proof.
  apply (exportTable_reads_back [["Name"; " Price "]; ["Pear, large"; "3" ++ dq]]).
  - discriminate.
  - repeat constructor; discriminate.
Defined.
